(** * The quorum state machine of the disk-based quorum daemon

    A shallow embedding of [cman/qdisk/main.c]: the peer tracker
    ([read_node_blocks], [check_transitions]), the election engine
    ([master_exists], [do_vote], [check_votes]), the fixed-period driver
    ([quorum_loop]) and the start-up ([get_config_data], [quorum_init]).

    Conventions.
    - C integers are [Z].  The signed counters of the daemon ([ni_misses],
      [ni_seen], [bid_pending], [upgrade]) move by one per cycle of at least
      one second and are modelled without overflow (signed overflow is
      undefined in C anyway); the width of the message sequence number is
      declared in a header that is not at hand, and sequence numbers are
      left unbounded (nothing below depends on them).
    - Where the code forms a sum or a product of configured values in an
      [int] ([tko_up + 1], [interval * tko]), the result is taken in 32-bit
      two's complement, as the machine computes it: [int_wrap].
    - [reboot(RB_AUTOBOOT)] does not return: it ends the run with [Rebooted].
    - Everything the daemon asks of its collaborators (disk writes, fencing
      requests, votes reported to the membership service, signals, sleeps) is
      recorded in an event trace; what it reads from them (disk blocks, the
      heuristic score, the clock, the membership list) is an input of the
      cycle. *)

From Stdlib Require Import ZArith List Bool Lia Sorted.
Import ListNotations.
Local Open Scope Z_scope.

(** ** Constants of the disk header file

    [disk.h] is not part of the sources at hand: the numeric values of the
    node states, of the message codes and of the run flags, and the number
    of nodes that the disk and the membership masks provide for, are
    parameters of the whole development. *)
Class disk_h : Type := {
  S_NONE : Z; S_EVICT : Z; S_INIT : Z; S_RUN : Z; S_MASTER : Z;
  M_NONE : Z; M_BID : Z; M_ACK : Z; M_NACK : Z;
  RF_REBOOT : Z; RF_DEBUG : Z; RF_PARANOID : Z; RF_ALLOW_KILL : Z;
  MAX_NODES_DISK : Z
}.

(** Modelled from the spec: the header [disk.h] is missing; this numbering
    follows the order in which section 3 lists the states ("NONE=0, INIT,
    RUN, MASTER, EVICT") and section 4.5 the messages; the flags are
    distinct bits, and the masks hold sixteen nodes. *)
Definition disk_h_listed : disk_h := {|
  S_NONE := 0; S_INIT := 1; S_RUN := 2; S_MASTER := 3; S_EVICT := 4;
  M_NONE := 0; M_BID := 1; M_ACK := 2; M_NACK := 3;
  RF_REBOOT := 1; RF_DEBUG := 4; RF_PARANOID := 8; RF_ALLOW_KILL := 16;
  MAX_NODES_DISK := 16
|}.

(** Modelled from the spec: the header [disk.h] is missing; this second
    numbering keeps NONE=0 and places EVICT directly above NONE and below
    INIT, the order that the comments of [check_transitions] presuppose
    (tracked state [>= S_EVICT] reads "still up", observed state
    [<= S_EVICT] reads "evicted or cleanly shut down"). *)
Definition disk_h_low_evict : disk_h := {|
  S_NONE := 0; S_EVICT := 1; S_INIT := 2; S_RUN := 5; S_MASTER := 6;
  M_NONE := 0; M_BID := 1; M_ACK := 2; M_NACK := 3;
  RF_REBOOT := 1; RF_DEBUG := 4; RF_PARANOID := 8; RF_ALLOW_KILL := 16;
  MAX_NODES_DISK := 16
|}.

(** ** Data model *)

(** [disk_msg_t]: the one-slot election message. *)
Record disk_msg : Type := mk_msg {
  m_msg : Z;
  m_arg : Z;
  m_seq : Z
}.

(** [status_block_t]: the fields of an on-disk status block that main.c
    touches. *)
Record status_block : Type := mk_sb {
  ps_nodeid : Z;
  ps_updatenode : Z;
  ps_timestamp : Z;
  ps_incarnation : Z;
  ps_state : Z;
  ps_msg : Z;
  ps_arg : Z;
  ps_seq : Z;
  ps_master_mask : Z
}.

(** [node_info_t]: the in-memory record kept for every node id. *)
Record node_info : Type := mk_ni {
  ni_status : status_block;
  ni_last_seen : Z;
  ni_misses : Z;
  ni_seen : Z;
  ni_incarnation : Z;
  ni_evil_incarnation : Z;
  ni_state : Z;
  ni_msg : disk_msg;
  ni_last_msg : disk_msg
}.

(** [qd_ctx]: configuration, plus the two fields the loop updates
    ([qc_status], [qc_master]). *)
Record qd_ctx : Type := mk_ctx {
  qc_my_id : Z;
  qc_status : Z;
  qc_master : Z;
  qc_interval : Z;
  qc_tko : Z;
  qc_tko_up : Z;
  qc_upgrade_wait : Z;
  qc_master_wait : Z;
  qc_scoremin : Z;
  qc_flags : Z
}.

Definition set_qc_status (s : Z) (c : qd_ctx) : qd_ctx :=
  mk_ctx (qc_my_id c) s (qc_master c) (qc_interval c) (qc_tko c)
         (qc_tko_up c) (qc_upgrade_wait c) (qc_master_wait c)
         (qc_scoremin c) (qc_flags c).

Definition set_qc_master (m : Z) (c : qd_ctx) : qd_ctx :=
  mk_ctx (qc_my_id c) (qc_status c) m (qc_interval c) (qc_tko c)
         (qc_tko_up c) (qc_upgrade_wait c) (qc_master_wait c)
         (qc_scoremin c) (qc_flags c).

(** [struct timeval]. *)
Record timeval : Type := mk_tv {
  tv_sec : Z;
  tv_usec : Z
}.

(** ** Effects *)

(** What the daemon asks of the outside world. *)
Inductive event : Type :=
| EWriteStatus (nid state : Z) (msg : option disk_msg)
               (mask master_mask : option Z)
    (* qd_write_status(ctx, nid, state, msg, mask, master_mask) *)
| EKillNode (nid : Z)                    (* cman_kill_node *)
| EPollQuorumDevice (vote : Z)           (* cman_poll_quorum_device *)
| ELocalStatus (score score_req score_max : Z) (* update_local_status *)
| ESigStop                               (* raise(SIGSTOP) *)
| ESleep (tv : timeval).                 (* select(0,0,0,0,&sleeptime) *)

(** How a piece of the daemon ends: normally, by rebooting the machine, or
    by leaving [quorum_loop] with -1. *)
Inductive result (A : Type) : Type :=
| Ok (a : A)
| Rebooted
| Halted.
Arguments Ok {A} a.
Arguments Rebooted {A}.
Arguments Halted {A}.

(** A computation: the events it emitted and how it ended. *)
Definition M (A : Type) : Type := (list event * result A)%type.

Definition ret {A} (a : A) : M A := ([], Ok a).
Definition emit (e : event) : M unit := ([e], Ok tt).
Definition reboot {A} : M A := ([], Rebooted).
Definition halt {A} : M A := ([], Halted).

Definition bind {A B} (m : M A) (f : A -> M B) : M B :=
  match m with
  | (l, Ok a) => let (l', r) := f a in (l ++ l', r)
  | (l, Rebooted) => (l, Rebooted)
  | (l, Halted) => (l, Halted)
  end.

Notation "x <- m ;; k" := (bind m (fun x => k))
  (at level 61, m at next level, right associativity).
Notation "m ;;; k" := (bind m (fun _ => k))
  (at level 61, right associativity).

(** C truth value of an integer. *)
Definition truthy (z : Z) : bool := negb (z =? 0).

(** ** Machine integers *)

(** [int] is 32 bits wide.  [int_wrap] brings the exact result of an
    addition or a multiplication of two [int]s back into its range, the
    way two's complement arithmetic does. *)
Definition INT_MAX : Z := 2147483647.
Definition INT_MIN : Z := -2147483648.

Definition int_wrap (z : Z) : Z := (z - INT_MIN) mod 4294967296 + INT_MIN.

(** ** Bitmap *)

(** Modelled from the spec: bitmap.c is missing; section 4.2 describes a
    fixed-size bit vector sized for the maximum number of nodes, with
    [set(i)], [clear(i)], [test(i)], bit [i] standing for node id [i+1].
    The vector is held in a [Z], of which the bits [0] to
    [MAX_NODES_DISK - 1] count; an index outside that range names no bit:
    setting or clearing it changes nothing, and testing it answers no.
    The byte count that the C code passes with every call is taken to be
    the size of the vector. *)
Definition bit_in_range {DH : disk_h} (bitidx : Z) : bool :=
  (0 <=? bitidx) && (bitidx <? MAX_NODES_DISK).

Definition set_bit {DH : disk_h} (mask bitidx : Z) : Z :=
  if bit_in_range bitidx then Z.setbit mask bitidx else mask.

Definition clear_bit {DH : disk_h} (mask bitidx : Z) : Z :=
  if bit_in_range bitidx then Z.clearbit mask bitidx else mask.

Definition is_bit_set {DH : disk_h} (mask bitidx : Z) : bool :=
  bit_in_range bitidx && Z.testbit mask bitidx.

Section Daemon.
Context {DH : disk_h}.

(** ** Peer tracker: reading the blocks *)

(** [state_run]: "Simple thing to see if a node is running"; returns the
    state itself when it is at least [S_INIT], else 0. *)
Definition state_run (state : Z) : Z :=
  if state >=? S_INIT then state else 0.

(** [node_info_init]: every record zeroed, then given its 1-based node id
    and the current time [t] as timestamp and as [ni_last_seen]. *)
Definition node_info_init (t : Z) (max : nat) : list node_info :=
  map (fun x =>
         mk_ni (mk_sb (Z.of_nat x + 1) 0 t 0 0 0 0 0 0) t 0 0 0 0 0
               (mk_msg 0 0 0) (mk_msg 0 0 0))
      (seq 0 max).

(** [check_self]: somebody else wrote our block. *)
Definition check_self (ctx : qd_ctx) (sb : status_block) : M unit :=
  if (ps_updatenode sb =? 0) || (ps_updatenode sb =? qc_my_id ctx) then
    ret tt
  else if ps_state sb =? S_EVICT then
    reboot                       (* case S_EVICT: reboot(RB_AUTOBOOT) *)
  else
    emit ESigStop.               (* default: log, raise(SIGSTOP) *)

(** One turn of the loop of [read_node_blocks] on record [n]; [rd] is what
    [qdisk_read] followed by [swab_status_block_t] delivered for this slot:
    [None] when the read failed (the buffer is then left as it was),
    [Some sb] when a whole block arrived in [ni[x].ni_status]. *)
Definition read_block (ctx : qd_ctx) (rd : option status_block)
    (n : node_info) : M node_info :=
  match rd with
  | None => ret n                                   (* log; continue *)
  | Some sb =>
    let n1 := mk_ni sb (ni_last_seen n) (ni_misses n) (ni_seen n)
                    (ni_incarnation n) (ni_evil_incarnation n)
                    (ni_state n) (ni_msg n) (ni_last_msg n) in
    if ps_nodeid sb =? qc_my_id ctx then
      check_self ctx sb ;;; ret n1
    else
      let msg := mk_msg (ps_msg sb) (ps_arg sb) (ps_seq sb) in
      let n2 := mk_ni sb (ni_last_seen n) (ni_misses n) (ni_seen n)
                      (ni_incarnation n) (ni_evil_incarnation n)
                      (ni_state n) msg (ni_msg n) in
      if negb (truthy (state_run (ps_state sb))) then
        ret n2
      else if ps_timestamp sb =? ni_last_seen n then
        (* Unchanged timestamp: miss *)
        ret (mk_ni sb (ni_last_seen n) (ni_misses n + 1) (ni_seen n)
                   (ni_incarnation n) (ni_evil_incarnation n)
                   (ni_state n) msg (ni_msg n))
      else
        (* Got through?  The node is good. *)
        ret (mk_ni sb (ps_timestamp sb) 0 (ni_seen n + 1)
                   (ni_incarnation n) (ni_evil_incarnation n)
                   (ni_state n) msg (ni_msg n))
  end.

(** The loop of [read_node_blocks] from index [x] on; the array [ni] is a
    list whose length is [max], and [disk x] is the outcome of reading the
    block of node id [x+1]. *)
Fixpoint read_node_blocks_from (ctx : qd_ctx)
    (disk : nat -> option status_block) (x : nat) (ni : list node_info)
    : M (list node_info) :=
  match ni with
  | [] => ret []
  | n :: rest =>
    n' <- read_block ctx (disk x) n ;;
    rest' <- read_node_blocks_from ctx disk (S x) rest ;;
    ret (n' :: rest')
  end.

Definition read_node_blocks (ctx : qd_ctx)
    (disk : nat -> option status_block) (ni : list node_info)
    : M (list node_info) :=
  read_node_blocks_from ctx disk 0 ni.

(** ** Peer tracker: transitions *)

(** The guards of the five cases of [check_transitions], in the order in
    which the loop body tries them. *)
Definition case_down (n : node_info) : bool :=
  ((ni_state n >=? S_EVICT) && (ps_state (ni_status n) <=? S_EVICT))
  || (truthy (ni_incarnation n)
      && negb (ni_incarnation n =? ps_incarnation (ni_status n))).

Definition case_evict (ctx : qd_ctx) (n : node_info) : bool :=
  (ni_misses n >? qc_tko ctx)
  && truthy (state_run (ps_state (ni_status n))).

Definition case_undead (n : node_info) : bool :=
  truthy (ni_evil_incarnation n)
  && (ni_evil_incarnation n =? ps_incarnation (ni_status n)).

Definition case_up (ctx : qd_ctx) (n : node_info) : bool :=
  (ni_seen n >? qc_tko_up ctx) && negb (truthy (state_run (ni_state n))).

Definition case_master (n : node_info) : bool :=
  (ni_state n =? S_RUN) && (ps_state (ni_status n) =? S_MASTER).

(** [if (mask) clear_bit(mask, ...)] and [if (mask) set_bit(mask, ...)]:
    the mask pointer is NULL during initialisation. *)
Definition mask_clear (mask : option Z) (bitidx : Z) : option Z :=
  option_map (fun m => clear_bit m bitidx) mask.
Definition mask_set (mask : option Z) (bitidx : Z) : option Z :=
  option_map (fun m => set_bit m bitidx) mask.

Definition set_ps_state (s : Z) (sb : status_block) : status_block :=
  mk_sb (ps_nodeid sb) (ps_updatenode sb) (ps_timestamp sb)
        (ps_incarnation sb) s (ps_msg sb) (ps_arg sb) (ps_seq sb)
        (ps_master_mask sb).

(** [cman_kill_node] when [RF_ALLOW_KILL] is set. *)
Definition kill_if_allowed (ctx : qd_ctx) (nid : Z) : list event :=
  if truthy (Z.land (qc_flags ctx) RF_ALLOW_KILL) then [EKillNode nid]
  else [].

(** [qd_write_status(ctx, nid, S_EVICT, NULL, NULL, NULL)]. *)
Definition evict_notice (nid : Z) : event :=
  EWriteStatus nid S_EVICT None None None.

(** The body of the loop of [check_transitions] on one record. *)
Definition transition (ctx : qd_ctx) (n : node_info) (mask : option Z)
    : list event * (node_info * option Z) :=
  let sb := ni_status n in
  let bit := ps_nodeid sb - 1 in
  if case_down n then
    (* Case 1: Evicted/Shutdown -> Offline *)
    let evil := if ps_state sb =? S_EVICT then ni_evil_incarnation n
                else 0 in
    ([], (mk_ni sb (ni_last_seen n) 0 0 0 evil S_NONE
                (ni_msg n) (ni_last_msg n),
          mask_clear mask bit))
  else if case_evict ctx n then
    (* Case 2: Online -> Evicted *)
    let evs := if qc_status ctx =? S_MASTER then
                 evict_notice (ps_nodeid sb)
                 :: kill_if_allowed ctx (ps_nodeid sb)
               else [] in
    let seen := if (ps_state sb >=? S_RUN) && truthy (ni_seen n) then 0
                else ni_seen n in
    (evs, (mk_ni (set_ps_state S_EVICT sb) (ni_last_seen n) (ni_misses n)
                 seen (ni_incarnation n) (ps_incarnation sb) S_EVICT
                 (ni_msg n) (ni_last_msg n),
           mask_clear mask bit))
  else if case_undead n then
    (* Case 3: Offline -> Undead *)
    (evict_notice (ps_nodeid sb) :: kill_if_allowed ctx (ps_nodeid sb),
     (mk_ni (set_ps_state S_EVICT sb) (ni_last_seen n) (ni_misses n)
            (ni_seen n) (ni_incarnation n) (ni_evil_incarnation n)
            (ni_state n) (ni_msg n) (ni_last_msg n),
      mask))
  else if case_up ctx n then
    (* Case 4: Offline -> Online *)
    ([], (mk_ni sb (ni_last_seen n) (ni_misses n) (ni_seen n)
                (ps_incarnation sb) (ni_evil_incarnation n) S_RUN
                (ni_msg n) (ni_last_msg n),
          mask_set mask bit))
  else if case_master n then
    (* Case 5: a node becoming master *)
    ([], (mk_ni sb (ni_last_seen n) (ni_misses n) (ni_seen n)
                (ni_incarnation n) (ni_evil_incarnation n) S_MASTER
                (ni_msg n) (ni_last_msg n),
          mask_set mask bit))
  else if truthy (state_run (ni_state n)) then
    (* All other cases: believe the node's reported state *)
    ([], (mk_ni sb (ni_last_seen n) (ni_misses n) (ni_seen n)
                (ni_incarnation n) (ni_evil_incarnation n) (ps_state sb)
                (ni_msg n) (ni_last_msg n),
          mask_set mask bit))
  else
    ([], (n, mask)).

Fixpoint check_transitions_from (ctx : qd_ctx) (ni : list node_info)
    (mask : option Z) : list event * (list node_info * option Z) :=
  match ni with
  | [] => ([], ([], mask))
  | n :: rest =>
    let '(evs, (n', mask1)) := transition ctx n mask in
    let '(evs', (rest', mask2)) := check_transitions_from ctx rest mask1 in
    (evs ++ evs', (n' :: rest', mask2))
  end.

(** [check_transitions]: the mask, when there is one, is zeroed first. *)
Definition check_transitions (ctx : qd_ctx) (ni : list node_info)
    (mask : option Z) : list event * (list node_info * option Z) :=
  check_transitions_from ctx ni (option_map (fun _ => 0) mask).

(** ** Election engine *)

(** The accumulators of [master_exists]: the return value, [*low_id] and
    the count of masters. *)
Fixpoint master_exists_from (ctx : qd_ctx) (ni : list node_info)
    (ret low_id masters : Z) : Z * Z * Z :=
  match ni with
  | [] => (ret, low_id, masters)
  | n :: rest =>
    let sb := ni_status n in
    if (ni_state n >=? S_RUN) && (ps_state sb =? S_MASTER)
       && negb (ps_nodeid sb =? qc_my_id ctx) then
      (* See if this one's a master *)
      master_exists_from ctx rest
        (if truthy ret then ret else ps_nodeid sb) low_id (masters + 1)
    else if (ps_nodeid sb =? qc_my_id ctx) && (ps_state sb =? S_MASTER) then
      (* See if it's us... *)
      master_exists_from ctx rest
        (if truthy ret then ret else qc_my_id ctx) low_id (masters + 1)
    else if (ni_state n <? S_RUN) && (ps_state sb =? S_MASTER) then
      (* Look for dead master *)
      master_exists_from ctx rest ret low_id masters
    else if ni_state n <? S_RUN then
      master_exists_from ctx rest ret low_id masters
    else
      master_exists_from ctx rest ret
        (if ps_nodeid sb <? low_id then ps_nodeid sb else low_id) masters
  end.

(** [master_exists]: (return value, low_id, count). *)
Definition master_exists (ctx : qd_ctx) (ni : list node_info) : Z * Z * Z :=
  master_exists_from ctx ni 0 (qc_my_id ctx) 0.

(** [do_vote]: acknowledge the first running bidder with a lower id. *)
Fixpoint do_vote (ctx : qd_ctx) (ni : list node_info) (msg : disk_msg)
    : disk_msg :=
  match ni with
  | [] => msg
  | n :: rest =>
    let sb := ni_status n in
    if negb (ni_state n =? S_RUN) then do_vote ctx rest msg
    else if (ps_msg sb =? M_BID) && (ps_nodeid sb <? qc_my_id ctx) then
      mk_msg M_ACK (ps_nodeid sb) (ps_seq sb)
    else do_vote ctx rest msg
  end.

(** The counters of [check_votes]. *)
Record votes : Type := mk_votes {
  v_running : Z;
  v_acks : Z;
  v_nacks : Z;
  v_low_id : Z;
  v_msg : disk_msg
}.

Definition acked (ctx : qd_ctx) (n : node_info) : bool :=
  (ps_msg (ni_status n) =? M_ACK)
  && (ps_arg (ni_status n) =? qc_my_id ctx).

Definition nacked (ctx : qd_ctx) (n : node_info) : bool :=
  (ps_msg (ni_status n) =? M_NACK)
  && (ps_arg (ni_status n) =? qc_my_id ctx).

Fixpoint count_votes (ctx : qd_ctx) (ni : list node_info) (v : votes)
    : votes :=
  match ni with
  | [] => v
  | n :: rest =>
    if truthy (state_run (ni_state n)) then
      let sb := ni_status n in
      let acks := if acked ctx n then v_acks v + 1 else v_acks v in
      let nacks := if nacked ctx n then v_nacks v + 1 else v_nacks v in
      if (ps_msg sb =? M_BID) && (ps_nodeid sb <? v_low_id v) then
        count_votes ctx rest
          (mk_votes (v_running v + 1) acks nacks (ps_nodeid sb)
                    (mk_msg M_ACK (ps_nodeid sb) (ps_seq sb)))
      else
        count_votes ctx rest
          (mk_votes (v_running v + 1) acks nacks (v_low_id v) (v_msg v))
    else
      count_votes ctx rest v
  end.

(** [check_votes]: the return code (3 all acks, 2 nacked, 1 a lower id is
    bidding, 0 still waiting) and the message slot as it leaves it. *)
Definition check_votes (ctx : qd_ctx) (ni : list node_info) (msg : disk_msg)
    : Z * disk_msg :=
  let v := count_votes ctx ni (mk_votes 0 0 0 (qc_my_id ctx) msg) in
  (if v_acks v =? v_running v then 3
   else if truthy (v_nacks v) then 2
   else if negb (v_low_id v =? qc_my_id ctx) then 1
   else 0,
   v_msg v).

(** [check_cman]: [nodes] is what [cman_get_nodes] returned ([None] when
    it failed), as pairs of [cn_nodeid] and [cn_member]; the master mask
    is zeroed before the list is walked. *)
Definition check_cman (nodes : option (list (Z * Z))) (mask master_mask : Z)
    : Z :=
  match nodes with
  | None => master_mask
  | Some l =>
    fold_left
      (fun mm (nd : Z * Z) =>
         if is_bit_set mask (fst nd - 1) && truthy (snd nd)
         then set_bit mm (fst nd - 1)
         else clear_bit mm (fst nd - 1))
      l 0
  end.

(** ** Timing *)

(** [_cmp_tv]: 1 when [left] is before [right], -1 when after, 0 when
    equal. *)
Definition _cmp_tv (left right : timeval) : Z :=
  if tv_sec left >? tv_sec right then -1
  else if tv_sec left <? tv_sec right then 1
  else if tv_usec left >? tv_usec right then -1
  else if tv_usec left <? tv_usec right then 1
  else 0.

(** Modelled from the spec: [_diff_tv] is only declared in main.c and its
    body is missing; section 4.6 has the cycle length as the difference
    "t1 - t0" of the two clock samples.  The result is [end - start], with
    the microseconds brought back into range by a borrow. *)
Definition _diff_tv (start end_ : timeval) : timeval :=
  let sec := tv_sec end_ - tv_sec start in
  let usec := tv_usec end_ - tv_usec start in
  if usec <? 0 then mk_tv (sec - 1) (usec + 1000000) else mk_tv sec usec.

(** The length of a [timeval] in microseconds. *)
Definition tv_usecs (t : timeval) : Z := tv_sec t * 1000000 + tv_usec t.

(** A [timeval] as the clock delivers it. *)
Definition tv_normal (t : timeval) : Prop := 0 <= tv_usec t < 1000000.

(** The sleep chosen at the end of a cycle of length [diff]. *)
Definition sleeptime_of (diff interval : timeval) : timeval :=
  if _cmp_tv diff interval =? 1 then _diff_tv diff interval
  else interval.

(** ** Quorum loop *)

(** The context and the locals of [quorum_loop] that live across cycles. *)
Record loop_state : Type := mk_ls {
  ls_ctx : qd_ctx;
  ls_ni : list node_info;
  ls_msg : disk_msg;
  ls_bid_pending : Z;
  ls_upgrade : Z;
  ls_mask : Z;
  ls_master_mask : Z
}.

(** What one cycle reads from outside: the two clock samples, the disk,
    the heuristic score, the answer of [cman_alive], the membership list,
    and the value of [_running] once the cycle is through. *)
Record cycle_in : Type := mk_in {
  in_oldtime : timeval;
  in_newtime : timeval;
  in_disk : nat -> option status_block;
  in_score : Z;
  in_score_max : Z;
  in_cman_alive : Z;
  in_cman_nodes : option (list (Z * Z));
  in_running : bool
}.

(** What a completed cycle wrote into the node's own block, the score it
    sampled, and the sleep it took. *)
Record cycle_out : Type := mk_out {
  co_state : Z;
  co_msg : disk_msg;
  co_mask : Z;
  co_master_mask : Z;
  co_score : Z;
  co_score_req : Z;
  co_score_max : Z;
  co_sleep : option timeval
}.

(** [score_req = ctx->qc_scoremin; if (score_req <= 0) score_req =
    (score_max/2 + 1);] with C's truncating division. *)
Definition score_req_of (ctx : qd_ctx) (score_max : Z) : Z :=
  if qc_scoremin ctx <=? 0 then Z.quot score_max 2 + 1
  else qc_scoremin ctx.

(** Lines 822-825: read everyone's status, check for transitions. *)
Definition observe (inp : cycle_in) (ls : loop_state) : M loop_state :=
  ni1 <- read_node_blocks (ls_ctx ls) (in_disk inp) (ls_ni ls) ;;
  let '(evs, (ni2, mask)) :=
    check_transitions (ls_ctx ls) ni1 (Some (ls_mask ls)) in
  (evs, Ok (mk_ls (ls_ctx ls) ni2 (ls_msg ls) (ls_bid_pending ls)
                  (ls_upgrade ls)
                  (match mask with Some m => m | None => ls_mask ls end)
                  (ls_master_mask ls))).

(** Lines 828-873: sample the score, count down the upgrade wait, and
    leave or enter the running state accordingly. *)
Definition score_gate (inp : cycle_in) (ls : loop_state) : M loop_state :=
  let ctx := ls_ctx ls in
  let msg := ls_msg ls in
  let upgrade := if ls_upgrade ls >? 0 then ls_upgrade ls - 1
                 else ls_upgrade ls in
  let score_req := score_req_of ctx (in_score_max inp) in
  if in_score inp <? score_req then
    let mask := clear_bit (ls_mask ls) (qc_my_id ctx - 1) in
    if qc_status ctx >? S_NONE then
      (if in_cman_alive inp <? 0 then ret tt
       else emit (EPollQuorumDevice 0)) ;;;
      (if truthy (Z.land (qc_flags ctx) RF_REBOOT) then reboot
       else ret tt) ;;;
      ret (mk_ls (set_qc_status S_NONE ctx) (ls_ni ls)
                 (mk_msg M_NONE (m_arg msg) (m_seq msg + 1))
                 0 upgrade mask (ls_master_mask ls))
    else
      ret (mk_ls ctx (ls_ni ls) msg (ls_bid_pending ls) upgrade mask
                 (ls_master_mask ls))
  else
    let mask := set_bit (ls_mask ls) (qc_my_id ctx - 1) in
    if qc_status ctx =? S_NONE then
      ret (mk_ls (set_qc_status S_RUN ctx) (ls_ni ls)
                 (mk_msg M_NONE (m_arg msg) (m_seq msg + 1))
                 0 (qc_upgrade_wait ctx) mask (ls_master_mask ls))
    else
      ret (mk_ls ctx (ls_ni ls) msg (ls_bid_pending ls) upgrade mask
                 (ls_master_mask ls)).

(** Line 876: [ctx->qc_master = master_exists(ctx, ni, max, &low_id,
    &count)]; gives the updated state, [low_id] and [count]. *)
Definition find_master (ls : loop_state) : loop_state * Z * Z :=
  let '(m, low_id, count) := master_exists (ls_ctx ls) (ls_ni ls) in
  (mk_ls (set_qc_master m (ls_ctx ls)) (ls_ni ls) (ls_msg ls)
         (ls_bid_pending ls) (ls_upgrade ls) (ls_mask ls)
         (ls_master_mask ls),
   low_id, count).

(** The guard of lines 879-880. *)
Definition master_conflict (count : Z) (ctx : qd_ctx) : bool :=
  (count >=? 1) && (qc_status ctx =? S_MASTER)
  && negb (qc_master ctx =? qc_my_id ctx).

(** Lines 878-889: resolve master conflict, if one exists. *)
Definition resolve_conflict (count : Z) (ls : loop_state) : loop_state :=
  let ctx := ls_ctx ls in
  if master_conflict count ctx then
    (* Handle just like a recent upgrade *)
    mk_ls (set_qc_status S_RUN ctx) (ls_ni ls)
          (mk_msg M_NONE (m_arg (ls_msg ls)) (m_seq (ls_msg ls) + 1))
          0 (qc_upgrade_wait ctx) (ls_mask ls) (ls_master_mask ls)
  else ls.

(** [ni[ctx->qc_master-1].ni_status.ps_master_mask]; the C code does not
    check the index, and an index outside the array is taken here as an
    empty mask. *)
Definition master_mask_of (ni : list node_info) (master : Z) : Z :=
  match nth_error ni (Z.to_nat (master - 1)) with
  | Some n => ps_master_mask (ni_status n)
  | None => 0
  end.

(** Lines 891-987: figure out what to do based on what we know. *)
Definition decide (inp : cycle_in) (low_id : Z) (ls : loop_state)
    : M loop_state :=
  let ctx := ls_ctx ls in
  let msg := ls_msg ls in
  let bid := ls_bid_pending ls in
  if negb (truthy (qc_master ctx)) && (low_id =? qc_my_id ctx)
     && (qc_status ctx =? S_RUN) && negb (truthy bid)
     && negb (truthy (ls_upgrade ls)) then
    (* Making bid for master *)
    ret (mk_ls ctx (ls_ni ls) (mk_msg M_BID (m_arg msg) (m_seq msg + 1))
               1 (ls_upgrade ls) (ls_mask ls) (ls_master_mask ls))
  else if negb (truthy (qc_master ctx)) && negb (truthy bid) then
    ret (mk_ls ctx (ls_ni ls) (do_vote ctx (ls_ni ls) msg)
               bid (ls_upgrade ls) (ls_mask ls) (ls_master_mask ls))
  else if negb (truthy (qc_master ctx)) && truthy bid then
    let bid1 := bid + 1 in
    let '(code, msg1) := check_votes ctx (ls_ni ls) msg in
    if code =? 3 then
      if bid1 <? qc_master_wait ctx then
        ret (mk_ls ctx (ls_ni ls) msg1 bid1 (ls_upgrade ls) (ls_mask ls)
                   (ls_master_mask ls))
      else
        (* Assuming master role; falls through cases 2 and 1 *)
        ret (mk_ls (set_qc_status S_MASTER ctx) (ls_ni ls)
                   (mk_msg M_NONE (m_arg msg1) (m_seq msg1))
                   0 (ls_upgrade ls) (ls_mask ls) (ls_master_mask ls))
    else if code =? 2 then
      ret (mk_ls ctx (ls_ni ls) (mk_msg M_NONE (m_arg msg1) (m_seq msg1))
                 0 (ls_upgrade ls) (ls_mask ls) (ls_master_mask ls))
    else if code =? 1 then
      ret (mk_ls ctx (ls_ni ls) msg1 0 (ls_upgrade ls) (ls_mask ls)
                 (ls_master_mask ls))
    else
      ret (mk_ls ctx (ls_ni ls) msg1 bid1 (ls_upgrade ls) (ls_mask ls)
                 (ls_master_mask ls))
  else if (qc_status ctx =? S_MASTER)
          && negb (qc_master ctx =? qc_my_id ctx) then
    (* A master exists, but it's not me?!  (logged; the reboot is
       commented out in the source) *)
    ret ls
  else if (qc_status ctx =? S_MASTER)
          && (qc_master ctx =? qc_my_id ctx) then
    if in_cman_alive inp <? 0 then halt
    else
      emit (EPollQuorumDevice 1) ;;;
      ret (mk_ls ctx (ls_ni ls) msg bid (ls_upgrade ls) (ls_mask ls)
                 (check_cman (in_cman_nodes inp) (ls_mask ls)
                             (ls_master_mask ls)))
  else if (qc_status ctx =? S_RUN) && truthy (qc_master ctx)
          && negb (qc_master ctx =? qc_my_id ctx) then
    if is_bit_set (master_mask_of (ls_ni ls) (qc_master ctx))
                  (qc_my_id ctx - 1) then
      if in_cman_alive inp <? 0 then halt
      else emit (EPollQuorumDevice 1) ;;; ret ls
    else ret ls
  else ret ls.

(** The guard of lines 1006-1007 and 1014: the cycle overran [maxtime],
    [paranoid] is set and [debug] is not.  [maxtime] is set up in line
    804 as [ctx->qc_interval * ctx->qc_tko] seconds, a product of two
    [int]s. *)
Definition overrun_reboot (ctx : qd_ctx) (diff : timeval) : bool :=
  (_cmp_tv (mk_tv (int_wrap (qc_interval ctx * qc_tko ctx)) 0) diff =? 1)
  && truthy (Z.land (qc_flags ctx) RF_PARANOID)
  && negb (truthy (Z.land (qc_flags ctx) RF_DEBUG)).

(** Lines 989-1036: write out our status and the local report, time the
    cycle, reboot on an overrun, sleep. *)
Definition finish (inp : cycle_in) (ls : loop_state) : M cycle_out :=
  let ctx := ls_ctx ls in
  let score_req := score_req_of ctx (in_score_max inp) in
  let diff := _diff_tv (in_oldtime inp) (in_newtime inp) in
  let sleeptime := sleeptime_of diff (mk_tv (qc_interval ctx) 0) in
  emit (EWriteStatus (qc_my_id ctx) (qc_status ctx) (Some (ls_msg ls))
                     (Some (ls_mask ls)) (Some (ls_master_mask ls))) ;;;
  emit (ELocalStatus (in_score inp) score_req (in_score_max inp)) ;;;
  (if overrun_reboot ctx diff then reboot else ret tt) ;;;
  (if in_running inp then emit (ESleep sleeptime) else ret tt) ;;;
  ret (mk_out (qc_status ctx) (ls_msg ls) (ls_mask ls) (ls_master_mask ls)
              (in_score inp) score_req (in_score_max inp)
              (if in_running inp then Some sleeptime else None)).

(** Lines 822-873 together. *)
Definition observe_and_gate (inp : cycle_in) (ls : loop_state)
    : M loop_state :=
  ls1 <- observe inp ls ;;
  score_gate inp ls1.

(** The state of the cycle when the decision table is entered: after the
    blocks were read, the transitions checked, the score gate applied and
    a master conflict resolved; with it, [low_id]. *)
Definition before_decide (inp : cycle_in) (ls : loop_state)
    : M (loop_state * Z) :=
  ls2 <- observe_and_gate inp ls ;;
  let '(ls3, low_id, count) := find_master ls2 in
  ret (resolve_conflict count ls3, low_id).

(** One turn of the [while (_running)] loop. *)
Definition cycle (inp : cycle_in) (ls : loop_state)
    : M (loop_state * cycle_out) :=
  pre <- before_decide inp ls ;;
  ls5 <- decide inp (snd pre) (fst pre) ;;
  out <- finish inp ls5 ;;
  ret (ls5, out).

(** The loop run on the inputs of successive cycles: the events, the
    completed cycles, and how the run stands afterwards ([Ok] when the
    loop was left through [_running == 0] or the inputs are used up). *)
Fixpoint quorum_cycles (ls : loop_state) (inputs : list cycle_in)
    : list event * list cycle_out * result loop_state :=
  match inputs with
  | [] => ([], [], Ok ls)
  | inp :: rest =>
    match cycle inp ls with
    | (evs, Ok (ls', out)) =>
      if in_running inp then
        let '(evs', outs, r) := quorum_cycles ls' rest in
        (evs ++ evs', out :: outs, r)
      else (evs, [out], Ok ls')
    | (evs, Rebooted) => (evs, [], Rebooted)
    | (evs, Halted) => (evs, [], Halted)
    end
  end.

(** The locals as [quorum_loop] sets them up; [mask] and [master_mask]
    start with whatever the stack holds. *)
Definition loop_init (ctx : qd_ctx) (ni : list node_info)
    (mask0 master_mask0 : Z) : loop_state :=
  mk_ls (set_qc_status S_NONE ctx) ni (mk_msg 0 0 0) 0 0 mask0 master_mask0.

Definition quorum_loop (ctx : qd_ctx) (ni : list node_info)
    (mask0 master_mask0 : Z) (inputs : list cycle_in)
    : list event * list cycle_out * result loop_state :=
  quorum_cycles (loop_init ctx ni mask0 master_mask0) inputs.

End Daemon.

(** ** Start-up: configuration and initialisation *)

(** Run flags that only the start-up code looks at; like the others they
    come from the missing [disk.h]. *)
Class disk_h_flags : Type := {
  RF_STOP_CMAN : Z; RF_UPTIME : Z; RF_CMAN_LABEL : Z
}.

(** Modelled from the spec: the header [disk.h] is missing; one distinct
    bit per flag, beside those of [disk_h_listed]. *)
Definition disk_h_flags_bits : disk_h_flags := {|
  RF_STOP_CMAN := 2; RF_UPTIME := 32; RF_CMAN_LABEL := 64
|}.

(** What [ccs_get] and [atoi] deliver for the keys of
    [/cluster/quorumd]: [None] when the key is absent, else the integer
    that [atoi] read.  [cv_cman_label] tells whether a label of non-zero
    length is configured.  Keys that only set fields outside [qd_ctx] as
    modelled here (votes, device, label, status file, scheduler, priority)
    are left out. *)
Record ccs_values : Type := mk_ccs {
  cv_interval : option Z;
  cv_tko : option Z;
  cv_tko_up : option Z;
  cv_upgrade_wait : option Z;
  cv_master_wait : option Z;
  cv_min_score : option Z;
  cv_reboot : option Z;
  cv_cman_label : option bool;
  cv_stop_cman : option Z;
  cv_paranoid : option Z;
  cv_allow_kill : option Z;
  cv_use_uptime : option Z
}.

Section Startup.
Context {DH : disk_h} {FH : disk_h_flags}.

(** [if (!atoi(val)) flags &= ~bit; else flags |= bit;] for a key that is
    present. *)
Definition switch_flag (v : option Z) (bit flags : Z) : Z :=
  match v with
  | None => flags
  | Some z => if truthy z then Z.lor flags bit
              else Z.land flags (Z.lnot bit)
  end.

(** [get_config_data], lines 1244-1452, on the fields of [qd_ctx]: the
    defaults, then every key that is present, each with its clamp; the
    sum [ctx->qc_tko_up + 1] of line 1303 is an [int].
    [connected] is false when the logging configuration or
    [ccs_connect] failed; the function then returns -1 and leaves the
    context alone.  [debug] is the value of that variable once the
    logging configuration has been read. *)
Definition get_config_data (ctx : qd_ctx) (debug : Z) (connected : bool)
    (cv : ccs_values) : Z * qd_ctx :=
  if negb connected then (-1, ctx)
  else
    let flags0 := Z.lor (Z.lor RF_REBOOT RF_ALLOW_KILL) RF_UPTIME in
    let flags1 := if truthy debug then Z.lor flags0 RF_DEBUG else flags0 in
    let interval :=
      match cv_interval cv with
      | Some v => if v <? 1 then 1 else v
      | None => 1
      end in
    let tko :=
      match cv_tko cv with
      | Some v => if v <? 3 then 3 else v
      | None => 10
      end in
    let tko_up0 :=
      match cv_tko_up cv with Some v => v | None => Z.quot tko 3 end in
    let tko_up := if tko_up0 <? 2 then 2 else tko_up0 in
    let upgrade_wait0 :=
      match cv_upgrade_wait cv with Some v => v | None => 2 end in
    let upgrade_wait := if upgrade_wait0 <? 1 then 1 else upgrade_wait0 in
    let master_wait0 :=
      match cv_master_wait cv with Some v => v | None => Z.quot tko 2 end in
    let master_wait :=
      if master_wait0 <=? tko_up then int_wrap (tko_up + 1)
      else master_wait0 in
    let scoremin :=
      match cv_min_score cv with
      | Some v => if v <? 0 then 0 else v
      | None => 0
      end in
    let flags2 :=
      match cv_reboot cv with
      | Some v => if truthy v then flags1
                  else Z.land flags1 (Z.lnot RF_REBOOT)
      | None => flags1
      end in
    let flags3 :=
      match cv_cman_label cv with
      | Some true => Z.lor flags2 RF_CMAN_LABEL
      | _ => flags2
      end in
    let flags4 := switch_flag (cv_stop_cman cv) RF_STOP_CMAN flags3 in
    let flags5 := switch_flag (cv_paranoid cv) RF_PARANOID flags4 in
    let flags6 := switch_flag (cv_allow_kill cv) RF_ALLOW_KILL flags5 in
    let flags7 := switch_flag (cv_use_uptime cv) RF_UPTIME flags6 in
    (0, mk_ctx (qc_my_id ctx) (qc_status ctx) (qc_master ctx) interval tko
               tko_up upgrade_wait master_wait scoremin flags7).

(** What one round of the loop of [quorum_init] reads from outside: the
    value of [_running] at the head of the round, the disk, the return
    value of [qd_write_status], and the score. *)
Record init_in : Type := mk_init_in {
  ii_running : bool;
  ii_disk : nat -> option status_block;
  ii_write : Z;
  ii_score : Z;
  ii_score_max : Z
}.

(** The loop [while (++x <= ctx->qc_tko && _running)] of [quorum_init],
    with [left] rounds still allowed and [x] rounds done; gives the
    return code (-1 when a write failed, else 0) and the array.
    [sleep(ctx->qc_interval)] is recorded as a sleep of that many whole
    seconds. *)
Fixpoint init_rounds (ctx : qd_ctx) (inputs : nat -> init_in)
    (left x : nat) (ni : list node_info) : M (Z * list node_info) :=
  match left with
  | O => ret (0, ni)
  | S left' =>
    let inp := inputs x in
    if negb (ii_running inp) then ret (0, ni)
    else
      ni1 <- read_node_blocks ctx (ii_disk inp) ni ;;
      let '(evs, (ni2, _)) := check_transitions ctx ni1 None in
      (evs, Ok tt) ;;;
      emit (EWriteStatus (qc_my_id ctx) S_INIT None None None) ;;;
      if negb (ii_write inp =? 0) then ret (-1, ni2)
      else
        emit (ELocalStatus (ii_score inp)
                (score_req_of ctx (ii_score_max inp))
                (ii_score_max inp)) ;;;
        emit (ESleep (mk_tv (qc_interval ctx) 0)) ;;;
        init_rounds ctx inputs left' (S x) ni2
  end.

(** [quorum_init]: [validate], [opened] and [first_write] are the return
    values of [qdisk_validate], [qdisk_open] and of the first
    [qd_write_status]; [t] is the time [node_info_init] reads; [ni0] is
    what the array holds before.  Starting the score thread leaves no
    trace here. *)
Definition quorum_init (ctx : qd_ctx) (validate opened first_write t : Z)
    (max : nat) (inputs : nat -> init_in) (ni0 : list node_info)
    : M (Z * qd_ctx * list node_info) :=
  if validate <? 0 then ret (-1, ctx, ni0)
  else if opened <? 0 then ret (-1, ctx, ni0)
  else
    let ni := node_info_init t max in
    let ctx1 := set_qc_status S_INIT ctx in
    emit (EWriteStatus (qc_my_id ctx1) S_INIT None None None) ;;;
    if negb (first_write =? 0) then ret (-1, ctx1, ni)
    else
      r <- init_rounds ctx1 inputs (Z.to_nat (qc_tko ctx1)) 0 ni ;;
      ret (fst r, ctx1, snd r).

End Startup.

(** ** Sample configurations and inputs

    Used to exercise the theorems below on concrete runs. *)

Section Samples.
Context {DH : disk_h}.

(** interval 1 s, tko 3, tko_up 2, upgrade_wait 2, master_wait 3, no
    minimum score, reboot and fencing allowed. *)
Definition ex_ctx (my_id status : Z) : qd_ctx :=
  mk_ctx my_id status 0 1 3 2 2 3 0 (Z.lor RF_REBOOT RF_ALLOW_KILL).

(** A block of node [nid], last written by [upd]. *)
Definition ex_block (nid upd ts inc state : Z) : status_block :=
  mk_sb nid upd ts inc state M_NONE 0 0 0.

(** The record of node 2 as [node_info_init 100 2] leaves it. *)
Definition ex_peer2 : node_info :=
  mk_ni (mk_sb 2 0 100 0 0 0 0 0 0) 100 0 0 0 0 0
        (mk_msg 0 0 0) (mk_msg 0 0 0).

(** Node 1 reads its own block; the read of node 2's block fails. *)
Definition ex_disk_peer_fails (x : nat) : option status_block :=
  match x with
  | O => Some (ex_block 1 1 100 9 S_NONE)
  | _ => None
  end.

(** The array after node 1 ran [read_node_blocks] on that disk, starting
    from [node_info_init 100 2]. *)
Definition ex_after_failed_read : list node_info :=
  [ mk_ni (ex_block 1 1 100 9 S_NONE) 100 0 0 0 0 0
          (mk_msg 0 0 0) (mk_msg 0 0 0);
    ex_peer2 ].

(** Node 1 finds its own block overwritten by node 2 with EVICT. *)
Definition ex_disk_evicted (x : nat) : option status_block :=
  match x with
  | O => Some (ex_block 1 2 100 9 S_EVICT)
  | _ => None
  end.

(** Node 2 was evicted under incarnation 5 and has restarted: its block
    now carries incarnation 6 and state INIT. *)
Definition ex_peer_restarted : node_info :=
  mk_ni (ex_block 2 2 200 6 S_INIT) 150 0 0 5 5 S_EVICT
        (mk_msg 0 0 0) (mk_msg 0 0 0).

(** Node 2 was evicted under incarnation 7, is tracked as offline, and
    writes again under incarnation 7. *)
Definition ex_peer_undead : node_info :=
  mk_ni (ex_block 2 2 200 7 S_RUN) 200 0 1 0 7 S_NONE
        (mk_msg 0 0 0) (mk_msg 0 0 0).

(** Node 2 is tracked as running and has missed four updates. *)
Definition ex_peer_missed : node_info :=
  mk_ni (ex_block 2 2 103 7 S_RUN) 103 4 5 7 0 S_RUN
        (mk_msg 0 0 0) (mk_msg 0 0 0).

(** A cycle of node 1 that lasts half a second: its own block reads back
    in state NONE, node 2's block carries timestamp [ts], incarnation 7
    and state [st]; the score is 0 out of 1. *)
Definition ex_in (ts st : Z) : cycle_in :=
  mk_in (mk_tv 10 0) (mk_tv 10 500000)
        (fun x => match x with
                  | O => Some (ex_block 1 1 ts 9 S_NONE)
                  | S O => Some (ex_block 2 2 ts 7 st)
                  | _ => None
                  end)
        0 1 0 None true.

(** Node 2 comes up (three fresh timestamps), stalls for four cycles,
    then writes state NONE once and resumes in state RUN, all under
    incarnation 7. *)
Definition ex_trace : list cycle_in :=
  [ ex_in 101 S_RUN; ex_in 102 S_RUN; ex_in 103 S_RUN;
    ex_in 103 S_RUN; ex_in 103 S_RUN; ex_in 103 S_RUN; ex_in 103 S_RUN;
    ex_in 104 S_NONE;
    ex_in 105 S_RUN; ex_in 106 S_RUN; ex_in 107 S_RUN ].

(** Node 2's record after node 1 ran the first [k] cycles of
    [ex_trace]. *)
Definition ex_peer_after (k : nat) : option node_info :=
  match quorum_loop (ex_ctx 1 S_NONE) (node_info_init 100 2) 0 0
                    (firstn k ex_trace) with
  | (_, _, Ok ls) => nth_error (ls_ni ls) 1
  | _ => None
  end.

(** The same half-second cycle, but lasting two seconds. *)
Definition ex_in_slow : cycle_in :=
  mk_in (mk_tv 10 0) (mk_tv 12 0) (in_disk (ex_in 101 S_RUN))
        0 1 0 None true.

(** Node 2 believes it is master and has a full score; node 1, tracked
    as running, publishes MASTER as well. *)
Definition ex_in_conflict : cycle_in :=
  mk_in (mk_tv 10 0) (mk_tv 10 500000)
        (fun x => match x with
                  | O => Some (ex_block 1 1 201 7 S_MASTER)
                  | S O => Some (ex_block 2 2 201 9 S_MASTER)
                  | _ => None
                  end)
        1 1 0 None true.

Definition ex_ls_master : loop_state :=
  mk_ls (ex_ctx 2 S_MASTER)
        [ mk_ni (ex_block 1 1 200 7 S_RUN) 200 0 5 7 0 S_RUN
                (mk_msg 0 0 0) (mk_msg 0 0 0);
          mk_ni (ex_block 2 2 200 9 S_MASTER) 100 0 0 0 0 S_NONE
                (mk_msg 0 0 0) (mk_msg 0 0 0) ]
        (mk_msg M_NONE 0 4) 0 0 3 3.

(** Node 1 has had a bid pending for two cycles; node 2, tracked as
    running, acknowledges it. *)
Definition ex_in_acked : cycle_in :=
  mk_in (mk_tv 10 0) (mk_tv 10 500000)
        (fun x => match x with
                  | O => Some (mk_sb 1 1 201 9 S_RUN M_BID 0 1 0)
                  | S O => Some (mk_sb 2 2 201 7 S_RUN M_ACK 1 1 0)
                  | _ => None
                  end)
        1 1 0 None true.

Definition ex_ls_bidding : loop_state :=
  mk_ls (ex_ctx 1 S_RUN)
        [ mk_ni (mk_sb 1 1 200 9 S_RUN M_BID 0 1 0) 100 0 0 0 0 S_NONE
                (mk_msg 0 0 0) (mk_msg 0 0 0);
          mk_ni (mk_sb 2 2 200 7 S_RUN M_ACK 1 1 0) 200 0 5 7 0 S_RUN
                (mk_msg M_ACK 1 1) (mk_msg 0 0 0) ]
        (mk_msg M_BID 0 1) 2 0 3 0.

(** Node 2, tracked as running under incarnation 7 and last seen with
    timestamp 103. *)
Definition ex_peer_up : node_info :=
  mk_ni (ex_block 2 2 103 7 S_RUN) 103 0 3 7 0 S_RUN
        (mk_msg 0 0 0) (mk_msg 0 0 0).

(** The array of node 1 with node 2 up. *)
Definition ex_ni_up : list node_info :=
  [ mk_ni (mk_sb 1 0 100 0 0 0 0 0 0) 100 0 0 0 0 0
          (mk_msg 0 0 0) (mk_msg 0 0 0);
    ex_peer_up ].

(** Four cycles in which node 2's block does not change. *)
Definition ex_stall : list cycle_in := repeat (ex_in 103 S_RUN) 4.

(** A cycle of node 1 in which it finds its own block overwritten by
    node 2 with EVICT. *)
Definition ex_in_evicted : cycle_in :=
  mk_in (mk_tv 10 0) (mk_tv 10 500000) ex_disk_evicted 0 1 0 None true.

(** A cycle of node 1 with a full score; node 2 is down. *)
Definition ex_in_ok (ts : Z) : cycle_in :=
  mk_in (mk_tv 10 0) (mk_tv 10 500000)
        (fun x => match x with
                  | O => Some (ex_block 1 1 ts 9 S_NONE)
                  | S O => Some (ex_block 2 2 ts 7 S_NONE)
                  | _ => None
                  end)
        1 1 0 None true.

(** Node 1, alone, starts without a score, then has a full score for
    five cycles: it is promoted, sits out its upgrade wait, bids, waits
    and takes the master role. *)
Definition ex_trace_bid : list cycle_in :=
  [ ex_in 101 S_NONE; ex_in_ok 102; ex_in_ok 103; ex_in_ok 104;
    ex_in_ok 105; ex_in_ok 106 ].

(** A round of the initialisation of node 1: the daemon keeps running,
    node 2 is down, the write goes through, the score is 1 out of 1. *)
Definition ex_init_in : init_in :=
  mk_init_in true (in_disk (ex_in_ok 100)) 0 1 1.

(** The configuration of [ex_ctx] for node 1 out of the loop, with
    [paranoid] as its only flag: no reboot on a low score, a reboot on a
    cycle of more than three seconds. *)
Definition ex_ctx_paranoid : qd_ctx :=
  mk_ctx 1 S_NONE 0 1 3 2 2 3 0 RF_PARANOID.

(** A cycle of node 1 without a score that lasts five seconds. *)
Definition ex_in_low_slow : cycle_in :=
  mk_in (mk_tv 10 0) (mk_tv 15 0) (in_disk (ex_in_ok 103))
        0 1 0 None true.

(** Node 1 is promoted on a full score, then loses its score in a cycle
    that overruns: it writes its block and is rebooted before the cycle
    is through. *)
Definition ex_trace_cut : list cycle_in := [ ex_in_ok 102; ex_in_low_slow ].

(** Node [nid], tracked as running under incarnation 7, bids with
    sequence number [seq]. *)
Definition ex_bidder (nid seq : Z) : node_info :=
  mk_ni (mk_sb nid nid 200 7 S_RUN M_BID 0 seq 0) 200 0 5 7 0 S_RUN
        (mk_msg M_BID 0 seq) (mk_msg 0 0 0).

(** The array of node 3 while nodes 1 and 2 bid. *)
Definition ex_ni_bidders : list node_info :=
  [ ex_bidder 1 4; ex_bidder 2 6;
    mk_ni (mk_sb 3 0 100 0 0 0 0 0 0) 100 0 0 0 0 0
          (mk_msg 0 0 0) (mk_msg 0 0 0) ].

(** The two bidders, out of the order of their ids. *)
Definition ex_ni_bidders_rev : list node_info :=
  [ ex_bidder 2 6; ex_bidder 1 4 ].

Context {FH : disk_h_flags}.

(** A configuration with an interval of 0, a [tko] of 1, a master wait of
    1 and a negative minimum score, all of which are out of range; the
    reboot on a low score is switched off, [paranoid] is switched on, and
    a label is configured. *)
Definition ex_cv : ccs_values :=
  mk_ccs (Some 0) (Some 1) None None (Some 1) (Some (-5)) (Some 0)
         (Some true) None (Some 1) None None.

(** What [get_config_data] makes of it. *)
Definition ex_cfg : qd_ctx :=
  snd (get_config_data (ex_ctx 1 S_NONE) 0 true ex_cv).

(** The initialisation of node 1 under this configuration, with two
    slots on the disk. *)
Definition ex_init : M (Z * qd_ctx * list node_info) :=
  quorum_init ex_cfg 0 0 0 100 2 (fun _ => ex_init_in) [].

Definition ex_init_ctx : qd_ctx :=
  match snd ex_init with
  | Ok (_, c, _) => c
  | _ => ex_cfg
  end.

Definition ex_init_ni : list node_info :=
  match snd ex_init with
  | Ok (_, _, ni) => ni
  | _ => []
  end.

End Samples.

(** ** Vocabulary of the statements *)

Section Vocabulary.
Context {DH : disk_h}.

(** Two contexts that differ at most in [qc_status] and [qc_master]. *)
Definition same_config (c c' : qd_ctx) : Prop :=
  qc_my_id c' = qc_my_id c
  /\ qc_interval c' = qc_interval c
  /\ qc_tko c' = qc_tko c
  /\ qc_tko_up c' = qc_tko_up c
  /\ qc_upgrade_wait c' = qc_upgrade_wait c
  /\ qc_master_wait c' = qc_master_wait c
  /\ qc_scoremin c' = qc_scoremin c
  /\ qc_flags c' = qc_flags c.

(** What holds of the loop's locals at the head of every cycle: the local
    state is NONE, RUN or MASTER, and a bid is pending only in state RUN. *)
Definition loop_inv (ls : loop_state) : Prop :=
  (qc_status (ls_ctx ls) = S_NONE
   \/ qc_status (ls_ctx ls) = S_RUN
   \/ qc_status (ls_ctx ls) = S_MASTER)
  /\ 0 <= ls_bid_pending ls
  /\ (ls_bid_pending ls <> 0 -> qc_status (ls_ctx ls) = S_RUN).

(** A record counts as tracked-alive when [state_run] accepts its tracked
    state. *)
Definition tracked_alive (n : node_info) : bool :=
  truthy (state_run (ni_state n)).

(** Every tracked-alive peer has published ACK with this node's id. *)
Definition all_acked (ctx : qd_ctx) (ni : list node_info) : Prop :=
  Forall (fun n => tracked_alive n = true -> acked ctx n = true) ni.

(** What [read_node_blocks] leaves in a record when it goes on. *)
Definition read_result (ctx : qd_ctx) (rd : option status_block)
    (n : node_info) : node_info :=
  match snd (read_block ctx rd n) with
  | Ok n' => n'
  | _ => n
  end.

(** A record after one cycle: read, then checked for a transition. *)
Definition track (ctx : qd_ctx) (rd : option status_block)
    (n : node_info) : node_info :=
  fst (snd (transition ctx (read_result ctx rd n) None)).

(** A record after as many cycles as there are reads in [rds]. *)
Fixpoint track_many (ctx : qd_ctx) (rds : list (option status_block))
    (n : node_info) : node_info :=
  match rds with
  | [] => n
  | rd :: rest => track_many ctx rest (track ctx rd n)
  end.

(** A record is runnable in the eyes of [state_run]. *)
Definition runnable (state : Z) : bool := truthy (state_run state).

(** The record [n] of a peer whose block [sb] has stopped changing, [k]
    cycles after the record was last free of doubt: up to [tko] misses
    the peer is still tracked as running, beyond that it is EVICT. *)
Definition stalled (ctx : qd_ctx) (sb : status_block) (k : Z)
    (n : node_info) : Prop :=
  ni_last_seen n = ps_timestamp sb
  /\ (ni_incarnation n = 0 \/ ni_incarnation n = ps_incarnation sb)
  /\ ni_misses n = k
  /\ (k <= qc_tko ctx ->
      runnable (ni_state n) = true
      /\ (ni_evil_incarnation n = 0
          \/ ni_evil_incarnation n <> ps_incarnation sb))
  /\ (qc_tko ctx < k ->
      ni_state n = S_EVICT
      /\ ni_evil_incarnation n = ps_incarnation sb).

(** Successive blocks whose timestamps each differ from the one seen
    before, starting from [last]. *)
Fixpoint fresh_from (last : Z) (bs : list status_block) : Prop :=
  match bs with
  | [] => True
  | b :: rest => ps_timestamp b <> last /\ fresh_from (ps_timestamp b) rest
  end.

(** A record tracked as offline that has seen [s] fresh timestamps and
    holds no grudge against incarnation [inc]. *)
Definition offline (inc s : Z) (n : node_info) : Prop :=
  ni_state n = S_NONE
  /\ ni_incarnation n = 0
  /\ ni_misses n = 0
  /\ ni_seen n = s
  /\ (ni_evil_incarnation n = 0 \/ ni_evil_incarnation n <> inc).

(** A record on which the tracker has nothing. *)
Definition blank (n : node_info) : Prop :=
  ni_state n = S_NONE
  /\ ni_incarnation n = 0
  /\ ni_evil_incarnation n = 0
  /\ ni_misses n = 0
  /\ ni_seen n = 0.

(** The record enters the outgoing mask: none of the first three cases
    of [check_transitions] applies, and the peer comes up, is promoted to
    master, or is tracked as running. *)
Definition joins (ctx : qd_ctx) (n : node_info) : bool :=
  negb (case_down n) && negb (case_evict ctx n) && negb (case_undead n)
  && (case_up ctx n || case_master n || runnable (ni_state n)).

(** The node id a record's block carries. *)
Definition nodeid (n : node_info) : Z := ps_nodeid (ni_status n).

(** A record that [master_exists] counts as a master: its block says
    MASTER and the peer is tracked as running, or the block is the
    node's own. *)
Definition reports_master (ctx : qd_ctx) (n : node_info) : bool :=
  (ps_state (ni_status n) =? S_MASTER)
  && ((ni_state n >=? S_RUN) || (nodeid n =? qc_my_id ctx)).

(** A record that [master_exists] lets compete for [low_id]: tracked as
    running, block not saying MASTER. *)
Definition bid_candidate (n : node_info) : bool :=
  (ni_state n >=? S_RUN) && negb (ps_state (ni_status n) =? S_MASTER).

(** The id of the first record, in array order, that counts as a master
    and carries a non-zero id; 0 when there is none. *)
Definition first_master (ctx : qd_ctx) (ni : list node_info) : Z :=
  match find (fun n => reports_master ctx n && truthy (nodeid n)) ni with
  | Some n => nodeid n
  | None => 0
  end.

(** A record [do_vote] would vote for: tracked as RUN, bidding, with an
    id below the node's own. *)
Definition bids_below (ctx : qd_ctx) (n : node_info) : bool :=
  (ni_state n =? S_RUN) && (ps_msg (ni_status n) =? M_BID)
  && (nodeid n <? qc_my_id ctx).

(** A tracked-alive record whose block carries a bid. *)
Definition alive_bidder (n : node_info) : bool :=
  tracked_alive n && (ps_msg (ni_status n) =? M_BID).

(** The block [sb], read as the node's own, carries an eviction written
    by somebody else. *)
Definition evicts_self (ctx : qd_ctx) (sb : status_block) : Prop :=
  ps_nodeid sb = qc_my_id ctx
  /\ ps_updatenode sb <> 0
  /\ ps_updatenode sb <> qc_my_id ctx
  /\ ps_state sb = S_EVICT.

(** What holds of the message slot at the head of every cycle, beyond
    [loop_inv]: a BID is on display only while a bid is pending. *)
Definition bid_inv (ls : loop_state) : Prop :=
  loop_inv ls
  /\ (m_msg (ls_msg ls) = M_BID -> ls_bid_pending ls <> 0).

(** The node is at least [k] cycles away from bidding: it shows no BID,
    has none pending, and is either in state NONE, with the whole
    upgrade wait still to come, or has more than [k] cycles of its
    upgrade wait left. *)
Definition quiet (k : Z) (ls : loop_state) : Prop :=
  m_msg (ls_msg ls) <> M_BID
  /\ ls_bid_pending ls = 0
  /\ k <= qc_upgrade_wait (ls_ctx ls)
  /\ (qc_status (ls_ctx ls) = S_NONE \/ k + 1 <= ls_upgrade ls).

(** A pending bid is on display: while the bid counter runs, the message
    slot holds BID. *)
Definition bid_shown (ls : loop_state) : Prop :=
  ls_bid_pending ls <> 0 -> m_msg (ls_msg ls) = M_BID.

(** At the head of a cycle the node is more than [k] cycles away from the
    master role: it is not master, and either its bid has more than [k]
    cycles of the master wait to go, or it has no bid pending and, to get
    one, must first sit out what is left of its upgrade wait (all of it
    when it is in state NONE). *)
Definition away (k : Z) (ls : loop_state) : Prop :=
  qc_status (ls_ctx ls) <> S_MASTER
  /\ (ls_bid_pending ls <> 0 ->
      k + ls_bid_pending ls + 1 <= qc_master_wait (ls_ctx ls))
  /\ (ls_bid_pending ls = 0 ->
      k + 1 <= qc_master_wait (ls_ctx ls)
      \/ (qc_status (ls_ctx ls) = S_NONE
          /\ k + 1 <= qc_master_wait (ls_ctx ls)
                      + qc_upgrade_wait (ls_ctx ls))
      \/ (k + 2 <= qc_master_wait (ls_ctx ls) + ls_upgrade ls
          /\ ls_upgrade ls <= qc_upgrade_wait (ls_ctx ls))).

(** The same when the decision table is entered, the upgrade wait of this
    cycle already counted down. *)
Definition poised (k : Z) (ls : loop_state) : Prop :=
  qc_status (ls_ctx ls) <> S_MASTER
  /\ (ls_bid_pending ls <> 0 ->
      k + ls_bid_pending ls + 2 <= qc_master_wait (ls_ctx ls))
  /\ (ls_bid_pending ls = 0 ->
      k + 2 <= qc_master_wait (ls_ctx ls)
      \/ (qc_status (ls_ctx ls) = S_NONE
          /\ k + 1 <= qc_master_wait (ls_ctx ls)
                      + qc_upgrade_wait (ls_ctx ls))
      \/ (ls_upgrade ls <> 0
          /\ k + 2 <= qc_master_wait (ls_ctx ls) + ls_upgrade ls
          /\ ls_upgrade ls <= qc_upgrade_wait (ls_ctx ls))).

(** What [quorum_init] may ask of the outside world: a write of the
    node's own block with state INIT, a local status report, a sleep of
    one interval, and the SIGSTOP that [check_self] raises. *)
Definition init_event (ctx : qd_ctx) (e : event) : Prop :=
  e = EWriteStatus (qc_my_id ctx) S_INIT None None None
  \/ (exists score score_req score_max,
        e = ELocalStatus score score_req score_max)
  \/ e = ESleep (mk_tv (qc_interval ctx) 0)
  \/ e = ESigStop.

(** A record [j] rounds into the initialisation: at most [j] misses and
    no evil incarnation. *)
Definition init_rec (j : Z) (n : node_info) : Prop :=
  ni_misses n <= j /\ ni_evil_incarnation n = 0.

(** A cycle of the main loop up to the write of the node's own block:
    lines 822-987. *)
Definition to_write (inp : cycle_in) (ls : loop_state) : M loop_state :=
  pre <- before_decide inp ls ;; decide inp (snd pre) (fst pre).

(** The write of line 990 and the report of line 997, as a cycle with
    input [inp] that got as far as [ls] issues them. *)
Definition write_of (ls : loop_state) : event :=
  EWriteStatus (qc_my_id (ls_ctx ls)) (qc_status (ls_ctx ls))
               (Some (ls_msg ls)) (Some (ls_mask ls))
               (Some (ls_master_mask ls)).

Definition report_of (inp : cycle_in) (ls : loop_state) : event :=
  ELocalStatus (in_score inp) (score_req_of (ls_ctx ls) (in_score_max inp))
               (in_score_max inp).

(** The state and the message of a status write that carries a message.
    The daemon passes a message to [qd_write_status] in one place only,
    the write of its own block at the end of a cycle (line 990); the
    eviction notices and the writes of the initialisation pass none. *)
Definition own_write (e : event) : option (Z * disk_msg) :=
  match e with
  | EWriteStatus _ st (Some msg) _ _ => Some (st, msg)
  | _ => None
  end.

(** The writes of a trace that carry a message, oldest first. *)
Fixpoint own_writes (evs : list event) : list (Z * disk_msg) :=
  match evs with
  | [] => []
  | e :: rest =>
    match own_write e with
    | Some w => w :: own_writes rest
    | None => own_writes rest
    end
  end.

(** [states] are the states in which successive cycles, started in [ls]
    and fed with [inputs], reached the write of the node's own block. *)
Fixpoint reached (ls : loop_state) (inputs : list cycle_in)
    (states : list loop_state) {struct states} : Prop :=
  match states, inputs with
  | [], _ => True
  | s :: ss, inp :: rest =>
    (exists l, to_write inp ls = (l, Ok s)) /\ reached s rest ss
  | _ :: _, [] => False
  end.

(** The integer keys of the configuration hold [int]s, which is what
    [atoi] delivers. *)
Definition int_range (z : Z) : Prop := INT_MIN <= z <= INT_MAX.

Definition key_int (v : option Z) : Prop :=
  match v with
  | Some z => int_range z
  | None => True
  end.

Definition cv_ints (cv : ccs_values) : Prop :=
  key_int (cv_interval cv) /\ key_int (cv_tko cv)
  /\ key_int (cv_tko_up cv) /\ key_int (cv_upgrade_wait cv)
  /\ key_int (cv_master_wait cv) /\ key_int (cv_min_score cv).

Context {FH : disk_h_flags}.

(** The run flags, and what it takes for them not to overlap: no two of
    them share a bit. *)
Definition run_flags : list Z :=
  [RF_REBOOT; RF_DEBUG; RF_PARANOID; RF_ALLOW_KILL; RF_STOP_CMAN;
   RF_UPTIME; RF_CMAN_LABEL].

Definition flags_disjoint : Prop :=
  ForallOrdPairs (fun a b => Z.land a b = 0) run_flags.

(** How a key of the configuration that switches a flag reads: absent, it
    leaves the default; present, it is on unless [atoi] gave 0. *)
Definition key_on (default : bool) (v : option Z) : bool :=
  match v with
  | Some z => truthy z
  | None => default
  end.

End Vocabulary.

(** * Properties *)

Section Properties.
Context {DH : disk_h}.

(** ** Proof helpers *)

Ltac break_if_in Hyp :=
  match type of Hyp with
  | context [if ?b then _ else _] => destruct b eqn:?
  end.

Ltac zbool :=
  repeat match goal with
         | E : (_ && _) = true |- _ => apply andb_prop in E; destruct E
         | E : negb _ = true |- _ => apply negb_true_iff in E
         | E : negb _ = false |- _ => apply negb_false_iff in E
         | E : truthy _ = true |- _ =>
             unfold truthy in E; apply negb_true_iff in E
         | E : truthy _ = false |- _ =>
             unfold truthy in E; apply negb_false_iff in E
         | E : (_ =? _) = true |- _ => apply Z.eqb_eq in E
         | E : (_ =? _) = false |- _ => apply Z.eqb_neq in E
         | E : (_ <? _) = true |- _ => apply Z.ltb_lt in E
         | E : (_ <? _) = false |- _ => apply Z.ltb_ge in E
         | E : (_ >? _) = _ |- _ => rewrite Z.gtb_ltb in E
         | E : (_ >=? _) = _ |- _ => rewrite Z.geb_leb in E
         | E : (_ <=? _) = true |- _ => apply Z.leb_le in E
         | E : (_ <=? _) = false |- _ => apply Z.leb_gt in E
         end.

(** ** The event/result monad *)

Lemma bind_ok {A B} (m : M A) (f : A -> M B) l a :
  m = (l, Ok a) -> bind m f = (l ++ fst (f a), snd (f a)).
Proof. intros ->. unfold bind. destruct (f a); reflexivity. Qed.

Lemma bind_ok_inv {A B} (m : M A) (f : A -> M B) evs b :
  bind m f = (evs, Ok b) ->
  exists l a l', m = (l, Ok a) /\ f a = (l', Ok b) /\ evs = l ++ l'.
Proof.
  unfold bind. destruct m as [l [a| |]]; try discriminate.
  destruct (f a) as [l' r] eqn:E. intros [= <- ->].
  exists l, a, l'. auto.
Qed.

Lemma snd_bind {A B} (m : M A) (f : A -> M B) :
  snd (bind m f) =
  match snd m with
  | Ok a => snd (f a)
  | Rebooted => Rebooted
  | Halted => Halted
  end.
Proof.
  unfold bind. destruct m as [l [a| |]]; simpl; try reflexivity.
  destruct (f a); reflexivity.
Qed.

Lemma fst_bind {A B} (m : M A) (f : A -> M B) :
  fst (bind m f) =
  fst m ++ match snd m with
           | Ok a => fst (f a)
           | _ => []
           end.
Proof.
  unfold bind. destruct m as [l [a| |]]; simpl;
    try (rewrite app_nil_r; reflexivity).
  destruct (f a); reflexivity.
Qed.

Lemma bind_assoc {A B C} (m : M A) (f : A -> M B) (g : B -> M C) :
  bind (bind m f) g = bind m (fun a => bind (f a) g).
Proof.
  unfold bind. destruct m as [l [a| |]]; try reflexivity.
  destruct (f a) as [l' [b| |]]; try reflexivity.
  destruct (g b) as [l'' r]. rewrite app_assoc. reflexivity.
Qed.

Lemma bind_events {A B} (P : event -> Prop) (m : M A) (f : A -> M B) :
  Forall P (fst m) ->
  (forall a, Forall P (fst (f a))) ->
  Forall P (fst (bind m f)).
Proof.
  intros Hm Hf. rewrite fst_bind. apply Forall_app. split; [exact Hm|].
  destruct (snd m); [apply Hf|constructor|constructor].
Qed.

(** ** Reading the blocks *)

Lemma check_self_evicted ctx sb :
  ps_updatenode sb <> 0 ->
  ps_updatenode sb <> qc_my_id ctx ->
  ps_state sb = S_EVICT ->
  check_self ctx sb = ([], Rebooted).
Proof.
  intros Hz Hme Hst. unfold check_self.
  apply Z.eqb_neq in Hz, Hme. rewrite Hz, Hme. simpl.
  rewrite Hst, Z.eqb_refl. reflexivity.
Qed.

Lemma check_self_not_halted ctx sb : snd (check_self ctx sb) <> Halted.
Proof.
  unfold check_self.
  destruct (_ || _); [discriminate|].
  destruct (_ =? _); discriminate.
Qed.

Lemma read_block_not_halted ctx rd n : snd (read_block ctx rd n) <> Halted.
Proof.
  unfold read_block. destruct rd as [sb|]; [|discriminate].
  destruct (ps_nodeid sb =? qc_my_id ctx).
  - rewrite snd_bind. pose proof (check_self_not_halted ctx sb) as Hh.
    destruct (snd (check_self ctx sb)); simpl; congruence.
  - destruct (negb _); [discriminate|].
    destruct (_ =? _); discriminate.
Qed.

Lemma read_block_own_evicted ctx sb n :
  ps_nodeid sb = qc_my_id ctx ->
  ps_updatenode sb <> 0 ->
  ps_updatenode sb <> qc_my_id ctx ->
  ps_state sb = S_EVICT ->
  read_block ctx (Some sb) n = ([], Rebooted).
Proof.
  intros Hid Hz Hme Hst. unfold read_block.
  rewrite Hid, Z.eqb_refl.
  rewrite (check_self_evicted ctx sb Hz Hme Hst). reflexivity.
Qed.

Lemma read_from_self_evicted ctx disk ni : forall x k n sb,
  nth_error ni k = Some n ->
  disk (x + k)%nat = Some sb ->
  ps_nodeid sb = qc_my_id ctx ->
  ps_updatenode sb <> 0 ->
  ps_updatenode sb <> qc_my_id ctx ->
  ps_state sb = S_EVICT ->
  snd (read_node_blocks_from ctx disk x ni) = Rebooted.
Proof.
  induction ni as [|n0 rest IH]; intros x k n sb Hn Hd Hid Hz Hme Hst.
  - destruct k; discriminate.
  - simpl. rewrite snd_bind. destruct k as [|k].
    + rewrite Nat.add_0_r in Hd. rewrite Hd.
      rewrite (read_block_own_evicted ctx sb n0 Hid Hz Hme Hst).
      reflexivity.
    + pose proof (read_block_not_halted ctx (disk x) n0) as Hnh.
      destruct (snd (read_block ctx (disk x) n0)) as [n1| |];
        [|reflexivity|congruence].
      rewrite snd_bind.
      rewrite (IH (S x) k n sb Hn); auto.
      rewrite <- Hd. f_equal. lia.
Qed.

(** A record whose block could not be read is handed on untouched. *)
Lemma read_from_failed_frame ctx disk ni : forall x k n evs ni',
  read_node_blocks_from ctx disk x ni = (evs, Ok ni') ->
  nth_error ni k = Some n ->
  disk (x + k)%nat = None ->
  nth_error ni' k = Some n.
Proof.
  induction ni as [|n0 rest IH]; intros x k n evs ni' Hrun Hn Hd.
  - destruct k; discriminate.
  - simpl in Hrun.
    apply bind_ok_inv in Hrun as (l & n1 & l' & Hb & Hrest & _).
    apply bind_ok_inv in Hrest as (l2 & rest' & l3 & Hr & Hret & _).
    injection Hret as _ <-.
    destruct k as [|k].
    + rewrite Nat.add_0_r in Hd. rewrite Hd in Hb.
      injection Hb as _ <-. exact Hn.
    + simpl. eapply IH; eauto.
      rewrite <- Hd. f_equal. lia.
Qed.

(** C2. When the daemon reads its own status block (a block whose node id
    is its own) and finds [updatenode] set to another node's id and the
    state EVICT, [check_self] reboots at once, and so [read_node_blocks]
    ends in a reboot.  The context, hence the reboot and debug flags, is
    arbitrary. *)
Theorem self_eviction_reboots ctx disk ni x sb :
  (x < length ni)%nat ->
  disk x = Some sb ->
  ps_nodeid sb = qc_my_id ctx ->
  ps_updatenode sb <> 0 ->
  ps_updatenode sb <> qc_my_id ctx ->
  ps_state sb = S_EVICT ->
  check_self ctx sb = ([], Rebooted)
  /\ snd (read_node_blocks ctx disk ni) = Rebooted.
Proof.
  intros Hx Hd Hid Hz Hme Hst. split.
  - apply check_self_evicted; assumption.
  - destruct (nth_error ni x) as [n|] eqn:Hn.
    + unfold read_node_blocks.
      apply (read_from_self_evicted ctx disk ni 0 x n sb); auto.
    + apply nth_error_None in Hn. lia.
Qed.

(** C10. A record whose status-block read fails goes through
    [read_node_blocks] unchanged as a whole: status copy, msg, last_msg,
    misses, seen and last_seen are the ones it had before. *)
Theorem failed_read_keeps_record ctx disk ni x n :
  nth_error ni x = Some n ->
  disk x = None ->
  read_block ctx (disk x) n = ([], Ok n)
  /\ forall evs ni',
       read_node_blocks ctx disk ni = (evs, Ok ni') ->
       nth_error ni' x = Some n.
Proof.
  intros Hn Hd. split.
  - rewrite Hd. reflexivity.
  - intros evs ni' Hrun.
    apply (read_from_failed_frame ctx disk ni 0 x n evs ni'); auto.
Qed.

(** C4 (amended). A failed status-block read leaves the peer's
    [last_seen] unchanged and its [misses] counter unchanged as well: the
    record is skipped for that cycle and no miss is counted. *)
Theorem failed_read_counts_no_miss ctx disk ni x n evs ni' :
  read_node_blocks ctx disk ni = (evs, Ok ni') ->
  nth_error ni x = Some n ->
  disk x = None ->
  exists n',
    nth_error ni' x = Some n'
    /\ ni_last_seen n' = ni_last_seen n
    /\ ni_misses n' = ni_misses n.
Proof.
  intros Hrun Hn Hd. exists n.
  split; [|split; reflexivity].
  apply (read_from_failed_frame ctx disk ni 0 x n evs ni'); auto.
Qed.

(** ** Transitions of a peer record *)

Lemma transition_down ctx n mask :
  case_down n = true ->
  transition ctx n mask =
  ([], (mk_ni (ni_status n) (ni_last_seen n) 0 0 0
              (if ps_state (ni_status n) =? S_EVICT
               then ni_evil_incarnation n else 0)
              S_NONE (ni_msg n) (ni_last_msg n),
        mask_clear mask (ps_nodeid (ni_status n) - 1))).
Proof. intros Hd. unfold transition. rewrite Hd. reflexivity. Qed.

Lemma transition_evict ctx n mask :
  case_down n = false ->
  case_evict ctx n = true ->
  fst (transition ctx n mask) =
    (if qc_status ctx =? S_MASTER
     then evict_notice (ps_nodeid (ni_status n))
          :: kill_if_allowed ctx (ps_nodeid (ni_status n))
     else [])
  /\ ni_state (fst (snd (transition ctx n mask))) = S_EVICT
  /\ ni_evil_incarnation (fst (snd (transition ctx n mask))) =
     ps_incarnation (ni_status n).
Proof.
  intros Hd He. unfold transition. rewrite Hd, He. simpl. auto.
Qed.

Lemma transition_undead ctx n mask :
  case_down n = false ->
  case_evict ctx n = false ->
  case_undead n = true ->
  transition ctx n mask =
  (evict_notice (ps_nodeid (ni_status n))
   :: kill_if_allowed ctx (ps_nodeid (ni_status n)),
   (mk_ni (set_ps_state S_EVICT (ni_status n)) (ni_last_seen n)
          (ni_misses n) (ni_seen n) (ni_incarnation n)
          (ni_evil_incarnation n) (ni_state n) (ni_msg n) (ni_last_msg n),
    mask)).
Proof.
  intros Hd He Hu. unfold transition. rewrite Hd, He, Hu. reflexivity.
Qed.

(** From the third case on, nothing touches [ni_evil_incarnation]. *)
Lemma transition_keeps_evil ctx n mask :
  case_down n = false ->
  case_evict ctx n = false ->
  ni_evil_incarnation (fst (snd (transition ctx n mask))) =
  ni_evil_incarnation n.
Proof.
  intros Hd He. unfold transition. rewrite Hd, He.
  repeat match goal with
         | |- context [if ?b then _ else _] => destruct b
         end; reflexivity.
Qed.

Lemma kill_if_allowed_no_write ctx nid e :
  In e (kill_if_allowed ctx nid) -> e = EKillNode nid.
Proof.
  unfold kill_if_allowed.
  destruct (truthy _); simpl; intros Hin; [|contradiction].
  destruct Hin as [<-|[]]. reflexivity.
Qed.

(** Where an eviction notice in the trace of one record comes from. *)
Lemma transition_write_source ctx n mask nid st msg mk mm :
  In (EWriteStatus nid st msg mk mm) (fst (transition ctx n mask)) ->
  nid = ps_nodeid (ni_status n)
  /\ case_down n = false
  /\ ((case_evict ctx n = true /\ qc_status ctx = S_MASTER)
      \/ (case_evict ctx n = false /\ case_undead n = true)).
Proof.
  unfold transition.
  destruct (case_down n) eqn:Hd; [simpl; contradiction|].
  destruct (case_evict ctx n) eqn:He.
  - destruct (qc_status ctx =? S_MASTER) eqn:Hm; simpl;
      [|contradiction].
    intros [Heq|Hin].
    + injection Heq as <- _ _ _ _. zbool. auto.
    + apply kill_if_allowed_no_write in Hin. discriminate.
  - destruct (case_undead n) eqn:Hu.
    + simpl. intros [Heq|Hin].
      * injection Heq as <- _ _ _ _. auto.
      * apply kill_if_allowed_no_write in Hin. discriminate.
    + repeat match goal with
             | |- context [if ?b then _ else _] => destruct b
             end; simpl; contradiction.
Qed.

Lemma check_transitions_from_write_source ctx ni :
  forall mask nid st msg mk mm,
  In (EWriteStatus nid st msg mk mm)
     (fst (check_transitions_from ctx ni mask)) ->
  exists n,
    In n ni
    /\ In (EWriteStatus nid st msg mk mm) (fst (transition ctx n None)).
Proof.
  induction ni as [|n rest IH]; intros mask nid st msg mk mm; simpl.
  - contradiction.
  - destruct (transition ctx n mask) as [evs [n' mask1]] eqn:Ht.
    destruct (check_transitions_from ctx rest mask1)
      as [evs' [rest' mask2]] eqn:Hr.
    simpl. intros Hin. apply in_app_or in Hin as [Hin|Hin].
    + exists n. split; [auto|].
      assert (Hev : fst (transition ctx n None)
                    = fst (transition ctx n mask)).
      { unfold transition.
        repeat match goal with
               | |- context [if ?b then _ else _] => destruct b
               end; reflexivity. }
      rewrite Hev, Ht. exact Hin.
    + destruct (IH mask1 nid st msg mk mm) as (n0 & Hn0 & Hw).
      * rewrite Hr. exact Hin.
      * exists n0. auto.
Qed.

(** C5 (amended). The eviction case, tried when the down/restart case
    does not apply, marks a peer EVICT when its misses exceed [tko] while
    its observed state is runnable, and in that case an EVICT block goes
    to the peer's slot exactly when the local state is MASTER.  The undead
    case writes an EVICT block to the peer's slot whatever the local
    state.  [check_transitions] writes EVICT in no other case.  Where the
    numbering puts EVICT apart from NONE, RUN and MASTER and not above
    INIT, the eviction case is the only way a tracked state becomes
    EVICT. *)
Theorem evict_notice_sources ctx :
  (forall n mask,
      case_down n = false -> case_evict ctx n = true ->
      ni_state (fst (snd (transition ctx n mask))) = S_EVICT
      /\ (In (evict_notice (ps_nodeid (ni_status n)))
             (fst (transition ctx n mask))
          <-> qc_status ctx = S_MASTER))
  /\ (forall n mask,
         case_down n = false -> case_evict ctx n = false ->
         case_undead n = true ->
         In (evict_notice (ps_nodeid (ni_status n)))
            (fst (transition ctx n mask)))
  /\ (forall ni mask nid msg mk mm,
         In (EWriteStatus nid S_EVICT msg mk mm)
            (fst (check_transitions ctx ni mask)) ->
         exists n,
           In n ni
           /\ ps_nodeid (ni_status n) = nid
           /\ case_down n = false
           /\ ((case_evict ctx n = true /\ qc_status ctx = S_MASTER)
               \/ (case_evict ctx n = false /\ case_undead n = true)))
  /\ (forall n mask,
         S_EVICT <> S_NONE -> S_EVICT <> S_RUN -> S_EVICT <> S_MASTER ->
         S_EVICT <= S_INIT ->
         ni_state n <> S_EVICT ->
         ni_state (fst (snd (transition ctx n mask))) = S_EVICT ->
         case_down n = false /\ case_evict ctx n = true).
Proof.
  split; [|split; [|split]].
  - intros n mask Hd He.
    destruct (transition_evict ctx n mask Hd He) as (Hev & Hst & _).
    split; [exact Hst|]. rewrite Hev.
    destruct (qc_status ctx =? S_MASTER) eqn:Hm; zbool.
    + split; [auto|]. intros _. left. reflexivity.
    + split; [intros []|contradiction].
  - intros n mask Hd He Hu.
    rewrite (transition_undead ctx n mask Hd He Hu). left. reflexivity.
  - intros ni mask nid msg mk mm Hin.
    unfold check_transitions in Hin.
    apply check_transitions_from_write_source in Hin as (n & Hn & Hw).
    apply transition_write_source in Hw as (Hid & Hd & Hsrc).
    exists n. auto.
  - intros n mask Hen Her Hem Hei Hne. unfold transition.
    destruct (case_down n) eqn:Hd; [simpl; congruence|].
    destruct (case_evict ctx n) eqn:He; [auto|].
    destruct (case_undead n); [simpl; congruence|].
    destruct (case_up ctx n); [simpl; congruence|].
    destruct (case_master n); [simpl; congruence|].
    destruct (truthy (state_run (ni_state n))) eqn:Hrun;
      [|simpl; congruence].
    simpl. intros Hps. exfalso.
    unfold case_down in Hd. rewrite Hps, Z.leb_refl, andb_true_r in Hd.
    apply orb_false_iff in Hd as [Hge _].
    unfold truthy, state_run in Hrun.
    destruct (ni_state n >=? S_INIT) eqn:Hi;
      [|rewrite Z.eqb_refl in Hrun; discriminate].
    zbool. lia.
Qed.

(** C6 (amended). The down/restart case zeroes [ni_evil_incarnation]
    whenever the observed state is not EVICT, be it a clean shutdown or a
    change of incarnation with any state in the block, and keeps it when
    the observed state is EVICT.  The eviction case stores the observed
    incarnation in it; no other case writes it. *)
Theorem evil_incarnation_updates ctx n mask :
  let n' := fst (snd (transition ctx n mask)) in
  (case_down n = true -> ps_state (ni_status n) <> S_EVICT ->
   ni_evil_incarnation n' = 0)
  /\ (case_down n = true -> ps_state (ni_status n) = S_EVICT ->
      ni_evil_incarnation n' = ni_evil_incarnation n)
  /\ (case_down n = false -> case_evict ctx n = true ->
      ni_evil_incarnation n' = ps_incarnation (ni_status n))
  /\ (case_down n = false -> case_evict ctx n = false ->
      ni_evil_incarnation n' = ni_evil_incarnation n).
Proof.
  simpl. split; [|split; [|split]].
  - intros Hd Hne. rewrite (transition_down ctx n mask Hd). simpl.
    apply Z.eqb_neq in Hne. rewrite Hne. reflexivity.
  - intros Hd He. rewrite (transition_down ctx n mask Hd). simpl.
    rewrite He, Z.eqb_refl. reflexivity.
  - intros Hd He. apply (transition_evict ctx n mask Hd He).
  - apply transition_keeps_evil.
Qed.

(** C7 (amended). In a cycle at whose start the record holds a non-zero
    [ni_evil_incarnation] equal to the observed incarnation,
    [check_transitions] leaves the tracked state as it is or sets it to
    NONE or EVICT: the undead case is tried before the come-up case, so
    the peer is not moved to RUN. *)
Theorem undead_never_comes_up ctx n mask :
  ni_evil_incarnation n <> 0 ->
  ps_incarnation (ni_status n) = ni_evil_incarnation n ->
  let n' := fst (snd (transition ctx n mask)) in
  (ni_state n' = S_NONE \/ ni_state n' = S_EVICT
   \/ ni_state n' = ni_state n)
  /\ (S_NONE <> S_RUN -> S_EVICT <> S_RUN ->
      ni_state n <> S_RUN -> ni_state n' <> S_RUN).
Proof.
  intros Hevil Hinc.
  assert (Hu : case_undead n = true).
  { unfold case_undead, truthy. rewrite Hinc, Z.eqb_refl.
    apply Z.eqb_neq in Hevil. rewrite Hevil. reflexivity. }
  assert (Hcases : ni_state (fst (snd (transition ctx n mask))) = S_NONE
                   \/ ni_state (fst (snd (transition ctx n mask))) = S_EVICT
                   \/ ni_state (fst (snd (transition ctx n mask)))
                      = ni_state n).
  { destruct (case_down n) eqn:Hd.
    - rewrite (transition_down ctx n mask Hd). auto.
    - destruct (case_evict ctx n) eqn:He.
      + destruct (transition_evict ctx n mask Hd He) as (_ & Hst & _).
        auto.
      + rewrite (transition_undead ctx n mask Hd He Hu). auto. }
  simpl. split; [exact Hcases|].
  intros Hnr Her Hne. destruct Hcases as [->|[->| ->]]; assumption.
Qed.

(** ** The shape of a cycle *)

Lemma observe_and_gate_inv inp ls l ls2 :
  observe_and_gate inp ls = (l, Ok ls2) ->
  exists l0 ls1 l1,
    observe inp ls = (l0, Ok ls1)
    /\ score_gate inp ls1 = (l1, Ok ls2)
    /\ l = l0 ++ l1.
Proof.
  unfold observe_and_gate. intros Hb.
  apply bind_ok_inv in Hb as (l0 & ls1 & l1 & Ho & Hg & ->).
  exists l0, ls1, l1. auto.
Qed.

Lemma before_decide_inv inp ls l pre low :
  before_decide inp ls = (l, Ok (pre, low)) ->
  exists ls2 m count,
    observe_and_gate inp ls = (l, Ok ls2)
    /\ master_exists (ls_ctx ls2) (ls_ni ls2) = (m, low, count)
    /\ pre = resolve_conflict count (fst (fst (find_master ls2))).
Proof.
  unfold before_decide. intros Hb.
  apply bind_ok_inv in Hb as (l0 & ls2 & l1 & Hog & Hrest & ->).
  unfold find_master in *.
  destruct (master_exists (ls_ctx ls2) (ls_ni ls2)) as [[m lo] count] eqn:E.
  simpl in *. unfold ret in Hrest. injection Hrest as <- <- <-.
  exists ls2, m, count. rewrite app_nil_r, E. auto.
Qed.

Lemma cycle_inv inp ls evs ls' out :
  cycle inp ls = (evs, Ok (ls', out)) ->
  exists l0 pre low l1 l2,
    before_decide inp ls = (l0, Ok (pre, low))
    /\ decide inp low pre = (l1, Ok ls')
    /\ finish inp ls' = (l2, Ok out)
    /\ evs = l0 ++ l1 ++ l2.
Proof.
  unfold cycle. intros Hb.
  apply bind_ok_inv in Hb as (l0 & [pre low] & r0 & Hpre & Hb & ->).
  apply bind_ok_inv in Hb as (l1 & ls5 & r1 & Hdec & Hb & ->).
  apply bind_ok_inv in Hb as (l2 & out' & r2 & Hfin & Hret & ->).
  unfold ret in Hret. injection Hret as <- <- <-.
  exists l0, pre, low, l1, l2. simpl in Hdec.
  rewrite app_nil_r. auto.
Qed.

Lemma finish_inv inp ls l out :
  finish inp ls = (l, Ok out) ->
  let ctx := ls_ctx ls in
  let sleeptime :=
    sleeptime_of (_diff_tv (in_oldtime inp) (in_newtime inp))
                 (mk_tv (qc_interval ctx) 0) in
  overrun_reboot ctx (_diff_tv (in_oldtime inp) (in_newtime inp)) = false
  /\ out = mk_out (qc_status ctx) (ls_msg ls) (ls_mask ls)
                  (ls_master_mask ls) (in_score inp)
                  (score_req_of ctx (in_score_max inp)) (in_score_max inp)
                  (if in_running inp then Some sleeptime else None)
  /\ l = EWriteStatus (qc_my_id ctx) (qc_status ctx) (Some (ls_msg ls))
                      (Some (ls_mask ls)) (Some (ls_master_mask ls))
         :: ELocalStatus (in_score inp)
                         (score_req_of ctx (in_score_max inp))
                         (in_score_max inp)
         :: (if in_running inp then [ESleep sleeptime] else []).
Proof.
  unfold finish. simpl.
  destruct (overrun_reboot _ _); [discriminate|].
  destruct (in_running inp); simpl; intros [= <- <-]; auto.
Qed.

(** ** What each phase of a cycle leaves alone *)

Lemma same_config_refl c : same_config c c.
Proof. unfold same_config. tauto. Qed.

Lemma same_config_trans c1 c2 c3 :
  same_config c1 c2 -> same_config c2 c3 -> same_config c1 c3.
Proof. unfold same_config. intuition congruence. Qed.

Lemma same_config_status s c : same_config c (set_qc_status s c).
Proof. unfold same_config. simpl. tauto. Qed.

Lemma same_config_master m c : same_config c (set_qc_master m c).
Proof. unfold same_config. simpl. tauto. Qed.

Lemma observe_frame inp ls l ls1 :
  observe inp ls = (l, Ok ls1) ->
  ls_ctx ls1 = ls_ctx ls
  /\ ls_msg ls1 = ls_msg ls
  /\ ls_bid_pending ls1 = ls_bid_pending ls
  /\ ls_upgrade ls1 = ls_upgrade ls
  /\ ls_master_mask ls1 = ls_master_mask ls.
Proof.
  unfold observe. intros Hb.
  apply bind_ok_inv in Hb as (l0 & ni1 & l1 & _ & Hrest & _).
  destruct (check_transitions _ _ _) as [evs [ni2 mask]].
  injection Hrest as _ <-. simpl. tauto.
Qed.

Lemma clear_bit_clears mask i : is_bit_set (clear_bit mask i) i = false.
Proof.
  unfold is_bit_set, clear_bit.
  destruct (bit_in_range i); [apply Z.clearbit_eq|reflexivity].
Qed.

Lemma testbit_set_bit m i b :
  Z.testbit (set_bit m i) b
  = (bit_in_range i && (i =? b)) || Z.testbit m b.
Proof.
  unfold set_bit. destruct (bit_in_range i) eqn:Hr; [|reflexivity].
  unfold bit_in_range in Hr. apply andb_prop in Hr as [H0 _].
  apply Z.leb_le in H0. simpl. apply Z.setbit_eqb. exact H0.
Qed.

Lemma testbit_clear_bit m i b :
  Z.testbit (clear_bit m i) b
  = negb (bit_in_range i && (i =? b)) && Z.testbit m b.
Proof.
  unfold clear_bit. destruct (bit_in_range i); [|reflexivity].
  simpl. rewrite Z.clearbit_eqb. apply andb_comm.
Qed.

(** The score gate: configuration, records and master mask are left
    alone; with an insufficient score the node is in state NONE with no
    bid pending and its own mask bit cleared. *)
Lemma score_gate_spec inp ls l ls' :
  S_NONE < S_RUN -> S_NONE < S_MASTER ->
  loop_inv ls ->
  score_gate inp ls = (l, Ok ls') ->
  loop_inv ls'
  /\ same_config (ls_ctx ls) (ls_ctx ls')
  /\ (in_score inp < score_req_of (ls_ctx ls) (in_score_max inp) ->
      qc_status (ls_ctx ls') = S_NONE
      /\ ls_bid_pending ls' = 0
      /\ is_bit_set (ls_mask ls') (qc_my_id (ls_ctx ls) - 1) = false).
Proof.
  intros Hnr Hnm (Hst & Hb0 & Hbid) Hg. unfold score_gate in Hg.
  unfold loop_inv.
  destruct (in_score inp <? score_req_of (ls_ctx ls) (in_score_max inp))
    eqn:Hlow.
  - destruct (qc_status (ls_ctx ls) >? S_NONE) eqn:Hup.
    + destruct (in_cman_alive inp <? 0);
        destruct (truthy (Z.land (qc_flags (ls_ctx ls)) RF_REBOOT));
        simpl in Hg; try discriminate;
        injection Hg as _ <-; simpl;
        (split; [split; [auto|split; [lia|congruence]]|]);
        (split; [apply same_config_status|]);
        intros _; repeat split; auto using clear_bit_clears.
    + injection Hg as _ <-. simpl. zbool.
      assert (Hs : qc_status (ls_ctx ls) = S_NONE) by lia.
      assert (Hb : ls_bid_pending ls = 0).
      { destruct (Z.eq_dec (ls_bid_pending ls) 0) as [|Hne]; auto.
        apply Hbid in Hne. lia. }
      split; [auto|]. split; [apply same_config_refl|].
      intros _. auto using clear_bit_clears.
  - zbool.
    destruct (qc_status (ls_ctx ls) =? S_NONE) eqn:Hn;
      injection Hg as _ <-; simpl.
    + split; [split; [auto|split; [lia|congruence]]|].
      split; [apply same_config_status|]. lia.
    + split; [auto|]. split; [apply same_config_refl|]. lia.
Qed.

Lemma find_master_frame ls :
  let ls3 := fst (fst (find_master ls)) in
  same_config (ls_ctx ls) (ls_ctx ls3)
  /\ qc_status (ls_ctx ls3) = qc_status (ls_ctx ls)
  /\ qc_master (ls_ctx ls3) = fst (fst (master_exists (ls_ctx ls) (ls_ni ls)))
  /\ ls_ni ls3 = ls_ni ls
  /\ ls_msg ls3 = ls_msg ls
  /\ ls_bid_pending ls3 = ls_bid_pending ls
  /\ ls_upgrade ls3 = ls_upgrade ls
  /\ ls_mask ls3 = ls_mask ls.
Proof.
  unfold find_master.
  destruct (master_exists _ _) as [[m lo] c]. simpl.
  repeat split; auto.
Qed.

Lemma resolve_conflict_frame count ls :
  let ls4 := resolve_conflict count ls in
  same_config (ls_ctx ls) (ls_ctx ls4)
  /\ qc_master (ls_ctx ls4) = qc_master (ls_ctx ls)
  /\ ls_ni ls4 = ls_ni ls
  /\ ls_mask ls4 = ls_mask ls
  /\ (master_conflict count (ls_ctx ls) = false -> ls4 = ls)
  /\ (master_conflict count (ls_ctx ls) = true ->
      qc_status (ls_ctx ls4) = S_RUN
      /\ ls_upgrade ls4 = qc_upgrade_wait (ls_ctx ls)
      /\ ls_bid_pending ls4 = 0
      /\ m_msg (ls_msg ls4) = M_NONE).
Proof.
  unfold resolve_conflict.
  destruct (master_conflict count (ls_ctx ls)); simpl.
  - repeat split; auto using same_config_status; discriminate.
  - repeat split; auto using same_config_refl; discriminate.
Qed.

(** The decision table: it never reboots; it leaves configuration,
    detected master, records and mask alone; and the local state changes
    in one way only, to MASTER on an all-acks vote for a bid that has
    been pending long enough. *)
Lemma decide_spec inp low ls :
  snd (decide inp low ls) <> Rebooted
  /\ forall l ls',
       decide inp low ls = (l, Ok ls') ->
       same_config (ls_ctx ls) (ls_ctx ls')
       /\ qc_master (ls_ctx ls') = qc_master (ls_ctx ls)
       /\ ls_ni ls' = ls_ni ls
       /\ ls_mask ls' = ls_mask ls
       /\ ((qc_status (ls_ctx ls') = qc_status (ls_ctx ls)
            /\ (ls_bid_pending ls' = ls_bid_pending ls
                \/ ls_bid_pending ls' = 0
                \/ (qc_status (ls_ctx ls) = S_RUN
                    /\ ls_bid_pending ls' = 1)
                \/ (ls_bid_pending ls <> 0
                    /\ ls_bid_pending ls' = ls_bid_pending ls + 1)))
           \/ (qc_status (ls_ctx ls') = S_MASTER
               /\ ls_bid_pending ls' = 0
               /\ qc_master (ls_ctx ls) = 0
               /\ ls_bid_pending ls <> 0
               /\ fst (check_votes (ls_ctx ls) (ls_ni ls) (ls_msg ls)) = 3
               /\ qc_master_wait (ls_ctx ls) <= ls_bid_pending ls + 1)).
Proof.
  unfold decide.
  destruct (check_votes (ls_ctx ls) (ls_ni ls) (ls_msg ls))
    as [code msg1] eqn:Hcv.
  repeat match goal with
         | |- context [if ?b then _ else _] => destruct b eqn:?
         end;
    (split; [simpl; discriminate|]);
    intros l ls' Hd; simpl in Hd; try discriminate;
    injection Hd as _ <-; simpl;
    (split; [first [apply same_config_refl | apply same_config_status]|]);
    (split; [reflexivity|]); (split; [reflexivity|]);
    (split; [reflexivity|]); zbool;
    try (left; split; [reflexivity|]; solve [auto | right; right; auto]);
    right; repeat split; auto; lia.
Qed.

Lemma score_req_of_config c c' m :
  same_config c c' -> score_req_of c' m = score_req_of c m.
Proof.
  unfold same_config, score_req_of.
  intros (_ & _ & _ & _ & _ & _ & -> & _). reflexivity.
Qed.

Lemma resolve_conflict_inv count ls :
  loop_inv ls -> loop_inv (resolve_conflict count ls).
Proof.
  intros Hinv.
  destruct (resolve_conflict_frame count ls)
    as (_ & _ & _ & _ & Hsame & Hconf).
  destruct (master_conflict count (ls_ctx ls)).
  - destruct (Hconf eq_refl) as (Hs & _ & Hb & _).
    unfold loop_inv. rewrite Hs, Hb. split; [auto|]. split; [lia|auto].
  - rewrite (Hsame eq_refl). exact Hinv.
Qed.

Lemma decide_inv inp low ls l ls' :
  loop_inv ls ->
  decide inp low ls = (l, Ok ls') ->
  loop_inv ls'.
Proof.
  intros (Hst & Hb0 & Hbid) Hd.
  destruct (decide_spec inp low ls) as [_ Hspec].
  destruct (Hspec l ls' Hd) as (_ & _ & _ & _ & Hcases).
  unfold loop_inv.
  destruct Hcases as [[Hs [Hb|[Hb|[[Hr Hb]|[Hne Hb]]]]]|(Hs & Hb & _)];
    rewrite Hs, Hb.
  - auto.
  - split; [auto|]. split; [lia|congruence].
  - split; [auto|]. split; [lia|auto].
  - split; [auto|]. split; [lia|auto].
  - split; [auto|]. split; [lia|congruence].
Qed.

Lemma to_write_inv inp ls l s :
  to_write inp ls = (l, Ok s) ->
  exists l0 pre low l1,
    before_decide inp ls = (l0, Ok (pre, low))
    /\ decide inp low pre = (l1, Ok s)
    /\ l = l0 ++ l1.
Proof.
  unfold to_write. intros Hb.
  apply bind_ok_inv in Hb as (l0 & [pre low] & l1 & Hpre & Hdec & ->).
  exists l0, pre, low, l1. auto.
Qed.

(** A cycle, up to its write, from a state that satisfies [loop_inv]. *)
Lemma to_write_spec inp ls l ls' :
  S_NONE < S_RUN -> S_NONE < S_MASTER ->
  loop_inv ls ->
  to_write inp ls = (l, Ok ls') ->
  loop_inv ls'
  /\ same_config (ls_ctx ls) (ls_ctx ls')
  /\ (in_score inp < score_req_of (ls_ctx ls) (in_score_max inp) ->
      qc_status (ls_ctx ls') = S_NONE
      /\ is_bit_set (ls_mask ls') (qc_my_id (ls_ctx ls) - 1) = false).
Proof.
  intros Hnr Hnm Hinv Hc.
  apply to_write_inv in Hc as (l0 & pre & low & l1 & Hpre & Hdec & _).
  apply before_decide_inv in Hpre as (ls2 & m & count & Hog & Hme & Hpre).
  apply observe_and_gate_inv in Hog as (e0 & ls1 & e1 & Hobs & Hgate & _).
  apply observe_frame in Hobs as (Hctx1 & _ & Hbid1 & _ & _).
  assert (Hinv1 : loop_inv ls1).
  { unfold loop_inv in *. rewrite Hctx1, Hbid1. exact Hinv. }
  destruct (score_gate_spec inp ls1 e1 ls2 Hnr Hnm Hinv1 Hgate)
    as (Hinv2 & Hcfg2 & Hlow).
  destruct (find_master_frame ls2)
    as (Hcfg3 & Hst3 & _ & _ & _ & Hbid3 & _ & Hmask3).
  set (ls3 := fst (fst (find_master ls2))) in *.
  assert (Hinv3 : loop_inv ls3).
  { unfold loop_inv in *. rewrite Hst3, Hbid3. exact Hinv2. }
  destruct (resolve_conflict_frame count ls3)
    as (Hcfg4 & _ & _ & Hmask4 & Hsame4 & _).
  pose proof (resolve_conflict_inv count ls3 Hinv3) as Hinv4.
  subst pre. fold ls3 in Hdec.
  pose proof (decide_inv inp low _ l1 ls' Hinv4 Hdec) as Hinv5.
  destruct (decide_spec inp low (resolve_conflict count ls3))
    as [_ Hspec].
  destruct (Hspec l1 ls' Hdec) as (Hcfg5 & _ & _ & Hmask5 & Hcases).
  assert (Hcfg : same_config (ls_ctx ls) (ls_ctx ls')).
  { rewrite <- Hctx1.
    eauto using same_config_trans. }
  split; [exact Hinv5|]. split; [exact Hcfg|].
  intros Hlt. rewrite <- Hctx1 in Hlt.
  destruct (Hlow Hlt) as (Hs2 & Hb2 & Hbit2).
  assert (Hnc : master_conflict count (ls_ctx ls3) = false).
  { unfold master_conflict. rewrite Hst3, Hs2.
    destruct (S_NONE =? S_MASTER) eqn:E; [zbool; lia|].
    rewrite andb_false_r. reflexivity. }
  rewrite (Hsame4 Hnc) in Hcases, Hmask5.
  rewrite Hst3, Hbid3, Hs2, Hb2 in Hcases.
  rewrite Hmask5, Hmask3, <- Hctx1.
  split; [|exact Hbit2].
  destruct Hcases as [[Hs _]|(_ & _ & _ & Hne & _)]; [exact Hs|].
  congruence.
Qed.

Lemma score_gate_frame inp ls l ls' :
  score_gate inp ls = (l, Ok ls') ->
  same_config (ls_ctx ls) (ls_ctx ls')
  /\ ls_ni ls' = ls_ni ls
  /\ (qc_status (ls_ctx ls') = qc_status (ls_ctx ls)
      \/ qc_status (ls_ctx ls') = S_NONE
      \/ qc_status (ls_ctx ls') = S_RUN).
Proof.
  unfold score_gate. intros Hg.
  repeat break_if_in Hg; simpl in Hg; try discriminate;
    injection Hg as _ <-; simpl;
    (split; [first [apply same_config_refl | apply same_config_status]|]);
    (split; [reflexivity|]); auto.
Qed.

Lemma before_decide_frame inp ls l pre low :
  before_decide inp ls = (l, Ok (pre, low)) ->
  same_config (ls_ctx ls) (ls_ctx pre)
  /\ (qc_status (ls_ctx pre) = qc_status (ls_ctx ls)
      \/ qc_status (ls_ctx pre) = S_NONE
      \/ qc_status (ls_ctx pre) = S_RUN).
Proof.
  intros Hpre.
  apply before_decide_inv in Hpre as (ls2 & m & count & Hog & _ & ->).
  apply observe_and_gate_inv in Hog as (e0 & ls1 & e1 & Hobs & Hgate & _).
  apply observe_frame in Hobs as (Hctx1 & _).
  apply score_gate_frame in Hgate as (Hcfg2 & _ & Hst2).
  destruct (find_master_frame ls2) as (Hcfg3 & Hst3 & _).
  set (ls3 := fst (fst (find_master ls2))) in *.
  destruct (resolve_conflict_frame count ls3)
    as (Hcfg4 & _ & _ & _ & Hsame & Hconf).
  rewrite <- Hctx1. split; [eauto using same_config_trans|].
  destruct (master_conflict count (ls_ctx ls3)).
  - destruct (Hconf eq_refl) as (Hs & _). auto.
  - rewrite (Hsame eq_refl), Hst3. exact Hst2.
Qed.

Lemma cycle_config inp ls evs ls' out :
  cycle inp ls = (evs, Ok (ls', out)) ->
  same_config (ls_ctx ls) (ls_ctx ls').
Proof.
  intros Hc.
  apply cycle_inv in Hc as (l0 & pre & low & l1 & l2 & Hpre & Hdec & _).
  apply before_decide_frame in Hpre as (Hcfg & _).
  destruct (decide_spec inp low pre) as [_ Hspec].
  destruct (Hspec l1 ls' Hdec) as (Hcfg' & _).
  eauto using same_config_trans.
Qed.

(** ** Counting the votes *)

Lemma count_votes_counts ctx ni : forall v,
  v_running (count_votes ctx ni v) =
    v_running v + Z.of_nat (length (filter tracked_alive ni))
  /\ v_acks (count_votes ctx ni v) =
    v_acks v
    + Z.of_nat (length (filter (fun n => tracked_alive n && acked ctx n)
                               ni)).
Proof.
  induction ni as [|n rest IH]; intros v.
  - simpl. split; lia.
  - cbn [count_votes filter].
    change (truthy (state_run (ni_state n))) with (tracked_alive n).
    destruct (tracked_alive n) eqn:Ha; cbn [andb].
    + destruct ((ps_msg (ni_status n) =? M_BID)
                && (ps_nodeid (ni_status n) <? v_low_id v));
        match goal with
        | |- context [count_votes ctx rest ?v'] =>
            destruct (IH v') as (-> & ->)
        end; cbn [v_running v_acks];
        destruct (acked ctx n); cbn [length];
        rewrite ?Nat2Z.inj_succ; split; lia.
    + apply IH.
Qed.

Lemma filter_both_le {A} (p q : A -> bool) l :
  (length (filter (fun x => p x && q x) l) <= length (filter p l))%nat.
Proof.
  induction l as [|a l IH]; simpl; [lia|].
  destruct (p a), (q a); simpl; lia.
Qed.

Lemma filter_both_all {A} (p q : A -> bool) l :
  length (filter (fun x => p x && q x) l) = length (filter p l)
  <-> Forall (fun x => p x = true -> q x = true) l.
Proof.
  induction l as [|a l IH]; simpl.
  - split; [constructor|reflexivity].
  - pose proof (filter_both_le p q l) as Hle.
    destruct (p a) eqn:Hp, (q a) eqn:Hq; simpl; split; intros Hx.
    + constructor; [auto|]. apply IH. lia.
    + inversion Hx; subst. f_equal. apply IH. assumption.
    + lia.
    + inversion Hx as [|? ? Ha _]. rewrite Hp, Hq in Ha.
      discriminate (Ha eq_refl).
    + constructor; [rewrite Hp; discriminate|]. apply IH. exact Hx.
    + inversion Hx; subst. apply IH. assumption.
    + constructor; [rewrite Hp; discriminate|]. apply IH. exact Hx.
    + inversion Hx; subst. apply IH. assumption.
Qed.

Lemma check_votes_all_acks ctx ni msg :
  fst (check_votes ctx ni msg) = 3 <-> all_acked ctx ni.
Proof.
  unfold check_votes, all_acked. simpl.
  destruct (count_votes_counts ctx ni (mk_votes 0 0 0 (qc_my_id ctx) msg))
    as (Hr & Ha).
  simpl in Hr, Ha. rewrite Hr, Ha.
  rewrite <- (filter_both_all tracked_alive (acked ctx) ni).
  destruct (_ =? _) eqn:E; zbool.
  - split; [lia|reflexivity].
  - split; [|lia].
    repeat match goal with
           | |- context [if ?b then _ else _] => destruct b
           end; discriminate.
Qed.

(** C8. [check_votes] returns 3 (all acks) exactly when every
    tracked-alive peer has published ACK with this node's id.  With a bid
    pending and no master, an all-acks vote makes the node MASTER once
    the bid counter, incremented for this cycle, has reached
    [master_wait], and otherwise leaves the local state as it is and the
    counter incremented.  And a cycle moves the local state to MASTER only
    from that situation: no master detected, a bid pending, all acks, and
    the incremented bid counter at [master_wait] or above. *)
Theorem master_only_on_all_acks :
  (forall ctx ni msg,
      fst (check_votes ctx ni msg) = 3 <-> all_acked ctx ni)
  /\ (forall inp low ls,
         qc_master (ls_ctx ls) = 0 ->
         ls_bid_pending ls <> 0 ->
         all_acked (ls_ctx ls) (ls_ni ls) ->
         exists l ls',
           decide inp low ls = (l, Ok ls')
           /\ if ls_bid_pending ls + 1 <? qc_master_wait (ls_ctx ls)
              then qc_status (ls_ctx ls') = qc_status (ls_ctx ls)
                   /\ ls_bid_pending ls' = ls_bid_pending ls + 1
              else qc_status (ls_ctx ls') = S_MASTER
                   /\ ls_bid_pending ls' = 0)
  /\ (forall inp ls evs ls' out,
         S_NONE <> S_MASTER -> S_RUN <> S_MASTER ->
         cycle inp ls = (evs, Ok (ls', out)) ->
         qc_status (ls_ctx ls) <> S_MASTER ->
         qc_status (ls_ctx ls') = S_MASTER ->
         exists l pre low,
           before_decide inp ls = (l, Ok (pre, low))
           /\ qc_master (ls_ctx pre) = 0
           /\ ls_bid_pending pre <> 0
           /\ all_acked (ls_ctx pre) (ls_ni pre)
           /\ qc_master_wait (ls_ctx pre) <= ls_bid_pending pre + 1).
Proof.
  split; [|split].
  - apply check_votes_all_acks.
  - intros inp low ls Hm Hb Hall.
    apply (check_votes_all_acks _ _ (ls_msg ls)) in Hall.
    unfold decide. rewrite Hm.
    assert (Ht : truthy (ls_bid_pending ls) = true).
    { unfold truthy. apply negb_true_iff, Z.eqb_neq. exact Hb. }
    destruct (check_votes (ls_ctx ls) (ls_ni ls) (ls_msg ls))
      as [code msg1].
    cbn [fst] in Hall. subst code.
    rewrite Ht. change (truthy 0) with false.
    cbn [negb andb]. rewrite !andb_false_r. cbn [andb].
    change (3 =? 3) with true. cbv iota.
    destruct (ls_bid_pending ls + 1 <? qc_master_wait (ls_ctx ls));
      eexists _, _; (split; [reflexivity|]); simpl; auto.
  - intros inp ls evs ls' out Hnm Hrm Hc Hbefore Hafter.
    apply cycle_inv in Hc
      as (l0 & pre & low & l1 & l2 & Hpre & Hdec & _ & _).
    exists l0, pre, low. split; [exact Hpre|].
    apply before_decide_frame in Hpre as (_ & Hst).
    assert (Hpm : qc_status (ls_ctx pre) <> S_MASTER).
    { destruct Hst as [->|[->| ->]]; assumption. }
    destruct (decide_spec inp low pre) as [_ Hspec].
    destruct (Hspec l1 ls' Hdec) as (_ & _ & _ & _ & Hcases).
    destruct Hcases as [[Hs _]|(_ & _ & Hm & Hb & Hcv & Hw)].
    + congruence.
    + apply check_votes_all_acks in Hcv. auto.
Qed.

Lemma overrun_reboot_config c c' d :
  same_config c c' -> overrun_reboot c' d = overrun_reboot c d.
Proof.
  unfold same_config, overrun_reboot.
  intros (_ & -> & -> & _ & _ & _ & _ & ->). reflexivity.
Qed.

Lemma finish_rebooted inp ls :
  snd (finish inp ls) = Rebooted ->
  overrun_reboot (ls_ctx ls)
    (_diff_tv (in_oldtime inp) (in_newtime inp)) = true.
Proof.
  unfold finish. simpl.
  destruct (overrun_reboot _ _); [reflexivity|].
  destruct (in_running inp); simpl; discriminate.
Qed.

(** C9. When, after the score gate, the local state is MASTER while
    [master_exists] has detected a master whose id is not this node's,
    the node abdicates: its state becomes RUN, the upgrade wait is
    restarted at [upgrade_wait], the pending bid and the message are
    cleared.  The decision table that follows never reboots; the cycle
    reboots only through [paranoid] on a cycle-time overrun, and when it
    completes, the state it writes is RUN. *)
Theorem master_conflict_abdicates inp ls l ls2 m low count :
  observe_and_gate inp ls = (l, Ok ls2) ->
  master_exists (ls_ctx ls2) (ls_ni ls2) = (m, low, count) ->
  qc_status (ls_ctx ls2) = S_MASTER ->
  1 <= count ->
  m <> qc_my_id (ls_ctx ls2) ->
  exists pre,
    before_decide inp ls = (l, Ok (pre, low))
    /\ qc_status (ls_ctx pre) = S_RUN
    /\ ls_upgrade pre = qc_upgrade_wait (ls_ctx ls)
    /\ ls_bid_pending pre = 0
    /\ m_msg (ls_msg pre) = M_NONE
    /\ snd (decide inp low pre) <> Rebooted
    /\ (snd (cycle inp ls) = Rebooted ->
        overrun_reboot (ls_ctx ls)
          (_diff_tv (in_oldtime inp) (in_newtime inp)) = true)
    /\ (forall evs ls' out,
           cycle inp ls = (evs, Ok (ls', out)) -> co_state out = S_RUN).
Proof.
  intros Hog Hme Hst Hcount Hm.
  assert (Hpre : before_decide inp ls
                 = (l, Ok (resolve_conflict count
                             (fst (fst (find_master ls2))), low))).
  { unfold before_decide. rewrite (bind_ok _ _ l ls2 Hog).
    unfold find_master. rewrite Hme. simpl. rewrite app_nil_r.
    reflexivity. }
  destruct (find_master_frame ls2)
    as (Hcfg3 & Hst3 & Hm3 & _ & _ & _ & _ & _).
  set (ls3 := fst (fst (find_master ls2))) in *.
  rewrite Hme in Hm3. simpl in Hm3.
  assert (Hconf : master_conflict count (ls_ctx ls3) = true).
  { unfold master_conflict. rewrite Hst3, Hst, Hm3, Z.eqb_refl.
    destruct Hcfg3 as (Hid & _). rewrite Hid.
    apply Z.eqb_neq in Hm. rewrite Hm.
    replace (count >=? 1) with true; [reflexivity|].
    symmetry. rewrite Z.geb_leb. apply Z.leb_le. exact Hcount. }
  destruct (resolve_conflict_frame count ls3)
    as (Hcfg4 & _ & _ & _ & _ & Hab).
  destruct (Hab Hconf) as (Hs4 & Hup4 & Hb4 & Hmsg4).
  set (pre := resolve_conflict count ls3) in *.
  apply observe_and_gate_inv in Hog as (e0 & ls1 & e1 & Hobs & Hgate & _).
  apply observe_frame in Hobs as (Hctx1 & _).
  apply score_gate_frame in Hgate as (Hcfg2 & _).
  rewrite Hctx1 in Hcfg2.
  assert (Hcfg : same_config (ls_ctx ls) (ls_ctx pre))
    by eauto using same_config_trans.
  destruct (decide_spec inp low pre) as [Hnr Hspec].
  exists pre. split; [exact Hpre|]. split; [exact Hs4|].
  split.
  { rewrite Hup4.
    destruct (same_config_trans _ _ _ Hcfg2 Hcfg3)
      as (_ & _ & _ & _ & Hw & _). exact Hw. }
  split; [exact Hb4|]. split; [exact Hmsg4|]. split; [exact Hnr|].
  split.
  - unfold cycle. rewrite snd_bind, Hpre. simpl.
    rewrite snd_bind.
    destruct (decide inp low pre) as [l1 [ls5| |]] eqn:Hdec; simpl.
    + destruct (Hspec l1 ls5 eq_refl) as (Hcfg5 & _).
      rewrite snd_bind.
      destruct (snd (finish inp ls5)) eqn:Hfin; simpl; try discriminate.
      intros _. apply finish_rebooted in Hfin.
      rewrite <- (overrun_reboot_config (ls_ctx ls) (ls_ctx ls5));
        eauto using same_config_trans.
    + exfalso. apply Hnr. reflexivity.
    + discriminate.
  - intros evs ls' out Hc.
    apply cycle_inv in Hc
      as (l0 & pre' & low' & l1 & l2 & Hpre' & Hdec & Hfin & _).
    rewrite Hpre in Hpre'. injection Hpre' as _ <- <-.
    destruct (Hspec l1 ls' Hdec) as (_ & _ & _ & _ & Hcases).
    apply finish_inv in Hfin as (_ & -> & _). simpl.
    destruct Hcases as [[Hs _]|(_ & _ & _ & Hne & _)]; congruence.
Qed.

(** ** Timing of the cycle *)

Lemma cmp_tv_before a b :
  tv_normal a -> tv_normal b ->
  (_cmp_tv a b =? 1) = (tv_usecs a <? tv_usecs b).
Proof.
  unfold tv_normal, _cmp_tv, tv_usecs. intros Ha Hb.
  destruct (tv_sec a >? tv_sec b) eqn:E1;
    [|destruct (tv_sec a <? tv_sec b) eqn:E2;
      [|destruct (tv_usec a >? tv_usec b) eqn:E3;
        [|destruct (tv_usec a <? tv_usec b) eqn:E4]]];
    simpl; symmetry;
    repeat match goal with
           | E : (_ >? _) = _ |- _ => rewrite Z.gtb_ltb in E
           | E : (_ <? _) = true |- _ => apply Z.ltb_lt in E
           | E : (_ <? _) = false |- _ => apply Z.ltb_ge in E
           end;
    first [apply Z.ltb_lt | apply Z.ltb_ge]; lia.
Qed.

Lemma diff_tv_normal a b :
  tv_normal a -> tv_normal b ->
  tv_normal (_diff_tv a b)
  /\ tv_usecs (_diff_tv a b) = tv_usecs b - tv_usecs a.
Proof.
  unfold tv_normal, _diff_tv, tv_usecs. intros Ha Hb.
  destruct (tv_usec b - tv_usec a <? 0) eqn:E; simpl;
    [apply Z.ltb_lt in E | apply Z.ltb_ge in E]; split; lia.
Qed.

Lemma sleeptime_usecs diff itv :
  tv_normal diff -> tv_normal itv ->
  tv_usecs (sleeptime_of diff itv) =
  if tv_usecs diff <? tv_usecs itv then tv_usecs itv - tv_usecs diff
  else tv_usecs itv.
Proof.
  intros Hd Hi. unfold sleeptime_of.
  rewrite (cmp_tv_before diff itv Hd Hi).
  destruct (tv_usecs diff <? tv_usecs itv); [|reflexivity].
  apply (diff_tv_normal diff itv Hd Hi).
Qed.

(** C3 (amended). A cycle that completes while the daemon is still
    running sleeps for [interval - D] when its length [D] is below the
    interval, and for a full interval when [D] is the interval or more. *)
Theorem sleep_after_cycle inp ls evs ls' out :
  tv_normal (in_oldtime inp) ->
  tv_normal (in_newtime inp) ->
  in_running inp = true ->
  cycle inp ls = (evs, Ok (ls', out)) ->
  let delta := tv_usecs (in_newtime inp) - tv_usecs (in_oldtime inp) in
  let itv := qc_interval (ls_ctx ls) * 1000000 in
  exists t,
    co_sleep out = Some t
    /\ In (ESleep t) evs
    /\ tv_usecs t = if delta <? itv then itv - delta else itv.
Proof.
  intros Hold Hnew Hrun Hc delta itv.
  pose proof (cycle_config _ _ _ _ _ Hc) as (_ & Hitv & _).
  apply cycle_inv in Hc as (l0 & pre & low & l1 & l2 & _ & _ & Hfin & ->).
  apply finish_inv in Hfin as (_ & -> & ->). rewrite Hrun. simpl.
  eexists. split; [reflexivity|]. split.
  - apply in_or_app. right. apply in_or_app. right. simpl. auto.
  - destruct (diff_tv_normal _ _ Hold Hnew) as [Hn Hu].
    rewrite sleeptime_usecs; [|exact Hn|unfold tv_normal; simpl; lia].
    assert (Hi : tv_usecs (mk_tv (qc_interval (ls_ctx ls')) 0) = itv)
      by (unfold tv_usecs; simpl; subst itv; rewrite Hitv; lia).
    rewrite Hu, Hi. reflexivity.
Qed.

(** ** Records evolve one by one *)

Lemma transition_mask_free ctx n mask :
  fst (snd (transition ctx n mask)) = fst (snd (transition ctx n None))
  /\ fst (transition ctx n mask) = fst (transition ctx n None).
Proof.
  unfold transition.
  repeat match goal with
         | |- context [if ?b then _ else _] => destruct b
         end; split; reflexivity.
Qed.

Lemma check_transitions_from_records ctx ni : forall mask,
  fst (snd (check_transitions_from ctx ni mask))
  = map (fun n => fst (snd (transition ctx n None))) ni.
Proof.
  induction ni as [|n rest IH]; intros mask; simpl; [reflexivity|].
  destruct (transition ctx n mask) as [evs [n' mask1]] eqn:Ht.
  specialize (IH mask1).
  destruct (check_transitions_from ctx rest mask1)
    as [evs' [rest' mask2]].
  simpl in *. rewrite IH. f_equal.
  destruct (transition_mask_free ctx n mask) as [Hrec _].
  rewrite Ht in Hrec. exact Hrec.
Qed.

Lemma read_from_records ctx disk ni : forall x evs ni',
  read_node_blocks_from ctx disk x ni = (evs, Ok ni') ->
  length ni' = length ni
  /\ forall k n, nth_error ni k = Some n ->
       nth_error ni' k = Some (read_result ctx (disk (x + k)%nat) n).
Proof.
  induction ni as [|n0 rest IH]; intros x evs ni' Hrun.
  - injection Hrun as _ <-. split; [reflexivity|].
    intros [|k] n Hn; discriminate.
  - simpl in Hrun.
    apply bind_ok_inv in Hrun as (l & n1 & l' & Hb & Hrest & _).
    apply bind_ok_inv in Hrest as (l2 & rest' & l3 & Hr & Hret & _).
    injection Hret as _ <-.
    destruct (IH (S x) l2 rest' Hr) as [Hlen Hk].
    split; [simpl; congruence|].
    intros [|k] n Hn; simpl in *.
    + injection Hn as <-. rewrite Nat.add_0_r.
      unfold read_result. rewrite Hb. reflexivity.
    + rewrite (Hk k n Hn). do 3 f_equal. lia.
Qed.

Lemma observe_records inp ls l ls1 :
  observe inp ls = (l, Ok ls1) ->
  length (ls_ni ls1) = length (ls_ni ls)
  /\ forall i n, nth_error (ls_ni ls) i = Some n ->
       nth_error (ls_ni ls1) i
       = Some (track (ls_ctx ls) (in_disk inp i) n).
Proof.
  unfold observe. intros Hb.
  apply bind_ok_inv in Hb as (l0 & ni1 & l1 & Hread & Hrest & _).
  pose proof (check_transitions_from_records (ls_ctx ls) ni1 (Some 0))
    as Hrec.
  unfold check_transitions in Hrest. simpl in Hrest.
  destruct (check_transitions_from (ls_ctx ls) ni1 (Some 0))
    as [evs [ni2 mask]].
  injection Hrest as _ <-. simpl in *. subst ni2.
  unfold read_node_blocks in Hread.
  apply read_from_records in Hread as [Hlen Hk].
  split; [rewrite length_map; exact Hlen|].
  intros i n Hn. rewrite nth_error_map, (Hk i n Hn). reflexivity.
Qed.

Lemma track_config c c' rd n :
  same_config c c' -> track c' rd n = track c rd n.
Proof.
  intros (Hid & _ & Htko & Hup & _).
  assert (Hread : read_result c' rd n = read_result c rd n).
  { unfold read_result, read_block, check_self. rewrite Hid.
    reflexivity. }
  unfold track. rewrite Hread. unfold transition, case_evict, case_up.
  rewrite Htko, Hup.
  repeat match goal with
         | |- context [if ?b then _ else _] => destruct b
         end; reflexivity.
Qed.

Lemma track_many_config c c' rds : forall n,
  same_config c c' -> track_many c' rds n = track_many c rds n.
Proof.
  induction rds as [|rd rest IH]; intros n Hc; simpl; [reflexivity|].
  rewrite (track_config c c' rd n Hc). apply IH. exact Hc.
Qed.

Lemma cycle_records inp ls evs ls' out :
  cycle inp ls = (evs, Ok (ls', out)) ->
  length (ls_ni ls') = length (ls_ni ls)
  /\ forall i n, nth_error (ls_ni ls) i = Some n ->
       nth_error (ls_ni ls') i
       = Some (track (ls_ctx ls) (in_disk inp i) n).
Proof.
  intros Hc.
  apply cycle_inv in Hc as (l0 & pre & low & l1 & l2 & Hpre & Hdec & _).
  apply before_decide_inv in Hpre as (ls2 & m & count & Hog & _ & ->).
  apply observe_and_gate_inv in Hog as (e0 & ls1 & e1 & Hobs & Hgate & _).
  apply observe_records in Hobs as [Hlen Hk].
  apply score_gate_frame in Hgate as (_ & Hni2 & _).
  destruct (find_master_frame ls2) as (_ & _ & _ & Hni3 & _).
  set (ls3 := fst (fst (find_master ls2))) in *.
  destruct (resolve_conflict_frame count ls3) as (_ & _ & Hni4 & _).
  destruct (decide_spec inp low (resolve_conflict count ls3))
    as [_ Hspec].
  destruct (Hspec l1 ls' Hdec) as (_ & _ & Hni5 & _).
  rewrite Hni5, Hni4, Hni3, Hni2. auto.
Qed.

Lemma quorum_cycles_records inputs : forall ls evs outs ls',
  quorum_cycles ls inputs = (evs, outs, Ok ls') ->
  length outs = length inputs ->
  length (ls_ni ls') = length (ls_ni ls)
  /\ forall i n, nth_error (ls_ni ls) i = Some n ->
       nth_error (ls_ni ls') i
       = Some (track_many (ls_ctx ls)
                 (map (fun inp => in_disk inp i) inputs) n).
Proof.
  induction inputs as [|inp rest IH]; intros ls evs outs ls' Hq Hlen.
  - injection Hq as _ _ <-. auto.
  - simpl in Hq.
    destruct (cycle inp ls) as [e [[ls1 out]| |]] eqn:Hc;
      try discriminate.
    pose proof (cycle_config _ _ _ _ _ Hc) as Hcfg.
    apply cycle_records in Hc as [Hl1 Hk1].
    destruct (in_running inp).
    + destruct (quorum_cycles ls1 rest) as [[e' outs'] r'] eqn:Hq'.
      injection Hq as _ <- ->. simpl in Hlen.
      destruct (IH ls1 e' outs' ls' Hq') as [Hl Hk]; [lia|].
      split; [congruence|].
      intros i n Hn. simpl.
      rewrite (Hk i _ (Hk1 i n Hn)).
      rewrite (track_many_config (ls_ctx ls) (ls_ctx ls1)); auto.
    + injection Hq as _ <- <-. simpl in Hlen.
      destruct rest; [|simpl in Hlen; lia].
      split; [exact Hl1|]. intros i n Hn. simpl. auto.
Qed.

Lemma quorum_loop_records ctx ni mask0 master_mask0 inputs
    evs outs ls' :
  quorum_loop ctx ni mask0 master_mask0 inputs = (evs, outs, Ok ls') ->
  length outs = length inputs ->
  length (ls_ni ls') = length ni
  /\ forall i n, nth_error ni i = Some n ->
       nth_error (ls_ni ls') i
       = Some (track_many ctx (map (fun inp => in_disk inp i) inputs) n).
Proof.
  unfold quorum_loop. intros Hq Hlen.
  destruct (quorum_cycles_records inputs _ evs outs ls' Hq Hlen)
    as [Hl Hk].
  split; [exact Hl|]. intros i n Hn.
  rewrite (Hk i n Hn). simpl. f_equal.
  apply track_many_config. unfold same_config. simpl. tauto.
Qed.

(** X1. Peers do not interfere: after any number of completed cycles of
    [quorum_loop], record [i] is what repeated tracking makes of its
    initial value and of the blocks read for slot [i]; other slots, the
    score, the local state and the election play no part, and the array
    keeps its length. *)
Theorem records_evolve_independently ctx ni mask0 master_mask0 inputs
    evs outs ls' :
  quorum_loop ctx ni mask0 master_mask0 inputs = (evs, outs, Ok ls') ->
  length outs = length inputs ->
  length (ls_ni ls') = length ni
  /\ forall i n, nth_error ni i = Some n ->
       nth_error (ls_ni ls') i
       = Some (track_many ctx (map (fun inp => in_disk inp i) inputs) n).
Proof.
  apply quorum_loop_records.
Qed.

(** ** Deadlines of the peer tracker *)

Lemma read_result_stale ctx sb n :
  ps_nodeid sb <> qc_my_id ctx ->
  runnable (ps_state sb) = true ->
  ps_timestamp sb = ni_last_seen n ->
  read_result ctx (Some sb) n =
  mk_ni sb (ni_last_seen n) (ni_misses n + 1) (ni_seen n)
        (ni_incarnation n) (ni_evil_incarnation n) (ni_state n)
        (mk_msg (ps_msg sb) (ps_arg sb) (ps_seq sb)) (ni_msg n).
Proof.
  intros Hid Hrun Hts. unfold read_result, read_block.
  apply Z.eqb_neq in Hid. rewrite Hid.
  unfold runnable in Hrun. rewrite Hrun. simpl.
  rewrite Hts, Z.eqb_refl. reflexivity.
Qed.

Lemma read_result_fresh ctx sb n :
  ps_nodeid sb <> qc_my_id ctx ->
  runnable (ps_state sb) = true ->
  ps_timestamp sb <> ni_last_seen n ->
  read_result ctx (Some sb) n =
  mk_ni sb (ps_timestamp sb) 0 (ni_seen n + 1)
        (ni_incarnation n) (ni_evil_incarnation n) (ni_state n)
        (mk_msg (ps_msg sb) (ps_arg sb) (ps_seq sb)) (ni_msg n).
Proof.
  intros Hid Hrun Hts. unfold read_result, read_block.
  apply Z.eqb_neq in Hid. rewrite Hid.
  unfold runnable in Hrun. rewrite Hrun. simpl.
  apply Z.eqb_neq in Hts. rewrite Hts. reflexivity.
Qed.

Lemma runnable_ge state : runnable state = true -> S_INIT <= state.
Proof.
  unfold runnable, truthy, state_run.
  destruct (state >=? S_INIT) eqn:E; [zbool; lia|].
  rewrite Z.eqb_refl. discriminate.
Qed.

Lemma stalled_step ctx sb k n :
  S_EVICT < S_INIT ->
  ps_nodeid sb <> qc_my_id ctx ->
  runnable (ps_state sb) = true ->
  stalled ctx sb k n ->
  stalled ctx sb (k + 1) (track ctx (Some sb) n).
Proof.
  intros Hnum Hid Hrun (Hts & Hinc & Hm & Hearly & Hlate).
  unfold track.
  rewrite (read_result_stale ctx sb n Hid Hrun (eq_sym Hts)).
  set (n1 := mk_ni sb _ _ _ _ _ _ _ _).
  pose proof (runnable_ge _ Hrun) as Hge.
  assert (Hd : case_down n1 = false).
  { unfold case_down. simpl.
    replace (ps_state sb <=? S_EVICT) with false
      by (symmetry; apply Z.leb_gt; lia).
    rewrite andb_false_r. simpl.
    destruct Hinc as [-> | ->]; [reflexivity|].
    rewrite Z.eqb_refl. apply andb_false_r. }
  destruct (Z.le_gt_cases (k + 1) (qc_tko ctx)) as [Hle|Hgt].
  - assert (He : case_evict ctx n1 = false).
    { unfold case_evict. simpl.
      replace (ni_misses n + 1 >? qc_tko ctx) with false;
        [reflexivity|].
      symmetry. rewrite Z.gtb_ltb. apply Z.ltb_ge. lia. }
    destruct Hearly as [Hst Hevil]; [lia|].
    assert (Hu : case_undead n1 = false).
    { unfold case_undead, truthy. simpl.
      destruct Hevil as [-> | Hne]; [reflexivity|].
      apply Z.eqb_neq in Hne. rewrite Hne. apply andb_false_r. }
    assert (Hup : case_up ctx n1 = false).
    { unfold case_up. simpl. unfold runnable in Hst. rewrite Hst.
      apply andb_false_r. }
    unfold transition. rewrite Hd, He, Hu, Hup.
    unfold stalled.
    destruct (case_master n1) eqn:Hcm; simpl.
    + unfold case_master in Hcm. simpl in Hcm. zbool.
      repeat split; auto; try lia.
      rewrite <- H0. exact Hrun.
    + fold (runnable (ni_state n)). rewrite Hst. simpl.
      repeat split; auto; lia.
  - assert (He : case_evict ctx n1 = true).
    { unfold case_evict. simpl. fold (runnable (ps_state sb)).
      rewrite Hrun, andb_true_r, Z.gtb_ltb. apply Z.ltb_lt. lia. }
    unfold transition. rewrite Hd, He. unfold stalled. simpl.
    repeat split; auto; lia.
Qed.

Lemma stalled_many ctx sb : forall j k n,
  S_EVICT < S_INIT ->
  ps_nodeid sb <> qc_my_id ctx ->
  runnable (ps_state sb) = true ->
  stalled ctx sb k n ->
  stalled ctx sb (k + Z.of_nat j)
          (track_many ctx (repeat (Some sb) j) n).
Proof.
  induction j as [|j IH]; intros k n Hnum Hid Hrun Hst.
  - simpl. rewrite Z.add_0_r. exact Hst.
  - cbn [repeat track_many].
    replace (k + Z.of_nat (S j)) with ((k + 1) + Z.of_nat j) by lia.
    apply IH; auto. apply stalled_step; auto.
Qed.

Lemma Forall_map_repeat {A B} (f : A -> B) (b : B) l :
  Forall (fun a => f a = b) l -> map f l = repeat b (length l).
Proof.
  induction 1 as [|a l Ha _ IH]; simpl; [reflexivity|].
  rewrite Ha, IH. reflexivity.
Qed.

(** X2. A peer tracked as running whose block stops changing is kept as
    running for as long as its misses do not exceed [tko], and is marked
    EVICT, with its incarnation remembered as evil, from the cycle in
    which the misses first exceed [tko] on: no sooner, and for as long
    as the block stays as it is.  (The numbering is taken to put EVICT
    below INIT.) *)
Theorem stalled_peer_evicted_after_tko ctx ni mask0 master_mask0 inputs
    evs outs ls' i n sb :
  quorum_loop ctx ni mask0 master_mask0 inputs = (evs, outs, Ok ls') ->
  length outs = length inputs ->
  nth_error ni i = Some n ->
  Forall (fun inp => in_disk inp i = Some sb) inputs ->
  S_EVICT < S_INIT ->
  ps_nodeid sb <> qc_my_id ctx ->
  runnable (ps_state sb) = true ->
  ps_timestamp sb = ni_last_seen n ->
  runnable (ni_state n) = true ->
  ni_incarnation n = 0 \/ ni_incarnation n = ps_incarnation sb ->
  ni_evil_incarnation n = 0
    \/ ni_evil_incarnation n <> ps_incarnation sb ->
  ni_misses n <= qc_tko ctx ->
  exists n',
    nth_error (ls_ni ls') i = Some n'
    /\ ni_misses n' = ni_misses n + Z.of_nat (length inputs)
    /\ (ni_misses n' <= qc_tko ctx -> runnable (ni_state n') = true)
    /\ (qc_tko ctx < ni_misses n' ->
        ni_state n' = S_EVICT
        /\ ni_evil_incarnation n' = ps_incarnation sb).
Proof.
  intros Hq Hlen Hn Hall Hnum Hid Hrun Hts Hst Hinc Hevil Hm.
  destruct (quorum_loop_records ctx ni mask0 master_mask0
              inputs evs outs ls' Hq Hlen) as [_ Hk].
  rewrite (Hk i n Hn).
  rewrite (Forall_map_repeat (fun inp => in_disk inp i) (Some sb) inputs
             Hall).
  eexists. split; [reflexivity|].
  assert (H0 : stalled ctx sb (ni_misses n) n).
  { unfold stalled. repeat split; auto; lia. }
  destruct (stalled_many ctx sb (length inputs) _ n Hnum Hid Hrun H0)
    as (_ & _ & Hmiss & Hearly & Hlate).
  rewrite Hmiss. split; [reflexivity|].
  split; [intros Hle; apply Hearly; exact Hle|exact Hlate].
Qed.

Lemma offline_step ctx inc s b n :
  S_NONE < S_EVICT -> S_NONE < S_INIT -> S_NONE <> S_RUN ->
  0 <= qc_tko ctx ->
  ps_nodeid b <> qc_my_id ctx ->
  runnable (ps_state b) = true ->
  ps_incarnation b = inc ->
  ps_timestamp b <> ni_last_seen n ->
  offline inc s n ->
  let n' := track ctx (Some b) n in
  ni_last_seen n' = ps_timestamp b
  /\ (s + 1 <= qc_tko_up ctx -> offline inc (s + 1) n')
  /\ (qc_tko_up ctx < s + 1 ->
      ni_state n' = S_RUN /\ ni_incarnation n' = inc).
Proof.
  intros Hne Hni Hnr Htko Hid Hrun Hinc Hts (Hst & Hi & Hm & Hs & Hevil).
  unfold track.
  rewrite (read_result_fresh ctx b n Hid Hrun Hts).
  set (n1 := mk_ni b _ _ _ _ _ _ _ _).
  assert (Hd : case_down n1 = false).
  { unfold case_down. simpl. rewrite Hst, Hi.
    replace (S_NONE >=? S_EVICT) with false; [reflexivity|].
    symmetry. rewrite Z.geb_leb. apply Z.leb_gt. exact Hne. }
  assert (He : case_evict ctx n1 = false).
  { unfold case_evict. simpl.
    replace (0 >? qc_tko ctx) with false; [reflexivity|].
    symmetry. rewrite Z.gtb_ltb. apply Z.ltb_ge. exact Htko. }
  assert (Hu : case_undead n1 = false).
  { unfold case_undead, truthy. simpl. rewrite Hinc.
    destruct Hevil as [-> | Hx]; [reflexivity|].
    apply Z.eqb_neq in Hx. rewrite Hx. apply andb_false_r. }
  assert (Hoff : runnable S_NONE = false).
  { unfold runnable, truthy, state_run.
    replace (S_NONE >=? S_INIT) with false; [reflexivity|].
    symmetry. rewrite Z.geb_leb. apply Z.leb_gt. exact Hni. }
  unfold transition. rewrite Hd, He, Hu.
  destruct (Z.le_gt_cases (s + 1) (qc_tko_up ctx)) as [Hle|Hgt].
  - assert (Hup : case_up ctx n1 = false).
    { unfold case_up. simpl.
      replace (ni_seen n + 1 >? qc_tko_up ctx) with false;
        [reflexivity|].
      symmetry. rewrite Z.gtb_ltb. apply Z.ltb_ge. lia. }
    assert (Hcm : case_master n1 = false).
    { unfold case_master. simpl. rewrite Hst.
      apply Z.eqb_neq in Hnr. rewrite Hnr. reflexivity. }
    rewrite Hup, Hcm. simpl. fold (runnable (ni_state n)).
    rewrite Hst, Hoff. simpl. unfold offline. simpl.
    repeat split; auto; lia.
  - assert (Hup : case_up ctx n1 = true).
    { unfold case_up. simpl. fold (runnable (ni_state n)).
      rewrite Hst, Hoff, andb_true_r, Z.gtb_ltb. apply Z.ltb_lt. lia. }
    rewrite Hup. simpl. repeat split; auto; lia.
Qed.

Lemma offline_many ctx inc : forall bs s n,
  S_NONE < S_EVICT -> S_NONE < S_INIT -> S_NONE <> S_RUN ->
  0 <= qc_tko ctx ->
  Forall (fun b => ps_nodeid b <> qc_my_id ctx
                   /\ runnable (ps_state b) = true
                   /\ ps_incarnation b = inc) bs ->
  fresh_from (ni_last_seen n) bs ->
  offline inc s n ->
  s <= qc_tko_up ctx ->
  let n' := track_many ctx (map Some bs) n in
  (s + Z.of_nat (length bs) <= qc_tko_up ctx ->
   offline inc (s + Z.of_nat (length bs)) n')
  /\ (s + Z.of_nat (length bs) = qc_tko_up ctx + 1 ->
      ni_state n' = S_RUN /\ ni_incarnation n' = inc).
Proof.
  induction bs as [|b rest IH];
    intros s n Hne Hni Hnr Htko Hall Hfresh Hoff Hs.
  - simpl. rewrite Z.add_0_r. split; [auto|lia].
  - inversion Hall as [|? ? (Hid & Hrun & Hinc) Hrest]; subst.
    destruct Hfresh as [Hts Hfresh].
    destruct (offline_step ctx (ps_incarnation b) s b n Hne Hni Hnr Htko
                Hid Hrun eq_refl Hts Hoff) as (Hlast & Hearly & Hlate).
    cbn [map track_many length].
    destruct (Z.le_gt_cases (s + 1) (qc_tko_up ctx)) as [Hle|Hgt].
    + rewrite <- Hlast in Hfresh.
      destruct (IH (s + 1) (track ctx (Some b) n) Hne Hni Hnr Htko Hrest
                  Hfresh (Hearly Hle) Hle) as [H1 H2].
      split; intros Hx.
      * replace (s + Z.of_nat (S (length rest)))
          with (s + 1 + Z.of_nat (length rest)) by lia.
        apply H1. lia.
      * apply H2. lia.
    + split; intros Hx; [lia|].
      destruct rest; [|simpl in Hx; lia].
      simpl. apply Hlate. exact Hgt.
Qed.

(** X3. A peer tracked as offline is admitted on the cycle in which its
    count of fresh timestamps first exceeds [tko_up], and not before:
    while the count is at most [tko_up] it stays offline, and with the
    next fresh timestamp it is tracked as RUN under the incarnation of
    its block. *)
Theorem fresh_peer_comes_up_after_tko_up ctx ni mask0 master_mask0 inputs
    evs outs ls' i n bs inc :
  quorum_loop ctx ni mask0 master_mask0 inputs = (evs, outs, Ok ls') ->
  length outs = length inputs ->
  nth_error ni i = Some n ->
  map (fun inp => in_disk inp i) inputs = map Some bs ->
  S_NONE < S_EVICT -> S_NONE < S_INIT -> S_NONE <> S_RUN ->
  0 <= qc_tko ctx ->
  Forall (fun b => ps_nodeid b <> qc_my_id ctx
                   /\ runnable (ps_state b) = true
                   /\ ps_incarnation b = inc) bs ->
  fresh_from (ni_last_seen n) bs ->
  offline inc (ni_seen n) n ->
  ni_seen n <= qc_tko_up ctx ->
  exists n',
    nth_error (ls_ni ls') i = Some n'
    /\ (ni_seen n + Z.of_nat (length bs) <= qc_tko_up ctx ->
        ni_state n' = S_NONE
        /\ ni_seen n' = ni_seen n + Z.of_nat (length bs))
    /\ (ni_seen n + Z.of_nat (length bs) = qc_tko_up ctx + 1 ->
        ni_state n' = S_RUN /\ ni_incarnation n' = inc).
Proof.
  intros Hq Hlen Hn Hmap Hne Hni Hnr Htko Hall Hfresh Hoff Hs.
  destruct (quorum_loop_records ctx ni mask0 master_mask0
              inputs evs outs ls' Hq Hlen) as [_ Hk].
  rewrite (Hk i n Hn), Hmap.
  eexists. split; [reflexivity|].
  destruct (offline_many ctx inc bs (ni_seen n) n Hne Hni Hnr Htko Hall
              Hfresh Hoff Hs) as [Hearly Hlate].
  split; [|exact Hlate].
  intros Hle. destruct (Hearly Hle) as (Hst & _ & _ & Hseen & _). auto.
Qed.

Lemma blank_step ctx rd n :
  S_NONE < S_EVICT -> S_NONE < S_INIT -> S_NONE <> S_RUN ->
  0 <= qc_tko ctx -> 0 <= qc_tko_up ctx ->
  match rd with
  | Some sb => ps_nodeid sb = qc_my_id ctx
  | None => True
  end ->
  blank n ->
  blank (track ctx rd n).
Proof.
  intros Hne Hni Hnr Htko Hup Hrd (Hst & Hi & Hevil & Hm & Hs).
  assert (Hread : blank (read_result ctx rd n)).
  { unfold read_result, read_block. destruct rd as [sb|]; simpl.
    - rewrite Hrd, Z.eqb_refl. rewrite snd_bind.
      destruct (snd (check_self ctx sb)); simpl;
        unfold blank; simpl; auto.
    - unfold blank. auto. }
  destruct Hread as (Hst1 & Hi1 & Hevil1 & Hm1 & Hs1).
  set (n1 := read_result ctx rd n) in *.
  change (track ctx rd n) with (fst (snd (transition ctx n1 None))).
  unfold transition.
  assert (Hd : case_down n1 = false).
  { unfold case_down. rewrite Hst1, Hi1.
    replace (S_NONE >=? S_EVICT) with false; [reflexivity|].
    symmetry. rewrite Z.geb_leb. apply Z.leb_gt. exact Hne. }
  assert (He : case_evict ctx n1 = false).
  { unfold case_evict. rewrite Hm1.
    replace (0 >? qc_tko ctx) with false; [reflexivity|].
    symmetry. rewrite Z.gtb_ltb. apply Z.ltb_ge. exact Htko. }
  assert (Hu : case_undead n1 = false).
  { unfold case_undead. rewrite Hevil1. reflexivity. }
  assert (Hcu : case_up ctx n1 = false).
  { unfold case_up. rewrite Hs1.
    replace (0 >? qc_tko_up ctx) with false; [reflexivity|].
    symmetry. rewrite Z.gtb_ltb. apply Z.ltb_ge. exact Hup. }
  assert (Hcm : case_master n1 = false).
  { unfold case_master. rewrite Hst1.
    apply Z.eqb_neq in Hnr. rewrite Hnr. reflexivity. }
  assert (Hoff : truthy (state_run (ni_state n1)) = false).
  { rewrite Hst1. unfold truthy, state_run.
    replace (S_NONE >=? S_INIT) with false; [reflexivity|].
    symmetry. rewrite Z.geb_leb. apply Z.leb_gt. exact Hni. }
  rewrite Hd, He, Hu, Hcu, Hcm, Hoff. simpl.
  unfold blank. auto.
Qed.

Lemma blank_many ctx : forall rds n,
  S_NONE < S_EVICT -> S_NONE < S_INIT -> S_NONE <> S_RUN ->
  0 <= qc_tko ctx -> 0 <= qc_tko_up ctx ->
  Forall (fun rd => match rd with
                    | Some sb => ps_nodeid sb = qc_my_id ctx
                    | None => True
                    end) rds ->
  blank n ->
  blank (track_many ctx rds n).
Proof.
  induction rds as [|rd rest IH];
    intros n Hne Hni Hnr Htko Hup Hall Hb; simpl; [exact Hb|].
  inversion Hall; subst.
  apply IH; auto. apply blank_step; auto.
Qed.

(** X4. The daemon never tracks itself: a record on which the tracker
    has nothing, and whose slot only ever delivers the node's own block
    (or a failed read), stays that way through any number of cycles; it
    is never tracked alive, so [check_votes] never waits for the node's
    own ACK. *)
Theorem own_record_stays_blank ctx ni mask0 master_mask0 inputs
    evs outs ls' i n :
  quorum_loop ctx ni mask0 master_mask0 inputs = (evs, outs, Ok ls') ->
  length outs = length inputs ->
  nth_error ni i = Some n ->
  S_NONE < S_EVICT -> S_NONE < S_INIT -> S_NONE <> S_RUN ->
  0 <= qc_tko ctx -> 0 <= qc_tko_up ctx ->
  Forall (fun inp => match in_disk inp i with
                     | Some sb => ps_nodeid sb = qc_my_id ctx
                     | None => True
                     end) inputs ->
  blank n ->
  exists n',
    nth_error (ls_ni ls') i = Some n'
    /\ blank n'
    /\ tracked_alive n' = false.
Proof.
  intros Hq Hlen Hn Hne Hni Hnr Htko Hup Hall Hb.
  destruct (quorum_loop_records ctx ni mask0 master_mask0
              inputs evs outs ls' Hq Hlen) as [_ Hk].
  rewrite (Hk i n Hn). eexists. split; [reflexivity|].
  assert (Hb' : blank (track_many ctx
                         (map (fun inp => in_disk inp i) inputs) n)).
  { apply blank_many; auto.
    apply Forall_map. exact Hall. }
  split; [exact Hb'|].
  destruct Hb' as (Hst & _). unfold tracked_alive. rewrite Hst.
  unfold truthy, state_run.
  replace (S_NONE >=? S_INIT) with false; [reflexivity|].
  symmetry. rewrite Z.geb_leb. apply Z.leb_gt. exact Hni.
Qed.

(** ** What [check_transitions] hands on: mask and requests *)

Lemma transition_mask ctx n m :
  snd (snd (transition ctx n (Some m)))
  = Some (if joins ctx n then set_bit m (nodeid n - 1)
          else if case_down n || case_evict ctx n
               then clear_bit m (nodeid n - 1)
               else m).
Proof.
  unfold transition, joins, runnable, nodeid.
  destruct (case_down n); [reflexivity|].
  destruct (case_evict ctx n); [reflexivity|].
  destruct (case_undead n); [reflexivity|].
  destruct (case_up ctx n); [reflexivity|].
  destruct (case_master n); [reflexivity|].
  destruct (truthy (state_run (ni_state n))); reflexivity.
Qed.

Lemma find_none_not_in {A} (f : A -> bool) l :
  (forall a, In a l -> f a = false) -> find f l = None.
Proof.
  induction l as [|a l IH]; intros Hall; simpl; [reflexivity|].
  rewrite (Hall a (or_introl eq_refl)). apply IH.
  intros b Hb. apply Hall. right. exact Hb.
Qed.

Lemma check_transitions_from_mask ctx ni : forall m,
  NoDup (map nodeid ni) ->
  exists m',
    snd (snd (check_transitions_from ctx ni (Some m))) = Some m'
    /\ forall b,
         Z.testbit m' b =
         match find (fun n => nodeid n - 1 =? b) ni with
         | Some n => if joins ctx n then bit_in_range b || Z.testbit m b
                     else if case_down n || case_evict ctx n
                          then negb (bit_in_range b) && Z.testbit m b
                          else Z.testbit m b
         | None => Z.testbit m b
         end.
Proof.
  induction ni as [|n rest IH]; intros m Hnd.
  - exists m. simpl. auto.
  - inversion Hnd as [|? ? Hnotin Hnd']; subst.
    cbn [check_transitions_from].
    pose proof (transition_mask ctx n m) as Hm.
    destruct (transition ctx n (Some m)) as [evs [n' mask1]].
    simpl in Hm. subst mask1.
    set (m1 := if joins ctx n then set_bit m (nodeid n - 1)
               else if case_down n || case_evict ctx n
                    then clear_bit m (nodeid n - 1) else m) in *.
    destruct (IH m1 Hnd') as (m' & Hres & Hbits).
    destruct (check_transitions_from ctx rest (Some m1))
      as [evs' [rest' mask2]].
    simpl in Hres. exists m'. split; [exact Hres|].
    intros b. rewrite Hbits. cbn [find].
    assert (Hm1 : Z.testbit m1 b
                  = if joins ctx n
                    then (bit_in_range (nodeid n - 1)
                          && (nodeid n - 1 =? b)) || Z.testbit m b
                    else if case_down n || case_evict ctx n
                         then negb (bit_in_range (nodeid n - 1)
                                    && (nodeid n - 1 =? b))
                              && Z.testbit m b
                         else Z.testbit m b).
    { subst m1. destruct (joins ctx n); [apply testbit_set_bit|].
      destruct (case_down n || case_evict ctx n);
        [apply testbit_clear_bit|reflexivity]. }
    destruct (nodeid n - 1 =? b) eqn:Hb.
    + apply Z.eqb_eq in Hb.
      rewrite find_none_not_in.
      * rewrite Hm1, Hb, andb_true_r. reflexivity.
      * intros a Ha. apply Z.eqb_neq. intros Heq.
        apply Hnotin. apply in_map_iff. exists a.
        split; [lia|exact Ha].
    + assert (Hsame : Z.testbit m1 b = Z.testbit m b).
      { rewrite Hm1, andb_false_r. simpl.
        destruct (joins ctx n); [reflexivity|].
        destruct (case_down n || case_evict ctx n); reflexivity. }
      rewrite Hsame. reflexivity.
Qed.

Lemma nodup_map_same {A B} (f : A -> B) l a b :
  NoDup (map f l) -> In a l -> In b l -> f a = f b -> a = b.
Proof.
  induction l as [|x l IH]; intros Hnd Ha Hb Hf; [contradiction|].
  inversion Hnd as [|? ? Hnotin Hnd']; subst.
  destruct Ha as [<-|Ha], Hb as [<-|Hb]; auto.
  - exfalso. apply Hnotin. rewrite Hf. apply in_map. exact Hb.
  - exfalso. apply Hnotin. rewrite <- Hf. apply in_map. exact Ha.
Qed.

(** X5. The mask that [check_transitions] computes holds exactly the
    peers that come up, are promoted to master or are tracked as running
    in this cycle, with none of the first three cases applying, as far
    as their node ids have a bit in the mask: a record whose id lies
    outside [1 .. MAX_NODES_DISK] leaves no trace in it.  Nothing of what
    the mask held before survives.  (Node ids in the array are pairwise
    different.) *)
Theorem outgoing_mask_members ctx ni m0 :
  NoDup (map nodeid ni) ->
  exists m,
    snd (snd (check_transitions ctx ni (Some m0))) = Some m
    /\ forall b,
         Z.testbit m b = true
         <-> bit_in_range b = true
             /\ exists n, In n ni /\ nodeid n - 1 = b
                           /\ joins ctx n = true.
Proof.
  intros Hnd. unfold check_transitions. simpl.
  destruct (check_transitions_from_mask ctx ni 0 Hnd)
    as (m & Hres & Hbits).
  exists m. split; [exact Hres|].
  intros b. rewrite Hbits, Z.bits_0.
  destruct (find (fun n => nodeid n - 1 =? b) ni) as [n|] eqn:Hf.
  - apply find_some in Hf as [Hin Hb]. apply Z.eqb_eq in Hb.
    rewrite orb_false_r, andb_false_r.
    split.
    + intros Hj.
      destruct (joins ctx n) eqn:Hjn;
        [|destruct (case_down n || case_evict ctx n); discriminate].
      split; [exact Hj|]. exists n. auto.
    + intros (Hr & n0 & Hin0 & Hb0 & Hj0).
      assert (n0 = n).
      { apply (nodup_map_same nodeid ni); auto. lia. }
      subst n0. rewrite Hj0. exact Hr.
  - split; [discriminate|].
    intros (_ & n0 & Hin0 & Hb0 & _).
    apply (find_none _ _ Hf) in Hin0.
    apply Z.eqb_neq in Hin0. contradiction.
Qed.

Lemma check_transitions_from_events ctx ni : forall mask,
  fst (check_transitions_from ctx ni mask)
  = flat_map (fun n => fst (transition ctx n None)) ni.
Proof.
  induction ni as [|n rest IH]; intros mask; simpl; [reflexivity|].
  destruct (transition_mask_free ctx n mask) as [_ Hev].
  destruct (transition ctx n mask) as [evs [n' mask1]].
  specialize (IH mask1).
  destruct (check_transitions_from ctx rest mask1)
    as [evs' [rest' mask2]].
  simpl in *. rewrite IH, Hev. reflexivity.
Qed.

Lemma transition_events ctx n :
  fst (transition ctx n None) =
  if negb (case_down n)
     && ((case_evict ctx n && (qc_status ctx =? S_MASTER))
         || (negb (case_evict ctx n) && case_undead n))
  then evict_notice (nodeid n) :: kill_if_allowed ctx (nodeid n)
  else [].
Proof.
  unfold transition, nodeid.
  destruct (case_down n); [reflexivity|].
  destruct (case_evict ctx n); simpl.
  - rewrite orb_false_r. destruct (qc_status ctx =? S_MASTER); reflexivity.
  - destruct (case_undead n); [reflexivity|].
    repeat match goal with
           | |- context [if ?b then _ else _] => destruct b
           end; reflexivity.
Qed.

(** X6. [check_transitions] asks the membership service to kill a node
    only when [allow_kill] is set, and only a node to whose slot it
    writes an eviction notice in the same pass; it issues nothing but
    eviction notices and kill requests; and a node that is not master and
    finds no undead peer issues nothing at all. *)
Theorem kill_requests_follow_notices ctx ni mask :
  let evs := fst (check_transitions ctx ni mask) in
  (forall nid,
      In (EKillNode nid) evs ->
      truthy (Z.land (qc_flags ctx) RF_ALLOW_KILL) = true
      /\ In (evict_notice nid) evs)
  /\ (forall e,
         In e evs -> exists nid, e = evict_notice nid \/ e = EKillNode nid)
  /\ (qc_status ctx <> S_MASTER ->
      Forall (fun n => case_undead n = false) ni ->
      evs = []).
Proof.
  unfold check_transitions. simpl.
  rewrite check_transitions_from_events.
  split; [|split].
  - intros nid Hin. apply in_flat_map in Hin as (n & Hn & Hin).
    rewrite transition_events in Hin.
    destruct (negb (case_down n) && _) eqn:Hc; [|contradiction].
    destruct Hin as [Hin|Hin]; [discriminate|].
    unfold kill_if_allowed in Hin.
    destruct (truthy (Z.land (qc_flags ctx) RF_ALLOW_KILL)) eqn:Hk;
      [|contradiction].
    destruct Hin as [Heq|[]]. injection Heq as Heq.
    split; [reflexivity|].
    apply in_flat_map. exists n. split; [exact Hn|].
    rewrite transition_events, Hc, Heq. left. reflexivity.
  - intros e Hin. apply in_flat_map in Hin as (n & Hn & Hin).
    rewrite transition_events in Hin.
    destruct (negb (case_down n) && _); [|contradiction].
    exists (nodeid n). destruct Hin as [<-|Hin]; [auto|].
    right. apply kill_if_allowed_no_write in Hin. exact Hin.
  - intros Hnm Hund.
    induction ni as [|n rest IH]; [reflexivity|].
    inversion Hund as [|? ? Hu Hrest]; subst. cbn [flat_map].
    rewrite (IH Hrest), app_nil_r, transition_events, Hu.
    apply Z.eqb_neq in Hnm. rewrite Hnm.
    rewrite !andb_false_r. reflexivity.
Qed.

(** ** Finding the master *)

Lemma master_exists_from_step ctx n rest r lo c :
  master_exists_from ctx (n :: rest) r lo c =
  if reports_master ctx n then
    master_exists_from ctx rest (if truthy r then r else nodeid n) lo
                       (c + 1)
  else if bid_candidate n then
    master_exists_from ctx rest r
                       (if nodeid n <? lo then nodeid n else lo) c
  else master_exists_from ctx rest r lo c.
Proof.
  cbn [master_exists_from].
  unfold reports_master, bid_candidate, nodeid.
  destruct (ps_state (ni_status n) =? S_MASTER) eqn:Hm;
    destruct (ps_nodeid (ni_status n) =? qc_my_id ctx) eqn:Hid;
    destruct (ni_state n >=? S_RUN) eqn:Hrun;
    destruct (ni_state n <? S_RUN) eqn:Hlt;
    cbn [andb orb negb]; try reflexivity;
    try (apply Z.eqb_eq in Hid; rewrite Hid; reflexivity);
    exfalso; clear Hm Hid; zbool; lia.
Qed.

Lemma master_exists_from_spec ctx ni : forall r lo c,
  let res := master_exists_from ctx ni r lo c in
  snd res = c + Z.of_nat (length (filter (reports_master ctx) ni))
  /\ fst (fst res) = (if truthy r then r else first_master ctx ni)
  /\ snd (fst res) <= lo
  /\ (forall n, In n ni -> bid_candidate n = true ->
        snd (fst res) <= nodeid n)
  /\ (snd (fst res) = lo
      \/ exists n, In n ni /\ bid_candidate n = true
                   /\ nodeid n = snd (fst res)).
Proof.
  induction ni as [|n rest IH]; intros r lo c.
  - simpl. unfold first_master. simpl.
    destruct (truthy r) eqn:Hr; repeat split; auto; try lia.
    unfold truthy in Hr. apply negb_false_iff, Z.eqb_eq in Hr. exact Hr.
  - cbv zeta. rewrite master_exists_from_step.
    unfold first_master. cbn [filter find].
    destruct (reports_master ctx n) eqn:Hrep.
    + destruct (IH (if truthy r then r else nodeid n) lo (c + 1))
        as (Hc & Hr & Hlo & Hall & Hex).
      cbn [length andb]. rewrite Nat2Z.inj_succ.
      split; [lia|]. split.
      { rewrite Hr. destruct (truthy r) eqn:Htr; [rewrite Htr; reflexivity|].
        destruct (truthy (nodeid n)); reflexivity. }
      split; [exact Hlo|]. split.
      { intros n0 [<-|Hin] Hcand; [|auto].
        exfalso. unfold reports_master, bid_candidate in *.
        destruct (ps_state (ni_status n) =? S_MASTER);
          [rewrite andb_false_r in Hcand|]; discriminate. }
      destruct Hex as [Hex|(n0 & Hin & Hcand & Hn0)]; [auto|].
      right. exists n0. auto with datatypes.
    + cbn [andb].
      destruct (bid_candidate n) eqn:Hcand.
      * destruct (IH r (if nodeid n <? lo then nodeid n else lo) c)
          as (Hc & Hr & Hlo & Hall & Hex).
        split; [exact Hc|]. split; [exact Hr|].
        destruct (nodeid n <? lo) eqn:El;
          [apply Z.ltb_lt in El | apply Z.ltb_ge in El].
        -- split; [lia|]. split.
           { intros n0 [<-|Hin] Hc0; [exact Hlo|auto]. }
           destruct Hex as [Hex|(n0 & Hin & Hc0 & Hn0)].
           ++ right. exists n. auto with datatypes.
           ++ right. exists n0. auto with datatypes.
        -- split; [exact Hlo|]. split.
           { intros n0 [<-|Hin] Hc0; [lia|auto]. }
           destruct Hex as [Hex|(n0 & Hin & Hc0 & Hn0)]; [auto|].
           right. exists n0. auto with datatypes.
      * destruct (IH r lo c) as (Hc & Hr & Hlo & Hall & Hex).
        split; [exact Hc|]. split; [exact Hr|]. split; [exact Hlo|].
        split.
        { intros n0 [<-|Hin] Hc0; [congruence|auto]. }
        destruct Hex as [Hex|(n0 & Hin & Hc0 & Hn0)]; [auto|].
        right. exists n0. auto with datatypes.
Qed.

Lemma first_master_zero ctx ni :
  Forall (fun n => nodeid n <> 0) ni ->
  (first_master ctx ni = 0
   <-> length (filter (reports_master ctx) ni) = 0%nat).
Proof.
  unfold first_master. induction 1 as [|n rest Hn _ IH]; simpl.
  - tauto.
  - destruct (reports_master ctx n); simpl.
    + unfold truthy. apply Z.eqb_neq in Hn. rewrite Hn. simpl.
      apply Z.eqb_neq in Hn. split; [contradiction|discriminate].
    + exact IH.
Qed.

(** X7. [master_exists] counts the records that say MASTER and are
    tracked as running or are the node's own, returns the id of the
    first of them in array order (0 when there is none), and leaves in
    [low_id] the lowest id among the node's own and those of the peers
    tracked as running whose block does not say MASTER.  With non-zero
    node ids the return value is 0 exactly when the count is 0. *)
Theorem master_exists_spec ctx ni m low count :
  master_exists ctx ni = (m, low, count) ->
  count = Z.of_nat (length (filter (reports_master ctx) ni))
  /\ m = first_master ctx ni
  /\ low <= qc_my_id ctx
  /\ (forall n, In n ni -> bid_candidate n = true -> low <= nodeid n)
  /\ (low = qc_my_id ctx
      \/ exists n, In n ni /\ bid_candidate n = true /\ nodeid n = low)
  /\ (Forall (fun n => nodeid n <> 0) ni -> (m = 0 <-> count = 0)).
Proof.
  unfold master_exists. intros Hme.
  destruct (master_exists_from_spec ctx ni 0 (qc_my_id ctx) 0)
    as (Hc & Hr & Hlo & Hall & Hex).
  rewrite Hme in *. simpl in *.
  split; [exact Hc|]. split; [exact Hr|]. split; [exact Hlo|].
  split; [exact Hall|]. split; [exact Hex|].
  intros Hnz. rewrite Hr, Hc, (first_master_zero ctx ni Hnz). lia.
Qed.

(** ** Voting *)

Lemma do_vote_find ctx ni msg :
  do_vote ctx ni msg =
  match find (bids_below ctx) ni with
  | Some n => mk_msg M_ACK (nodeid n) (ps_seq (ni_status n))
  | None => msg
  end.
Proof.
  induction ni as [|n rest IH]; simpl; [reflexivity|].
  unfold bids_below at 1. unfold nodeid at 1.
  destruct (ni_state n =? S_RUN); simpl; [|exact IH].
  destruct ((ps_msg (ni_status n) =? M_BID)
            && (ps_nodeid (ni_status n) <? qc_my_id ctx));
    [reflexivity|exact IH].
Qed.

Lemma find_first_sorted {A} (f : A -> bool) (key : A -> Z) l a :
  StronglySorted (fun x y => key x <= key y) l ->
  find f l = Some a ->
  forall b, In b l -> f b = true -> key a <= key b.
Proof.
  induction 1 as [|x l Hs IH Hall]; simpl; [discriminate|].
  destruct (f x) eqn:Hx.
  - intros [= <-] b [<-|Hb] _; [lia|].
    rewrite Forall_forall in Hall. apply Hall. exact Hb.
  - intros Hf b [<-|Hb] Hfb; [congruence|]. apply IH; assumption.
Qed.

(** X8. [do_vote] leaves the message slot alone when no peer tracked as
    RUN is bidding under an id below the node's own; otherwise it
    acknowledges the first such peer of the array, copying the sequence
    number of its bid, which on an array ordered by node id is the one
    with the lowest id.  It never acknowledges an id at or above its
    own. *)
Theorem do_vote_acks_lowest_bidder ctx ni msg :
  (Forall (fun n => bids_below ctx n = false) ni ->
   do_vote ctx ni msg = msg)
  /\ (forall n,
         In n ni -> bids_below ctx n = true ->
         exists w,
           In w ni /\ bids_below ctx w = true
           /\ do_vote ctx ni msg
              = mk_msg M_ACK (nodeid w) (ps_seq (ni_status w))
           /\ nodeid w < qc_my_id ctx
           /\ (StronglySorted (fun x y => nodeid x <= nodeid y) ni ->
               forall n', In n' ni -> bids_below ctx n' = true ->
                          nodeid w <= nodeid n')).
Proof.
  rewrite do_vote_find. split.
  - intros Hall. rewrite find_none_not_in; [reflexivity|].
    rewrite Forall_forall in Hall. exact Hall.
  - intros n Hn Hb.
    destruct (find (bids_below ctx) ni) as [w|] eqn:Hf.
    + pose proof (find_some _ _ Hf) as [Hw Hbw].
      exists w. split; [exact Hw|]. split; [exact Hbw|].
      split; [reflexivity|]. split.
      * unfold bids_below in Hbw. zbool. assumption.
      * intros Hs. apply (find_first_sorted _ nodeid ni w Hs Hf).
    + apply (find_none _ _ Hf) in Hn. congruence.
Qed.

Lemma count_votes_nacks ctx ni : forall v,
  v_nacks (count_votes ctx ni v) =
  v_nacks v
  + Z.of_nat (length (filter (fun n => tracked_alive n && nacked ctx n)
                             ni)).
Proof.
  induction ni as [|n rest IH]; intros v.
  - simpl. lia.
  - cbn [count_votes filter].
    change (truthy (state_run (ni_state n))) with (tracked_alive n).
    destruct (tracked_alive n) eqn:Ha; cbn [andb]; [|apply IH].
    destruct ((ps_msg (ni_status n) =? M_BID)
              && (ps_nodeid (ni_status n) <? v_low_id v));
      rewrite IH; cbn [v_nacks];
      destruct (nacked ctx n); cbn [length];
      rewrite ?Nat2Z.inj_succ; lia.
Qed.

Lemma count_votes_low ctx ni : forall v,
  let v' := count_votes ctx ni v in
  v_low_id v' <= v_low_id v
  /\ (forall n, In n ni -> alive_bidder n = true ->
        v_low_id v' <= nodeid n)
  /\ ((v_low_id v' = v_low_id v /\ v_msg v' = v_msg v)
      \/ (v_low_id v' < v_low_id v
          /\ exists n,
               In n ni /\ alive_bidder n = true
               /\ nodeid n = v_low_id v'
               /\ v_msg v' = mk_msg M_ACK (nodeid n)
                                    (ps_seq (ni_status n)))).
Proof.
  induction ni as [|n rest IH]; intros v.
  - simpl. split; [lia|]. split; [intros n []|]. left. auto.
  - cbv zeta. cbn [count_votes].
    change (truthy (state_run (ni_state n))) with (tracked_alive n).
    unfold alive_bidder, nodeid in *.
    destruct (tracked_alive n) eqn:Ha.
    + destruct (ps_msg (ni_status n) =? M_BID) eqn:Hb; cbn [andb].
      * destruct (ps_nodeid (ni_status n) <? v_low_id v) eqn:Hl;
          [apply Z.ltb_lt in Hl | apply Z.ltb_ge in Hl];
          match goal with
          | |- context [count_votes ctx rest ?v1] =>
              destruct (IH v1) as (Hle & Hall & Hcase)
          end; cbn [v_low_id v_msg] in *.
        -- split; [lia|]. split.
           { intros n0 [<-|Hin] Hn0; [exact Hle|auto]. }
           right. destruct Hcase as [[He Hmsg]|(Hlt & n0 & Hin & Hn0)].
           ++ split; [lia|]. exists n.
              rewrite Ha, Hb, He, Hmsg. auto with datatypes.
           ++ split; [lia|]. exists n0.
              destruct Hn0 as (H1 & H2 & H3). auto with datatypes.
        -- split; [exact Hle|]. split.
           { intros n0 [<-|Hin] Hn0; [lia|auto]. }
           destruct Hcase as [Hsame|(Hlt & n0 & Hin & Hn0)]; [auto|].
           right. split; [exact Hlt|]. exists n0.
           destruct Hn0 as (H1 & H2 & H3). auto with datatypes.
      * match goal with
        | |- context [count_votes ctx rest ?v1] =>
            destruct (IH v1) as (Hle & Hall & Hcase)
        end; cbn [v_low_id v_msg] in *.
        split; [exact Hle|]. split.
        { intros n0 [<-|Hin] Hn0;
            [rewrite Ha, Hb in Hn0; discriminate|auto]. }
        destruct Hcase as [Hsame|(Hlt & n0 & Hin & Hn0)]; [auto|].
        right. split; [exact Hlt|]. exists n0.
        destruct Hn0 as (H1 & H2 & H3). auto with datatypes.
    + destruct (IH v) as (Hle & Hall & Hcase).
      split; [exact Hle|]. split.
      { intros n0 [<-|Hin] Hn0;
          [rewrite Ha in Hn0; discriminate|auto]. }
      destruct Hcase as [Hsame|(Hlt & n0 & Hin & Hn0)]; [auto|].
      right. split; [exact Hlt|]. exists n0.
      destruct Hn0 as (H1 & H2 & H3). auto with datatypes.
Qed.

Lemma filter_length_existsb {A} (f : A -> bool) l :
  length (filter f l) = 0%nat <-> existsb f l = false.
Proof.
  induction l as [|a l IH]; simpl; [tauto|].
  destruct (f a); simpl; [split; discriminate|exact IH].
Qed.

Lemma all_acked_forallb ctx ni :
  all_acked ctx ni
  <-> forallb (fun n => implb (tracked_alive n) (acked ctx n)) ni = true.
Proof.
  unfold all_acked. rewrite forallb_forall, Forall_forall.
  split; intros Hall n Hn; specialize (Hall n Hn).
  - destruct (tracked_alive n); simpl; auto.
  - intros Ha. rewrite Ha in Hall. exact Hall.
Qed.

Lemma lower_bidder_iff ctx ni msg :
  v_low_id (count_votes ctx ni (mk_votes 0 0 0 (qc_my_id ctx) msg))
    <> qc_my_id ctx
  <-> existsb (fun n => alive_bidder n && (nodeid n <? qc_my_id ctx)) ni
      = true.
Proof.
  destruct (count_votes_low ctx ni (mk_votes 0 0 0 (qc_my_id ctx) msg))
    as (Hle & Hall & Hcase).
  cbn [v_low_id v_msg] in *. rewrite existsb_exists. split.
  - intros Hne.
    destruct Hcase as [[He _]|(Hlt & n & Hin & Hb & Hid & _)];
      [contradiction|].
    exists n. split; [exact Hin|]. rewrite Hb. simpl.
    apply Z.ltb_lt. lia.
  - intros (n & Hin & Hn). apply andb_prop in Hn as [Hb Hlt].
    apply Z.ltb_lt in Hlt. specialize (Hall n Hin Hb). lia.
Qed.

(** X9. The return code of [check_votes] in full: 3 when every
    tracked-alive peer has acknowledged this node; else 2 when a
    tracked-alive peer has NACKed it; else 1 when a tracked-alive peer
    with a lower id is bidding; else 0. *)
Theorem check_votes_code ctx ni msg :
  fst (check_votes ctx ni msg) =
  if forallb (fun n => implb (tracked_alive n) (acked ctx n)) ni then 3
  else if existsb (fun n => tracked_alive n && nacked ctx n) ni then 2
  else if existsb (fun n => alive_bidder n && (nodeid n <? qc_my_id ctx))
                  ni then 1
  else 0.
Proof.
  pose proof (check_votes_all_acks ctx ni msg) as H3.
  rewrite all_acked_forallb in H3.
  destruct (forallb _ ni) eqn:Hall.
  - apply H3. reflexivity.
  - unfold check_votes in *. cbn [fst] in *.
    destruct (_ =? _) eqn:Heq; [destruct H3 as [H3 _];
                                 discriminate (H3 eq_refl)|].
    rewrite count_votes_nacks. cbn [v_nacks].
    pose proof (filter_length_existsb
                  (fun n => tracked_alive n && nacked ctx n) ni) as Hn.
    destruct (existsb (fun n => tracked_alive n && nacked ctx n) ni).
    + unfold truthy.
      destruct (0 + Z.of_nat (length (filter _ ni)) =? 0) eqn:E;
        [|reflexivity].
      apply Z.eqb_eq in E. destruct Hn as [Hn _].
      discriminate Hn. lia.
    + destruct Hn as [_ Hn]. rewrite (Hn eq_refl). simpl.
      pose proof (lower_bidder_iff ctx ni msg) as Hl.
      destruct (existsb _ ni).
      * destruct Hl as [_ Hl]. apply Z.eqb_neq in Hl; [|reflexivity].
        rewrite Hl. reflexivity.
      * destruct (_ =? qc_my_id ctx) eqn:E; [reflexivity|].
        apply Z.eqb_neq in E. apply Hl in E. discriminate.
Qed.

(** X10. The message slot as [check_votes] leaves it: untouched when no
    tracked-alive peer bids under an id below this node's; otherwise an
    ACK for the lowest id among the tracked-alive bidders, whatever the
    order of the array, with the sequence number of that bid.  When the
    return code is 3 no tracked-alive peer is bidding at all, and the
    slot is untouched (BID and ACK being different codes). *)
Theorem check_votes_message ctx ni msg :
  (existsb (fun n => alive_bidder n && (nodeid n <? qc_my_id ctx)) ni
   = false ->
   snd (check_votes ctx ni msg) = msg)
  /\ (existsb (fun n => alive_bidder n && (nodeid n <? qc_my_id ctx)) ni
      = true ->
      exists n,
        In n ni /\ alive_bidder n = true /\ nodeid n < qc_my_id ctx
        /\ (forall n', In n' ni -> alive_bidder n' = true ->
                       nodeid n <= nodeid n')
        /\ snd (check_votes ctx ni msg)
           = mk_msg M_ACK (nodeid n) (ps_seq (ni_status n)))
  /\ (M_BID <> M_ACK ->
      fst (check_votes ctx ni msg) = 3 ->
      Forall (fun n => alive_bidder n = false) ni
      /\ snd (check_votes ctx ni msg) = msg).
Proof.
  pose proof (lower_bidder_iff ctx ni msg) as Hl.
  destruct (count_votes_low ctx ni (mk_votes 0 0 0 (qc_my_id ctx) msg))
    as (Hle & Hall & Hcase).
  unfold check_votes. cbn [fst snd v_low_id v_msg] in *.
  split; [|split].
  - intros Hnone.
    destruct Hcase as [[_ Hmsg]|(Hlt & _)]; [exact Hmsg|].
    exfalso. rewrite Hnone in Hl.
    assert (Hne : v_low_id (count_votes ctx ni
                    (mk_votes 0 0 0 (qc_my_id ctx) msg)) <> qc_my_id ctx)
      by lia.
    apply Hl in Hne. discriminate.
  - intros Hsome. rewrite Hsome in Hl.
    destruct Hl as [_ Hl]. specialize (Hl eq_refl).
    destruct Hcase as [[He _]|(Hlt & n & Hin & Hb & Hid & Hmsg)];
      [contradiction|].
    exists n. split; [exact Hin|]. split; [exact Hb|].
    split; [lia|]. split; [|exact Hmsg].
    intros n' Hin' Hb'. rewrite Hid. apply Hall; assumption.
  - intros Hba H3.
    assert (Hacked : all_acked ctx ni).
    { apply (check_votes_all_acks ctx ni msg). exact H3. }
    assert (Hno : Forall (fun n => alive_bidder n = false) ni).
    { unfold all_acked in Hacked. rewrite Forall_forall in *.
      intros n Hn. specialize (Hacked n Hn). unfold alive_bidder.
      destruct (tracked_alive n); [|reflexivity].
      specialize (Hacked eq_refl). unfold acked in Hacked.
      apply andb_prop in Hacked as [Hack _]. apply Z.eqb_eq in Hack.
      simpl. apply Z.eqb_neq. congruence. }
    split; [exact Hno|].
    destruct Hcase as [[_ Hmsg]|(_ & n & Hin & Hb & _)]; [exact Hmsg|].
    rewrite Forall_forall in Hno. rewrite (Hno n Hin) in Hb.
    discriminate.
Qed.

(** ** Membership and the master's mask *)



(** X12. [_cmp_tv] answers 1 when its first argument is the earlier time,
    -1 when it is the later, 0 when the two are equal (for times with the
    microseconds in range); swapping the arguments flips the sign. *)
Theorem cmp_tv_order a b :
  _cmp_tv b a = - _cmp_tv a b
  /\ (tv_normal a -> tv_normal b ->
      (_cmp_tv a b = 1 <-> tv_usecs a < tv_usecs b)
      /\ (_cmp_tv a b = -1 <-> tv_usecs b < tv_usecs a)
      /\ (_cmp_tv a b = 0 <-> a = b)).
Proof.
  unfold _cmp_tv, tv_normal, tv_usecs.
  destruct a as [sa ua], b as [sb ub]. simpl.
  rewrite !Z.gtb_ltb.
  destruct (sb <? sa) eqn:E1, (sa <? sb) eqn:E2;
    destruct (ub <? ua) eqn:E3, (ua <? ub) eqn:E4;
    zbool; try lia;
    (split; [reflexivity|]); intros Ha Hb;
    (split; [split; intros Hx; try discriminate; lia|]);
    (split; [split; intros Hx; try discriminate; lia|]);
    split; intros Hx; try discriminate; try lia;
    try (injection Hx as Hs Hu; lia).
  f_equal; lia.
Qed.

(** ** Where a reboot can come from *)

Lemma check_self_rebooted ctx sb :
  snd (check_self ctx sb) = Rebooted ->
  ps_updatenode sb <> 0 /\ ps_updatenode sb <> qc_my_id ctx
  /\ ps_state sb = S_EVICT.
Proof.
  unfold check_self.
  destruct (ps_updatenode sb =? 0) eqn:Hz;
    destruct (ps_updatenode sb =? qc_my_id ctx) eqn:Hme; simpl;
    try discriminate.
  destruct (ps_state sb =? S_EVICT) eqn:Hst; simpl; try discriminate.
  zbool. auto.
Qed.

Lemma read_block_rebooted ctx rd n :
  snd (read_block ctx rd n) = Rebooted ->
  exists sb, rd = Some sb /\ evicts_self ctx sb.
Proof.
  unfold read_block. destruct rd as [sb|]; [|discriminate].
  destruct (ps_nodeid sb =? qc_my_id ctx) eqn:Hid.
  - rewrite snd_bind.
    destruct (snd (check_self ctx sb)) eqn:Hc; simpl; try discriminate.
    intros _. apply check_self_rebooted in Hc. zbool.
    exists sb. unfold evicts_self. tauto.
  - destruct (negb _); [simpl; discriminate|].
    destruct (ps_timestamp sb =? ni_last_seen n); simpl; discriminate.
Qed.

Lemma read_from_rebooted ctx disk ni : forall x,
  snd (read_node_blocks_from ctx disk x ni) = Rebooted ->
  exists k sb,
    (k < length ni)%nat /\ disk (x + k)%nat = Some sb
    /\ evicts_self ctx sb.
Proof.
  induction ni as [|n rest IH]; intros x; simpl; [discriminate|].
  rewrite snd_bind.
  destruct (snd (read_block ctx (disk x) n)) eqn:Hb; simpl.
  - rewrite snd_bind.
    destruct (snd (read_node_blocks_from ctx disk (S x) rest)) eqn:Hr;
      simpl; try discriminate.
    intros _. destruct (IH (S x) Hr) as (k & sb & Hk & Hd & He).
    exists (S k), sb. split; [lia|]. split; [|exact He].
    rewrite <- Hd. f_equal. lia.
  - intros _. apply read_block_rebooted in Hb as (sb & Hd & He).
    exists 0%nat, sb. split; [lia|]. rewrite Nat.add_0_r. auto.
  - discriminate.
Qed.

Lemma observe_rebooted inp ls :
  snd (observe inp ls) = Rebooted ->
  exists k sb,
    (k < length (ls_ni ls))%nat /\ in_disk inp k = Some sb
    /\ evicts_self (ls_ctx ls) sb.
Proof.
  unfold observe. rewrite snd_bind.
  destruct (snd (read_node_blocks (ls_ctx ls) (in_disk inp) (ls_ni ls)))
    eqn:Hr; simpl.
  - destruct (check_transitions _ _ _) as [evs [ni2 mask]]. discriminate.
  - intros _. unfold read_node_blocks in Hr.
    apply read_from_rebooted in Hr. exact Hr.
  - discriminate.
Qed.

Lemma score_gate_rebooted inp ls :
  snd (score_gate inp ls) = Rebooted ->
  truthy (Z.land (qc_flags (ls_ctx ls)) RF_REBOOT) = true
  /\ in_score inp < score_req_of (ls_ctx ls) (in_score_max inp)
  /\ S_NONE < qc_status (ls_ctx ls).
Proof.
  unfold score_gate.
  destruct (in_score inp <? _) eqn:Hlow.
  - destruct (qc_status (ls_ctx ls) >? S_NONE) eqn:Hup;
      [|discriminate].
    destruct (truthy (Z.land (qc_flags (ls_ctx ls)) RF_REBOOT)) eqn:Hf.
    + intros _. zbool. auto.
    + destruct (in_cman_alive inp <? 0); simpl; discriminate.
  - destruct (qc_status (ls_ctx ls) =? S_NONE); discriminate.
Qed.

(** X13. A cycle of the main loop ends in a reboot for one of three
    reasons only: the node read its own block with an eviction written by
    another node; its score fell below the required score while it was
    above state NONE and [reboot] is set; or the cycle overran
    [maxtime] with [paranoid] set and [debug] not set, [maxtime] being
    the product [interval * tko] as the machine forms it, in an [int]. *)
Theorem cycle_reboot_sources inp ls :
  snd (cycle inp ls) = Rebooted ->
  (exists k sb,
      (k < length (ls_ni ls))%nat /\ in_disk inp k = Some sb
      /\ evicts_self (ls_ctx ls) sb)
  \/ (truthy (Z.land (qc_flags (ls_ctx ls)) RF_REBOOT) = true
      /\ in_score inp < score_req_of (ls_ctx ls) (in_score_max inp)
      /\ S_NONE < qc_status (ls_ctx ls))
  \/ overrun_reboot (ls_ctx ls)
       (_diff_tv (in_oldtime inp) (in_newtime inp)) = true.
Proof.
  unfold cycle. rewrite snd_bind.
  destruct (before_decide inp ls) as [l0 [[pre low]| |]] eqn:Hpre; simpl.
  - apply before_decide_frame in Hpre as (Hcfg & _).
    rewrite snd_bind.
    destruct (decide_spec inp low pre) as [Hnr Hspec].
    destruct (decide inp low pre) as [l1 [ls5| |]] eqn:Hdec; simpl.
    + destruct (Hspec l1 ls5 eq_refl) as (Hcfg5 & _).
      rewrite snd_bind.
      destruct (snd (finish inp ls5)) eqn:Hfin; simpl; try discriminate.
      intros _. right. right. apply finish_rebooted in Hfin.
      rewrite <- (overrun_reboot_config (ls_ctx ls) (ls_ctx ls5));
        eauto using same_config_trans.
    + intros _. exfalso. apply Hnr. reflexivity.
    + discriminate.
  - intros _. unfold before_decide in Hpre.
    assert (Hog : snd (observe_and_gate inp ls) = Rebooted).
    { destruct (observe_and_gate inp ls) as [l [ls2| |]] eqn:Hog;
        [|reflexivity|discriminate].
      exfalso. unfold bind in Hpre.
      destruct (find_master ls2) as [[ls3 lo] c]. discriminate. }
    unfold observe_and_gate in Hog. rewrite snd_bind in Hog.
    destruct (observe inp ls) as [e0 [ls1| |]] eqn:Hobs; simpl in Hog.
    + apply observe_frame in Hobs as (Hctx & _).
      apply score_gate_rebooted in Hog. rewrite Hctx in Hog. auto.
    + left. apply observe_rebooted. rewrite Hobs. reflexivity.
    + discriminate.
  - discriminate.
Qed.

(** ** The trace of a cycle and of a run *)

Lemma cycle_to_write inp ls :
  cycle inp ls
  = (s <- to_write inp ls ;; out <- finish inp s ;; ret (s, out)).
Proof.
  unfold cycle, to_write. rewrite bind_assoc. reflexivity.
Qed.

Lemma cycle_ok_to_write inp ls evs ls' out :
  cycle inp ls = (evs, Ok (ls', out)) ->
  exists l, to_write inp ls = (l, Ok ls').
Proof.
  intros Hc.
  apply cycle_inv in Hc as (l0 & pre & low & l1 & l2 & Hpre & Hdec & _).
  exists (l0 ++ l1). unfold to_write.
  rewrite (bind_ok _ _ l0 (pre, low) Hpre). simpl. rewrite Hdec.
  reflexivity.
Qed.

Lemma own_writes_app l1 l2 :
  own_writes (l1 ++ l2) = own_writes l1 ++ own_writes l2.
Proof.
  induction l1 as [|e l1 IH]; simpl; [reflexivity|].
  destruct (own_write e); simpl; rewrite IH; reflexivity.
Qed.

Lemma own_writes_quiet l :
  Forall (fun e => own_write e = None) l -> own_writes l = [].
Proof.
  induction 1 as [|e l He _ IH]; simpl; [reflexivity|].
  rewrite He. exact IH.
Qed.

Lemma skip_quiet q : forall rest pre e post,
  Forall (fun e => own_write e = None) q ->
  q ++ rest = pre ++ e :: post ->
  own_write e <> None ->
  exists pre', pre = q ++ pre' /\ rest = pre' ++ e :: post.
Proof.
  induction q as [|x q IH]; intros rest pre e post Hq Heq He.
  - exists pre. auto.
  - inversion Hq as [|? ? Hx Hq']; subst.
    destruct pre as [|y pre]; simpl in Heq; injection Heq as Hxy Heq.
    + subst x. contradiction.
    + subst y.
      destruct (IH rest pre e post Hq' Heq He) as (pre' & -> & Hr).
      exists pre'. auto.
Qed.

Lemma read_block_quiet ctx rd n :
  Forall (fun e => own_write e = None) (fst (read_block ctx rd n)).
Proof.
  unfold read_block, check_self. destruct rd as [sb|]; [|constructor].
  destruct (ps_nodeid sb =? qc_my_id ctx).
  - destruct (_ || _); [|destruct (ps_state sb =? S_EVICT)]; simpl;
      repeat constructor.
  - destruct (negb _); [|destruct (_ =? _)]; constructor.
Qed.

Lemma read_from_quiet ctx disk ni : forall x,
  Forall (fun e => own_write e = None)
         (fst (read_node_blocks_from ctx disk x ni)).
Proof.
  induction ni as [|n rest IH]; intros x; cbn [read_node_blocks_from];
    [constructor|].
  apply bind_events; [apply read_block_quiet|].
  intros n'. apply bind_events; [apply IH|]. intros rest'. constructor.
Qed.

Lemma check_transitions_quiet ctx ni mask :
  Forall (fun e => own_write e = None)
         (fst (check_transitions ctx ni mask)).
Proof.
  unfold check_transitions. rewrite check_transitions_from_events.
  induction ni as [|n rest IH]; cbn [flat_map]; [constructor|].
  apply Forall_app. split; [|exact IH].
  rewrite transition_events.
  destruct (_ && _); [|constructor].
  constructor; [reflexivity|].
  unfold kill_if_allowed. destruct (truthy _); repeat constructor.
Qed.

Lemma observe_quiet inp ls :
  Forall (fun e => own_write e = None) (fst (observe inp ls)).
Proof.
  unfold observe. apply bind_events; [apply read_from_quiet|].
  intros ni1.
  pose proof (check_transitions_quiet (ls_ctx ls) ni1
                (Some (ls_mask ls))) as H.
  destruct (check_transitions _ _ _) as [evs [ni2 mask]]. exact H.
Qed.

Lemma score_gate_quiet inp ls :
  Forall (fun e => own_write e = None) (fst (score_gate inp ls)).
Proof.
  unfold score_gate.
  repeat match goal with
         | |- context [if ?b then _ else _] => destruct b
         end; simpl; repeat constructor.
Qed.

Lemma decide_quiet inp low ls :
  Forall (fun e => own_write e = None) (fst (decide inp low ls)).
Proof.
  unfold decide.
  destruct (check_votes (ls_ctx ls) (ls_ni ls) (ls_msg ls))
    as [code msg1].
  repeat match goal with
         | |- context [if ?b then _ else _] => destruct b
         end; simpl; repeat constructor.
Qed.

Lemma to_write_quiet inp ls :
  Forall (fun e => own_write e = None) (fst (to_write inp ls)).
Proof.
  unfold to_write, before_decide, observe_and_gate.
  apply bind_events; [|intros pre; apply decide_quiet].
  apply bind_events.
  - apply bind_events; [apply observe_quiet|].
    intros ls1. apply score_gate_quiet.
  - intros ls2. destruct (find_master ls2) as [[ls3 lo] c]. constructor.
Qed.

Lemma finish_shape inp ls :
  exists tail,
    fst (finish inp ls) = write_of ls :: report_of inp ls :: tail
    /\ Forall (fun e => own_write e = None) tail
    /\ (snd (finish inp ls) = Rebooted
        \/ exists out, snd (finish inp ls) = Ok out).
Proof.
  unfold finish, write_of, report_of.
  destruct (overrun_reboot _ _); destruct (in_running inp); simpl;
    eexists; (split; [reflexivity|]); (split; [repeat constructor|]);
    eauto.
Qed.

(** A cycle that is cut short before its write leaves no write with a
    message; one that gets there leaves exactly one, followed at once by
    the local status report, and then completes or reboots. *)
Lemma cycle_shape inp ls :
  match snd (to_write inp ls) with
  | Ok s =>
    exists tail,
      fst (cycle inp ls)
      = fst (to_write inp ls) ++ write_of s :: report_of inp s :: tail
      /\ Forall (fun e => own_write e = None) tail
      /\ (snd (cycle inp ls) = Rebooted
          \/ exists out, snd (cycle inp ls) = Ok (s, out))
  | Rebooted => cycle inp ls = (fst (to_write inp ls), Rebooted)
  | Halted => cycle inp ls = (fst (to_write inp ls), Halted)
  end.
Proof.
  rewrite cycle_to_write.
  destruct (to_write inp ls) as [l [s| |]]; simpl; try reflexivity.
  destruct (finish_shape inp s) as (tail & Hf & Ht & Hr).
  destruct (finish inp s) as [lf rf]. simpl in Hf, Hr. subst lf.
  exists tail.
  destruct Hr as [->|[out ->]]; simpl.
  - split; [reflexivity|]. split; [exact Ht|]. left. reflexivity.
  - rewrite app_nil_r. split; [reflexivity|]. split; [exact Ht|].
    right. exists out. reflexivity.
Qed.

Lemma cycle_write_at inp ls e' pre E post :
  own_write E <> None ->
  fst (cycle inp ls) ++ e' = pre ++ E :: post ->
  (exists l s post',
      to_write inp ls = (l, Ok s) /\ E = write_of s
      /\ post = report_of inp s :: post')
  \/ (exists p, e' = p ++ E :: post).
Proof.
  intros HE Heq.
  pose proof (to_write_quiet inp ls) as Hq.
  pose proof (cycle_shape inp ls) as Hs.
  destruct (to_write inp ls) as [l [s| |]] eqn:Htw; simpl in Hq, Hs.
  - destruct Hs as (tail & Hf & Ht & _). rewrite Hf in Heq.
    rewrite <- app_assoc in Heq. simpl in Heq.
    apply skip_quiet in Heq as (pre' & -> & Heq); [|exact Hq|exact HE].
    destruct pre' as [|x pre']; simpl in Heq; injection Heq as Hx Heq.
    + left. exists l, s, (tail ++ e'). auto.
    + right.
      change (report_of inp s :: tail ++ e')
        with ((report_of inp s :: tail) ++ e') in Heq.
      apply skip_quiet in Heq as (p & _ & Heq);
        [|constructor; [reflexivity|exact Ht]|exact HE].
      exists p. exact Heq.
  - rewrite Hs in Heq. simpl in Heq.
    apply skip_quiet in Heq as (p & _ & Heq); [|exact Hq|exact HE].
    right. exists p. exact Heq.
  - rewrite Hs in Heq. simpl in Heq.
    apply skip_quiet in Heq as (p & _ & Heq); [|exact Hq|exact HE].
    right. exists p. exact Heq.
Qed.

Lemma cycle_own_writes inp ls :
  own_writes (fst (cycle inp ls)) =
  match snd (to_write inp ls) with
  | Ok s => [(qc_status (ls_ctx s), ls_msg s)]
  | _ => []
  end.
Proof.
  pose proof (to_write_quiet inp ls) as Hq.
  pose proof (cycle_shape inp ls) as Hs.
  destruct (snd (to_write inp ls)) as [s| |].
  - destruct Hs as (tail & -> & Ht & _).
    rewrite own_writes_app, (own_writes_quiet _ Hq).
    unfold write_of, report_of. cbn [own_writes own_write app].
    rewrite (own_writes_quiet _ Ht). reflexivity.
  - rewrite Hs. apply own_writes_quiet. exact Hq.
  - rewrite Hs. apply own_writes_quiet. exact Hq.
Qed.

(** Every write with a message in the trace of a run is the write of
    one of its cycles, started in a state that an invariant of the loop
    holds of, and is followed at once by the report of that cycle. *)
Lemma run_write_at (Inv : loop_state -> Prop) :
  (forall inp ls l s, Inv ls -> to_write inp ls = (l, Ok s) -> Inv s) ->
  forall inputs ls evs outs r,
    Inv ls ->
    quorum_cycles ls inputs = (evs, outs, r) ->
    forall pre E post,
      own_write E <> None ->
      evs = pre ++ E :: post ->
      exists inp ls0 l s post',
        In inp inputs /\ Inv ls0 /\ to_write inp ls0 = (l, Ok s)
        /\ E = write_of s /\ post = report_of inp s :: post'.
Proof.
  intros Hstep.
  induction inputs as [|inp rest IH];
    intros ls evs outs r HI Hq pre E post HE Hev.
  - injection Hq as <- _ _. destruct pre; discriminate.
  - simpl in Hq.
    assert (Hlast :
              fst (cycle inp ls) = pre ++ E :: post ->
              exists inp0 ls0 l s post',
                In inp0 (inp :: rest) /\ Inv ls0
                /\ to_write inp0 ls0 = (l, Ok s)
                /\ E = write_of s /\ post = report_of inp0 s :: post').
    { intros Hc.
      destruct (cycle_write_at inp ls [] pre E post HE)
        as [(l & s & post' & Htw & HEq & Hpost)|(p & Hp)].
      - rewrite app_nil_r. exact Hc.
      - exists inp, ls, l, s, post'.
        split; [left; reflexivity|]. auto.
      - destruct p; discriminate. }
    destruct (cycle inp ls) as [e [[ls' out]| |]] eqn:Hc.
    + destruct (cycle_ok_to_write _ _ _ _ _ Hc) as [l0 Htw].
      destruct (in_running inp).
      * destruct (quorum_cycles ls' rest) as [[e' outs'] r'] eqn:Hq'.
        injection Hq as <- _ _.
        destruct (cycle_write_at inp ls e' pre E post HE)
          as [(l & s & post' & Htw' & HEq & Hpost)|(p & Hp)].
        { rewrite Hc. simpl. exact Hev. }
        -- exists inp, ls, l, s, post'.
           split; [left; reflexivity|]. auto.
        -- destruct (IH ls' e' outs' r' (Hstep _ _ _ _ HI Htw) Hq'
                       p E post HE Hp)
             as (inp' & ls0 & l & s & post' & Hin & H).
           exists inp', ls0, l, s, post'.
           split; [right; exact Hin|exact H].
      * injection Hq as <- _ _. apply Hlast. simpl. exact Hev.
    + injection Hq as <- _ _. apply Hlast. simpl. exact Hev.
    + injection Hq as <- _ _. apply Hlast. simpl. exact Hev.
Qed.

(** The writes with a message in the trace of a run are, in order, the
    writes of its successive cycles, as far as they got to their write. *)
Lemma run_reached inputs : forall ls evs outs r,
  quorum_cycles ls inputs = (evs, outs, r) ->
  exists states,
    reached ls inputs states
    /\ own_writes evs
       = map (fun s => (qc_status (ls_ctx s), ls_msg s)) states.
Proof.
  induction inputs as [|inp rest IH]; intros ls evs outs r Hq.
  - injection Hq as <- _ _. exists []. split; [exact Logic.I|reflexivity].
  - simpl in Hq. pose proof (cycle_own_writes inp ls) as Hw.
    assert (Hlast :
              exists states,
                reached ls (inp :: rest) states
                /\ own_writes (fst (cycle inp ls))
                   = map (fun s => (qc_status (ls_ctx s), ls_msg s))
                         states).
    { destruct (to_write inp ls) as [l [s| |]] eqn:Htw; simpl in Hw.
      - exists [s]. split; [|exact Hw]. simpl.
        split; [exists l; exact Htw|exact Logic.I].
      - exists []. split; [exact Logic.I|exact Hw].
      - exists []. split; [exact Logic.I|exact Hw]. }
    destruct (cycle inp ls) as [e [[ls' out]| |]] eqn:Hc;
      try (injection Hq as <- _ _; exact Hlast).
    destruct (in_running inp); [|injection Hq as <- _ _; exact Hlast].
    destruct (cycle_ok_to_write _ _ _ _ _ Hc) as [l0 Htw].
    rewrite Htw in Hw. simpl in Hw.
    destruct (quorum_cycles ls' rest) as [[e' outs'] r'] eqn:Hq'.
    injection Hq as <- _ _.
    destruct (IH ls' e' outs' r' Hq') as (states & Hr & Hws).
    exists (ls' :: states). split.
    + simpl. split; [exists l0; exact Htw|exact Hr].
    + rewrite own_writes_app, Hw, Hws. reflexivity.
Qed.

(** C1. In every cycle of [quorum_loop] whose sampled score is below the
    required score ([min_score] when positive, else [max_score/2 + 1]),
    the state written to the node's own block is NONE, hence neither RUN
    nor MASTER, and the written mask has the node's own bit cleared.
    Stated on the trace of a run, however the run ends: every status
    write that carries a message is the write of the node's own block in
    a cycle of the run; it is followed at once by the local status report
    of that cycle, which carries the score sampled in it and the required
    score; and when that score is below the required score, the state
    written is NONE and the own bit of the written mask is clear.  The
    write of a cycle that is then cut short by the reboot on an overrun
    is one of them. *)
Theorem insufficient_score_writes_none ctx ni mask0 master_mask0 inputs :
  S_NONE < S_RUN -> S_NONE < S_MASTER ->
  forall pre nid st msg mask master_mask post,
    fst (fst (quorum_loop ctx ni mask0 master_mask0 inputs))
    = pre ++ EWriteStatus nid st (Some msg) mask master_mask :: post ->
    exists inp m post',
      In inp inputs
      /\ nid = qc_my_id ctx
      /\ mask = Some m
      /\ post = ELocalStatus (in_score inp)
                             (score_req_of ctx (in_score_max inp))
                             (in_score_max inp) :: post'
      /\ (in_score inp < score_req_of ctx (in_score_max inp) ->
          st = S_NONE /\ st <> S_RUN /\ st <> S_MASTER
          /\ is_bit_set m (qc_my_id ctx - 1) = false).
Proof.
  intros Hnr Hnm pre nid st msg mask master_mask post. unfold quorum_loop.
  destruct (quorum_cycles (loop_init ctx ni mask0 master_mask0) inputs)
    as [[evs outs] r] eqn:Hq.
  cbn [fst]. intros Hev.
  destruct (run_write_at
              (fun ls => loop_inv ls /\ same_config ctx (ls_ctx ls)))
    with (inputs := inputs)
         (ls := loop_init ctx ni mask0 master_mask0)
         (evs := evs) (outs := outs) (r := r) (pre := pre)
         (E := EWriteStatus nid st (Some msg) mask master_mask)
         (post := post)
    as (inp & ls0 & l & s & post' & Hin & [Hinv Hcfg] & Htw & HE & Hpost).
  - intros inp ls l s [Hinv Hcfg] Htw.
    destruct (to_write_spec inp ls l s Hnr Hnm Hinv Htw)
      as (Hinv' & Hcfg' & _).
    split; [exact Hinv'|]. eapply same_config_trans; eauto.
  - split; [|apply same_config_status].
    unfold loop_inv, loop_init. simpl. split; [auto|]. split; [lia|].
    intros Hne. contradiction Hne. reflexivity.
  - exact Hq.
  - discriminate.
  - exact Hev.
  - destruct (to_write_spec inp ls0 l s Hnr Hnm Hinv Htw)
      as (_ & Hcfg' & Hlow).
    assert (Hcs : same_config ctx (ls_ctx s))
      by (eapply same_config_trans; eauto).
    pose proof Hcs as (Hid & _).
    pose proof Hcfg as (Hid0 & _).
    unfold write_of in HE. injection HE as -> -> _ -> _.
    exists inp, (ls_mask s), post'.
    split; [exact Hin|]. split; [exact Hid|]. split; [reflexivity|].
    split.
    { rewrite Hpost. unfold report_of.
      rewrite (score_req_of_config _ _ _ Hcs). reflexivity. }
    intros Hlt.
    rewrite <- (score_req_of_config _ _ _ Hcfg) in Hlt.
    destruct (Hlow Hlt) as (Hs & Hbit).
    rewrite Hs, <- Hid0. repeat split; auto; lia.
Qed.

(** ** Bidding *)

Lemma do_vote_msg ctx ni msg :
  do_vote ctx ni msg = msg \/ m_msg (do_vote ctx ni msg) = M_ACK.
Proof.
  rewrite do_vote_find. destruct (find _ ni); auto.
Qed.

Lemma check_votes_rescind ctx ni msg :
  fst (check_votes ctx ni msg) = 1 ->
  m_msg (snd (check_votes ctx ni msg)) = M_ACK.
Proof.
  destruct (count_votes_low ctx ni (mk_votes 0 0 0 (qc_my_id ctx) msg))
    as (_ & _ & Hcase).
  unfold check_votes. cbn [fst snd v_low_id v_msg] in *. intros Hcode.
  destruct Hcase as [[He _]|(_ & n & _ & _ & _ & ->)]; [|reflexivity].
  exfalso. rewrite He, Z.eqb_refl in Hcode. cbn [negb] in Hcode.
  destruct (_ =? _) in Hcode; [discriminate|].
  destruct (truthy _) in Hcode; discriminate.
Qed.

Lemma score_gate_detail inp ls l ls' :
  score_gate inp ls = (l, Ok ls') ->
  let u := if ls_upgrade ls >? 0 then ls_upgrade ls - 1
           else ls_upgrade ls in
  (qc_status (ls_ctx ls') = S_NONE /\ m_msg (ls_msg ls') = M_NONE
   /\ ls_bid_pending ls' = 0 /\ ls_upgrade ls' = u)
  \/ (qc_status (ls_ctx ls) = S_NONE /\ qc_status (ls_ctx ls') = S_RUN
      /\ m_msg (ls_msg ls') = M_NONE /\ ls_bid_pending ls' = 0
      /\ ls_upgrade ls' = qc_upgrade_wait (ls_ctx ls))
  \/ (qc_status (ls_ctx ls') = qc_status (ls_ctx ls)
      /\ ls_msg ls' = ls_msg ls
      /\ ls_bid_pending ls' = ls_bid_pending ls /\ ls_upgrade ls' = u).
Proof.
  unfold score_gate. intros Hg.
  destruct (in_score inp <? _).
  - destruct (qc_status (ls_ctx ls) >? S_NONE).
    + left. destruct (in_cman_alive inp <? 0);
        destruct (truthy (Z.land _ RF_REBOOT)); simpl in Hg;
        try discriminate; injection Hg as _ <-; simpl; auto.
    + right. right. injection Hg as _ <-. simpl. auto.
  - destruct (qc_status (ls_ctx ls) =? S_NONE) eqn:Hn;
      injection Hg as _ <-; simpl.
    + right. left. zbool. auto.
    + right. right. auto.
Qed.

Lemma decide_bid inp low ls l ls' :
  M_BID <> M_NONE -> M_BID <> M_ACK ->
  0 <= ls_bid_pending ls ->
  (m_msg (ls_msg ls) = M_BID -> ls_bid_pending ls <> 0) ->
  decide inp low ls = (l, Ok ls') ->
  ls_upgrade ls' = ls_upgrade ls
  /\ (m_msg (ls_msg ls') = M_BID -> ls_bid_pending ls' <> 0)
  /\ (ls_bid_pending ls = 0 ->
      ls_upgrade ls <> 0 \/ qc_status (ls_ctx ls) <> S_RUN ->
      ls_bid_pending ls' = 0 /\ m_msg (ls_msg ls') <> M_BID).
Proof.
  intros Hbn Hba Hb0 Hmsg Hd. unfold decide in Hd.
  pose proof (check_votes_rescind (ls_ctx ls) (ls_ni ls) (ls_msg ls))
    as Hres.
  pose proof (do_vote_msg (ls_ctx ls) (ls_ni ls) (ls_msg ls)) as Hdv.
  destruct (check_votes (ls_ctx ls) (ls_ni ls) (ls_msg ls))
    as [code msg1] eqn:Hcv.
  cbn [fst snd] in Hres.
  repeat break_if_in Hd; simpl in Hd; try discriminate;
    injection Hd as _ <-; cbn [ls_upgrade ls_msg ls_bid_pending m_msg];
    zbool; (split; [reflexivity|]).
  - split; [intros _; lia|]. intros Hz [Hu|Hs]; contradiction.
  - split.
    + intros Hx. destruct Hdv as [Hdv|Hdv]; rewrite Hdv in Hx;
        [auto|congruence].
    + intros Hz _. split; [exact Hz|].
      destruct Hdv as [Hdv|Hdv]; rewrite Hdv; [|congruence].
      intros Hx. apply Hmsg in Hx. contradiction.
  - split; [intros _; lia|]. intros Hz. contradiction.
  - split; [intros Hx; congruence|]. intros Hz. contradiction.
  - split; [intros Hx; congruence|]. intros Hz. contradiction.
  - split; [|intros Hz; contradiction].
    intros Hx. rewrite Hres in Hx by assumption. congruence.
  - split; [intros _; lia|]. intros Hz. contradiction.
  - split; [exact Hmsg|]. intros Hz _. split; [exact Hz|].
    intros Hx. apply Hmsg in Hx. contradiction.
  - split; [exact Hmsg|]. intros Hz _. split; [exact Hz|].
    intros Hx. apply Hmsg in Hx. contradiction.
  - split; [exact Hmsg|]. intros Hz _. split; [exact Hz|].
    intros Hx. apply Hmsg in Hx. contradiction.
  - split; [exact Hmsg|]. intros Hz _. split; [exact Hz|].
    intros Hx. apply Hmsg in Hx. contradiction.
  - split; [exact Hmsg|]. intros Hz _. split; [exact Hz|].
    intros Hx. apply Hmsg in Hx. contradiction.
Qed.

Lemma to_write_bid inp ls l ls' :
  S_NONE < S_RUN -> S_NONE < S_MASTER ->
  M_BID <> M_NONE -> M_BID <> M_ACK ->
  bid_inv ls ->
  to_write inp ls = (l, Ok ls') ->
  bid_inv ls'
  /\ same_config (ls_ctx ls) (ls_ctx ls')
  /\ (forall k, 0 <= k -> quiet (k + 1) ls ->
        quiet k ls' /\ m_msg (ls_msg ls') <> M_BID).
Proof.
  intros Hnr Hnm Hbn Hba [Hinv Hmsg] Hc.
  destruct (to_write_spec inp ls l ls' Hnr Hnm Hinv Hc)
    as (Hinv' & Hcfg & _).
  apply to_write_inv in Hc as (l0 & pre & low & l1 & Hpre & Hdec & _).
  apply before_decide_inv in Hpre as (ls2 & m & count & Hog & _ & Hpre).
  apply observe_and_gate_inv in Hog as (e0 & ls1 & e1 & Hobs & Hgate & _).
  apply observe_frame in Hobs as (Hctx1 & Hmsg1 & Hbid1 & Hup1 & _).
  assert (Hinv1 : loop_inv ls1).
  { unfold loop_inv in *. rewrite Hctx1, Hbid1. exact Hinv. }
  destruct (score_gate_spec inp ls1 e1 ls2 Hnr Hnm Hinv1 Hgate)
    as (Hinv2 & Hcfg2 & _).
  pose proof (score_gate_detail inp ls1 e1 ls2 Hgate) as Hshape.
  cbv zeta in Hshape. rewrite Hctx1, Hmsg1, Hbid1, Hup1 in Hshape.
  destruct (find_master_frame ls2)
    as (Hcfg3 & Hst3 & _ & _ & Hmsg3 & Hbid3 & Hup3 & _).
  set (ls3 := fst (fst (find_master ls2))) in *.
  assert (Hinv3 : loop_inv ls3).
  { unfold loop_inv in *. rewrite Hst3, Hbid3. exact Hinv2. }
  destruct (resolve_conflict_frame count ls3)
    as (Hcfg4 & _ & _ & _ & Hsame & Hconf).
  pose proof (resolve_conflict_inv count ls3 Hinv3) as Hinv4.
  rewrite <- Hpre in *.
  assert (Hw3 : qc_upgrade_wait (ls_ctx ls3)
                = qc_upgrade_wait (ls_ctx ls)).
  { rewrite <- Hctx1.
    destruct (same_config_trans _ _ _ Hcfg2 Hcfg3)
      as (_ & _ & _ & _ & Hw & _). exact Hw. }
  assert (Hmsg4 : m_msg (ls_msg pre) = M_BID -> ls_bid_pending pre <> 0).
  { destruct (master_conflict count (ls_ctx ls3)).
    - destruct (Hconf eq_refl) as (_ & _ & _ & Hm4). congruence.
    - rewrite (Hsame eq_refl), Hmsg3, Hbid3.
      destruct Hshape as [(_ & Hm & _)|[(_ & _ & Hm & _)
                                        |(_ & Hm & Hb & _)]];
        try congruence.
      rewrite Hm, Hb. exact Hmsg. }
  destruct Hinv4 as (Hst4 & Hb4 & Hbid4).
  destruct (decide_bid inp low pre l1 ls' Hbn Hba Hb4 Hmsg4 Hdec)
    as (Hup5 & Hmsg5 & Hquiet5).
  destruct (decide_spec inp low pre) as [_ Hspec].
  destruct (Hspec l1 ls' Hdec) as (_ & _ & _ & _ & Hcases).
  split; [split; assumption|]. split; [exact Hcfg|].
  intros k Hk (Hq1 & Hq2 & Hq3 & Hq4).
  assert (Hpre_quiet :
            ls_bid_pending pre = 0 /\ m_msg (ls_msg pre) <> M_BID
            /\ (qc_status (ls_ctx pre) = S_NONE
                \/ k + 1 <= ls_upgrade pre)).
  { destruct (master_conflict count (ls_ctx ls3)).
    - destruct (Hconf eq_refl) as (_ & Hu4 & Hb & Hm4).
      split; [exact Hb|]. split; [congruence|].
      right. rewrite Hu4, Hw3. lia.
    - rewrite (Hsame eq_refl), Hmsg3, Hbid3, Hup3, Hst3.
      destruct Hshape as [(Hs & Hm & Hb & Hu)
                         |[(_ & Hs & Hm & Hb & Hu)
                          |(Hs & Hm & Hb & Hu)]].
      + split; [exact Hb|]. split; [congruence|]. left. exact Hs.
      + split; [exact Hb|]. split; [congruence|].
        right. rewrite Hu. lia.
      + rewrite Hm, Hb, Hs, Hu.
        split; [exact Hq2|]. split; [exact Hq1|].
        destruct Hq4 as [Hn|Hu2]; [left; exact Hn|].
        right. replace (ls_upgrade ls >? 0) with true; [lia|].
        symmetry. rewrite Z.gtb_ltb. apply Z.ltb_lt. lia. }
  destruct Hpre_quiet as (Hpb & Hpm & Hps).
  assert (Hguard : ls_upgrade pre <> 0
                   \/ qc_status (ls_ctx pre) <> S_RUN).
  { destruct Hps as [Hn|Hu]; [right; rewrite Hn; lia|left; lia]. }
  destruct (Hquiet5 Hpb Hguard) as [Hb' Hm'].
  split; [|exact Hm'].
  unfold quiet. split; [exact Hm'|]. split; [exact Hb'|].
  destruct Hcfg as (_ & _ & _ & _ & Hw & _).
  split; [rewrite Hw; lia|].
  rewrite Hup5.
  destruct Hcases as [[Hs _]|(_ & _ & _ & Hne & _)];
    [rewrite Hs; exact Hps|contradiction].
Qed.

Lemma bid_inv_init ctx ni mask0 master_mask0 :
  M_BID <> 0 -> bid_inv (loop_init ctx ni mask0 master_mask0).
Proof.
  intros Hb0. unfold bid_inv, loop_inv, loop_init. simpl.
  split; [split; [auto|split; [lia|]]|]; intros Hx; congruence.
Qed.

(** X14. Throughout a run of [quorum_loop], however it ends, every
    status write that carries the message BID carries the state RUN; the
    write of a cycle that is then cut short by a reboot is no exception.
    (BID is taken to differ from 0, NONE and ACK, and NONE to lie below
    RUN and MASTER.) *)
Theorem bid_written_only_in_run ctx ni mask0 master_mask0 inputs :
  S_NONE < S_RUN -> S_NONE < S_MASTER ->
  M_BID <> 0 -> M_BID <> M_NONE -> M_BID <> M_ACK ->
  forall nid st msg mask master_mask,
    In (EWriteStatus nid st (Some msg) mask master_mask)
       (fst (fst (quorum_loop ctx ni mask0 master_mask0 inputs))) ->
    m_msg msg = M_BID ->
    st = S_RUN.
Proof.
  intros Hnr Hnm Hb0 Hbn Hba nid st msg mask master_mask.
  unfold quorum_loop.
  destruct (quorum_cycles (loop_init ctx ni mask0 master_mask0) inputs)
    as [[evs outs] r] eqn:Hq.
  cbn [fst]. intros Hin Hbid.
  apply in_split in Hin as (pre & post & Hev).
  destruct (run_write_at bid_inv)
    with (inputs := inputs)
         (ls := loop_init ctx ni mask0 master_mask0)
         (evs := evs) (outs := outs) (r := r) (pre := pre)
         (E := EWriteStatus nid st (Some msg) mask master_mask)
         (post := post)
    as (inp & ls0 & l & s & post' & _ & Hinv & Htw & HE & _).
  - intros inp ls l s Hinv Htw.
    apply (to_write_bid inp ls l s Hnr Hnm Hbn Hba Hinv Htw).
  - apply bid_inv_init. exact Hb0.
  - exact Hq.
  - discriminate.
  - exact Hev.
  - destruct (to_write_bid inp ls0 l s Hnr Hnm Hbn Hba Hinv Htw)
      as ([(_ & _ & Hrun) Hm] & _).
    unfold write_of in HE. injection HE as _ -> -> _ _.
    auto.
Qed.

Lemma quiet_chain states : forall k ls inputs,
  S_NONE < S_RUN -> S_NONE < S_MASTER ->
  M_BID <> M_NONE -> M_BID <> M_ACK ->
  bid_inv ls ->
  quiet (Z.of_nat k) ls ->
  reached ls inputs states ->
  forall j s, (j < k)%nat -> nth_error states j = Some s ->
              m_msg (ls_msg s) <> M_BID.
Proof.
  induction states as [|s0 rest IH];
    intros k ls inputs Hnr Hnm Hbn Hba Hinv Hq Hr j s Hj Hs.
  - destruct j; discriminate.
  - destruct inputs as [|inp inputs]; [contradiction|].
    simpl in Hr. destruct Hr as [[l Htw] Hr].
    destruct (to_write_bid inp ls l s0 Hnr Hnm Hbn Hba Hinv Htw)
      as (Hinv' & _ & Hstep).
    destruct k as [|k]; [lia|].
    destruct (Hstep (Z.of_nat k)) as [Hq' Hnb]; [lia| |].
    { replace (Z.of_nat k + 1) with (Z.of_nat (S k)) by lia. exact Hq. }
    destruct j as [|j]; simpl in Hs.
    + injection Hs as <-. exact Hnb.
    + apply (IH k s0 inputs Hnr Hnm Hbn Hba Hinv' Hq' Hr j s);
        [lia|exact Hs].
Qed.

Lemma no_bid_after_none states : forall ls inputs,
  S_NONE < S_RUN -> S_NONE < S_MASTER ->
  M_BID <> M_NONE -> M_BID <> M_ACK ->
  bid_inv ls ->
  reached ls inputs states ->
  forall p j s1 s2,
    nth_error states p = Some s1 ->
    qc_status (ls_ctx s1) = S_NONE ->
    (1 <= j)%nat ->
    Z.of_nat j <= qc_upgrade_wait (ls_ctx ls) ->
    nth_error states (p + j) = Some s2 ->
    m_msg (ls_msg s2) <> M_BID.
Proof.
  induction states as [|s0 rest IH];
    intros ls inputs Hnr Hnm Hbn Hba Hinv Hr p j s1 s2
           Hp Hnone Hj Hw Hpj.
  - destruct p; discriminate.
  - destruct inputs as [|inp inputs]; [contradiction|].
    simpl in Hr. destruct Hr as [[l Htw] Hr].
    destruct (to_write_bid inp ls l s0 Hnr Hnm Hbn Hba Hinv Htw)
      as (Hinv' & Hcfg & _).
    destruct Hcfg as (_ & _ & _ & _ & Hwait & _).
    destruct p as [|p]; simpl in Hp.
    + injection Hp as <-.
      destruct j as [|j]; [lia|]. simpl in Hpj.
      assert (Hq : quiet (Z.of_nat (Z.to_nat
                            (qc_upgrade_wait (ls_ctx s0)))) s0).
      { rewrite Z2Nat.id by lia.
        destruct Hinv' as [(_ & _ & Hrn) Hm].
        assert (Hb : ls_bid_pending s0 = 0).
        { destruct (Z.eq_dec (ls_bid_pending s0) 0) as [|Hne];
            [assumption|].
          apply Hrn in Hne. lia. }
        unfold quiet. split; [|split; [exact Hb|split; [lia|auto]]].
        intros Hx. apply Hm in Hx. contradiction. }
      apply (quiet_chain rest _ s0 inputs Hnr Hnm Hbn Hba Hinv' Hq Hr
               j s2); [lia|exact Hpj].
    + simpl in Hpj.
      apply (IH s0 inputs Hnr Hnm Hbn Hba Hinv' Hr p j s1 s2); auto.
      lia.
Qed.

(** X15. The upgrade wait holds over runs of [quorum_loop], however they
    end: after a write of the node's own block with state NONE, none of
    the next [upgrade_wait] writes of that block carries the message
    BID; a node that has just been promoted to RUN bids on the
    [upgrade_wait]-th cycle after its promotion at the earliest.  The
    writes are those of the trace, so the write of a cycle that is then
    cut short by a reboot counts. *)
Theorem no_bid_during_upgrade_wait ctx ni mask0 master_mask0 inputs
    p j st1 m1 st2 m2 :
  S_NONE < S_RUN -> S_NONE < S_MASTER ->
  M_BID <> 0 -> M_BID <> M_NONE -> M_BID <> M_ACK ->
  let ws := own_writes
              (fst (fst (quorum_loop ctx ni mask0 master_mask0 inputs))) in
  nth_error ws p = Some (st1, m1) ->
  st1 = S_NONE ->
  (1 <= j)%nat ->
  Z.of_nat j <= qc_upgrade_wait ctx ->
  nth_error ws (p + j) = Some (st2, m2) ->
  m_msg m2 <> M_BID.
Proof.
  intros Hnr Hnm Hb0 Hbn Hba. unfold quorum_loop.
  destruct (quorum_cycles (loop_init ctx ni mask0 master_mask0) inputs)
    as [[evs outs] r] eqn:Hq.
  cbn [fst]. intros Hp Hnone Hj Hw Hpj.
  destruct (run_reached inputs _ evs outs r Hq) as (states & Hr & Hws).
  rewrite Hws, nth_error_map in Hp, Hpj.
  destruct (nth_error states p) as [s1|] eqn:H1; [|discriminate].
  destruct (nth_error states (p + j)) as [s2|] eqn:H2; [|discriminate].
  injection Hp as Hst1 _. injection Hpj as _ Hm2. subst m2.
  apply (no_bid_after_none states _ inputs Hnr Hnm Hbn Hba
           (bid_inv_init ctx ni mask0 master_mask0 Hb0) Hr
           p j s1 s2); auto.
  congruence.
Qed.

(** ** The master wait *)

Lemma check_votes_keeps ctx ni msg :
  M_BID <> M_ACK ->
  fst (check_votes ctx ni msg) <> 2 ->
  fst (check_votes ctx ni msg) <> 1 ->
  snd (check_votes ctx ni msg) = msg.
Proof.
  intros Hba H2 H1.
  pose proof (check_votes_all_acks ctx ni msg) as H3.
  destruct (count_votes_low ctx ni (mk_votes 0 0 0 (qc_my_id ctx) msg))
    as (_ & _ & Hcase).
  unfold check_votes in *. cbn [fst snd v_low_id v_msg] in *.
  destruct Hcase as [[_ Hmsg]|(Hlt & n & Hin & Hb & _)]; [exact Hmsg|].
  exfalso.
  destruct (_ =? _) eqn:Hacks.
  - destruct H3 as [H3 _]. specialize (H3 eq_refl).
    unfold all_acked in H3. rewrite Forall_forall in H3.
    specialize (H3 n Hin). unfold alive_bidder in Hb. zbool.
    match goal with
    | Ha : tracked_alive n = true |- _ => specialize (H3 Ha)
    end.
    unfold acked in H3. zbool. congruence.
  - destruct (truthy _); [apply H2; reflexivity|].
    replace (_ =? qc_my_id ctx) with false in H1;
      [apply H1; reflexivity|].
    symmetry. apply Z.eqb_neq. lia.
Qed.

Lemma decide_shown inp low ls l ls' :
  M_BID <> M_ACK ->
  bid_shown ls ->
  decide inp low ls = (l, Ok ls') ->
  bid_shown ls'.
Proof.
  intros Hba Hsh Hd. unfold decide in Hd.
  pose proof (check_votes_keeps (ls_ctx ls) (ls_ni ls) (ls_msg ls) Hba)
    as Hkeep.
  destruct (check_votes (ls_ctx ls) (ls_ni ls) (ls_msg ls))
    as [code msg1] eqn:Hcv.
  cbn [fst snd] in Hkeep. unfold bid_shown in *.
  repeat break_if_in Hd; simpl in Hd; try discriminate;
    injection Hd as _ <-; cbn [ls_msg ls_bid_pending m_msg];
    zbool; try (intros Hx; congruence); try exact Hsh.
  - intros _. rewrite Hkeep by lia. apply Hsh. assumption.
  - intros _. rewrite Hkeep by lia. apply Hsh. assumption.
Qed.

Lemma decide_away inp low ls l ls' k :
  S_NONE <> S_RUN ->
  0 <= k -> 0 <= ls_bid_pending ls ->
  poised k ls ->
  decide inp low ls = (l, Ok ls') ->
  away k ls'.
Proof.
  intros Hnr Hk Hb0 (Hst & Hbid & Hnobid) Hd. unfold decide in Hd.
  destruct (check_votes (ls_ctx ls) (ls_ni ls) (ls_msg ls))
    as [code msg1].
  unfold away.
  repeat break_if_in Hd; simpl in Hd; try discriminate;
    injection Hd as _ <-;
    cbn [ls_ctx ls_bid_pending ls_upgrade set_qc_status qc_status
         qc_master_wait qc_upgrade_wait];
    unfold truthy in *; zbool;
    repeat match goal with
           | E : negb _ = true |- _ => apply negb_true_iff in E
           | E : negb _ = false |- _ => apply negb_false_iff in E
           | E : (_ =? _) = true |- _ => apply Z.eqb_eq in E
           | E : (_ =? _) = false |- _ => apply Z.eqb_neq in E
           | E : (_ <? _) = true |- _ => apply Z.ltb_lt in E
           | E : (_ <? _) = false |- _ => apply Z.ltb_ge in E
           end;
    try (split; [exact Hst|]; split;
         [intros Hx; try specialize (Hbid Hx); lia
         |intros Hx; try specialize (Hnobid Hx); lia]).
  exfalso.
  match goal with
  | Hne : ls_bid_pending ls <> 0 |- _ => specialize (Hbid Hne)
  end.
  lia.
Qed.


Lemma score_gate_poised inp ls l ls' k :
  loop_inv ls ->
  S_NONE <> S_MASTER -> S_RUN <> S_MASTER -> S_NONE <> S_RUN ->
  score_gate inp ls = (l, Ok ls') ->
  away (k + 1) ls ->
  poised k ls'.
Proof.
  intros (_ & Hb0 & Hrun) Hnm Hrm Hnr Hg (Hst & Hbid & Hnobid).
  pose proof (score_gate_frame inp ls l ls' Hg)
    as ((_ & _ & _ & _ & Hu & Hw & _) & _).
  pose proof (score_gate_detail inp ls l ls' Hg) as Hshape.
  cbv zeta in Hshape. unfold poised. rewrite Hu, Hw.
  assert (Hdec : ls_upgrade ls <= 0
                 /\ (if ls_upgrade ls >? 0 then ls_upgrade ls - 1
                     else ls_upgrade ls) = ls_upgrade ls
                 \/ 0 < ls_upgrade ls
                    /\ (if ls_upgrade ls >? 0 then ls_upgrade ls - 1
                        else ls_upgrade ls) = ls_upgrade ls - 1).
  { destruct (ls_upgrade ls >? 0) eqn:E; rewrite Z.gtb_ltb in E;
      [apply Z.ltb_lt in E|apply Z.ltb_ge in E]; [right|left];
      split; auto. }
  destruct (Z.eq_dec (ls_bid_pending ls) 0) as [Hz|Hnz];
    [specialize (Hnobid Hz)|specialize (Hbid Hnz); specialize (Hrun Hnz)].
  - destruct Hshape as [(Hs & _ & Hb & Hup)
                       |[(Hs0 & Hs & _ & Hb & Hup)
                        |(Hs & _ & Hb & Hup)]];
      rewrite Hs, Hb, Hup;
      (split; [congruence|]); (split; [intros Hx; lia|]); intros _.
    + destruct Hnobid as [H1|[[_ H2]|[H3 H4]]]; [left; lia| |];
        right; left; split; auto; lia.
    + destruct (Z.eq_dec (qc_upgrade_wait (ls_ctx ls)) 0) as [Hu0|Hu0].
      * left. destruct Hnobid as [H1|[[_ H2]|[H3 H4]]]; lia.
      * destruct Hnobid as [H1|[[_ H2]|[H3 H4]]]; [left; lia| |];
          right; right; split; auto; lia.
    + destruct Hnobid as [H1|[[Hn H2]|[H3 H4]]].
      * left. lia.
      * right. left. split; [exact Hn|lia].
      * destruct Hdec as [[Hle ->]|[Hlt ->]]; [left; lia|].
        destruct (Z.eq_dec (ls_upgrade ls) 1) as [H1|H1];
          [left; lia|right; right; lia].
  - destruct Hshape as [(Hs & _ & Hb & Hup)
                       |[(Hs0 & Hs & _ & Hb & Hup)
                        |(Hs & _ & Hb & Hup)]].
    + rewrite Hs, Hb. split; [congruence|].
      split; [intros Hx; lia|]. intros _. left. lia.
    + exfalso. congruence.
    + rewrite Hs, Hb. split; [exact Hst|].
      split; [intros _; lia|]. intros Hx. contradiction.
Qed.

Lemma to_write_away inp ls l ls' :
  S_NONE < S_RUN -> S_NONE < S_MASTER -> S_RUN <> S_MASTER ->
  M_BID <> M_ACK ->
  loop_inv ls -> bid_shown ls ->
  to_write inp ls = (l, Ok ls') ->
  loop_inv ls'
  /\ bid_shown ls'
  /\ same_config (ls_ctx ls) (ls_ctx ls')
  /\ (forall k, 0 <= k -> away (k + 1) ls -> away k ls').
Proof.
  intros Hnr Hnm Hrm Hba Hinv Hsh Hc.
  destruct (to_write_spec inp ls l ls' Hnr Hnm Hinv Hc)
    as (Hinv' & Hcfg & _).
  apply to_write_inv in Hc as (l0 & pre & low & l1 & Hpre & Hdec & _).
  apply before_decide_inv in Hpre as (ls2 & m & count & Hog & _ & Hpre).
  apply observe_and_gate_inv in Hog as (e0 & ls1 & e1 & Hobs & Hgate & _).
  apply observe_frame in Hobs as (Hctx1 & Hmsg1 & Hbid1 & Hup1 & _).
  assert (Hinv1 : loop_inv ls1).
  { unfold loop_inv in *. rewrite Hctx1, Hbid1. exact Hinv. }
  destruct (score_gate_spec inp ls1 e1 ls2 Hnr Hnm Hinv1 Hgate)
    as (Hinv2 & _).
  pose proof (score_gate_detail inp ls1 e1 ls2 Hgate) as Hshape.
  cbv zeta in Hshape.
  destruct (find_master_frame ls2)
    as (Hcfg3 & Hst3 & _ & _ & Hmsg3 & Hbid3 & Hup3 & _).
  set (ls3 := fst (fst (find_master ls2))) in *.
  assert (Hinv3 : loop_inv ls3).
  { unfold loop_inv in *. rewrite Hst3, Hbid3. exact Hinv2. }
  destruct (resolve_conflict_frame count ls3)
    as (_ & _ & _ & _ & Hsame & Hconf).
  pose proof (resolve_conflict_inv count ls3 Hinv3) as Hinv4.
  rewrite <- Hpre in *.
  assert (Hsh2 : bid_shown ls2).
  { unfold bid_shown in *.
    destruct Hshape as [(_ & _ & Hb & _)|[(_ & _ & _ & Hb & _)
                                        |(_ & Hm & Hb & _)]];
      try (intros Hx; congruence).
    rewrite Hm, Hb, Hmsg1, Hbid1. exact Hsh. }
  assert (Hsh4 : bid_shown pre).
  { unfold bid_shown in *.
    destruct (master_conflict count (ls_ctx ls3)).
    - destruct (Hconf eq_refl) as (_ & _ & Hb & _). intros Hx. congruence.
    - rewrite (Hsame eq_refl), Hmsg3, Hbid3. exact Hsh2. }
  split; [exact Hinv'|].
  split; [exact (decide_shown inp low pre l1 ls' Hba Hsh4 Hdec)|].
  split; [exact Hcfg|].
  intros k Hk Haway.
  assert (Haway1 : away (k + 1) ls1).
  { unfold away in *. rewrite Hctx1, Hbid1, Hup1. exact Haway. }
  assert (Hp2 : poised k ls2).
  { apply (score_gate_poised inp ls1 e1 ls2 k Hinv1); auto; lia. }
  assert (Hp3 : poised k ls3).
  { destruct Hcfg3 as (_ & _ & _ & _ & Hu & Hw & _).
    unfold poised in *. rewrite Hst3, Hbid3, Hup3, Hu, Hw. exact Hp2. }
  assert (Hp4 : poised k pre).
  { replace pre with ls3; [exact Hp3|]. symmetry. apply Hsame.
    unfold master_conflict. destruct Hp3 as (Hne & _).
    apply Z.eqb_neq in Hne. rewrite Hne.
    rewrite andb_false_r. reflexivity. }
  destruct Hinv4 as (_ & Hb4 & _).
  apply (decide_away inp low pre l1 ls' k); auto. lia.
Qed.

Lemma away_chain states : forall k ls inputs,
  S_NONE < S_RUN -> S_NONE < S_MASTER -> S_RUN <> S_MASTER ->
  M_BID <> M_ACK ->
  loop_inv ls -> bid_shown ls ->
  away (Z.of_nat k) ls ->
  reached ls inputs states ->
  forall j s, (j < k)%nat -> nth_error states j = Some s ->
              qc_status (ls_ctx s) <> S_MASTER.
Proof.
  induction states as [|s0 rest IH];
    intros k ls inputs Hnr Hnm Hrm Hba Hinv Hsh Haw Hr j s Hj Hs.
  - destruct j; discriminate.
  - destruct inputs as [|inp inputs]; [contradiction|].
    simpl in Hr. destruct Hr as [[l Htw] Hr].
    destruct (to_write_away inp ls l s0 Hnr Hnm Hrm Hba Hinv Hsh Htw)
      as (Hinv' & Hsh' & _ & Hstep).
    destruct k as [|k]; [lia|].
    assert (Haw' : away (Z.of_nat k) s0).
    { apply Hstep; [lia|].
      replace (Z.of_nat k + 1) with (Z.of_nat (S k)) by lia. exact Haw. }
    destruct j as [|j]; simpl in Hs.
    + injection Hs as <-. destruct Haw' as [Hne _]. exact Hne.
    + apply (IH k s0 inputs Hnr Hnm Hrm Hba Hinv' Hsh' Haw' Hr j s);
        [lia|exact Hs].
Qed.

Lemma no_master_after states : forall ls inputs,
  S_NONE < S_RUN -> S_NONE < S_MASTER -> S_RUN <> S_MASTER ->
  M_BID <> M_ACK ->
  loop_inv ls -> bid_shown ls ->
  reached ls inputs states ->
  forall p j s1 s2,
    nth_error states p = Some s1 ->
    qc_status (ls_ctx s1) <> S_MASTER ->
    m_msg (ls_msg s1) <> M_BID ->
    (1 <= j)%nat ->
    (Z.of_nat j < qc_master_wait (ls_ctx ls)
     \/ (qc_status (ls_ctx s1) = S_NONE
         /\ Z.of_nat j < qc_master_wait (ls_ctx ls)
                         + qc_upgrade_wait (ls_ctx ls))) ->
    nth_error states (p + j) = Some s2 ->
    qc_status (ls_ctx s2) <> S_MASTER.
Proof.
  induction states as [|s0 rest IH];
    intros ls inputs Hnr Hnm Hrm Hba Hinv Hsh Hr p j s1 s2
           Hp Hst1 Hmsg1 Hj Hw Hpj.
  - destruct p; discriminate.
  - destruct inputs as [|inp inputs]; [contradiction|].
    simpl in Hr. destruct Hr as [[l Htw] Hr].
    destruct (to_write_away inp ls l s0 Hnr Hnm Hrm Hba Hinv Hsh Htw)
      as (Hinv' & Hsh' & Hcfg & _).
    destruct Hcfg as (_ & _ & _ & _ & Hu' & Hw' & _).
    destruct p as [|p]; simpl in Hp.
    + injection Hp as <-.
      destruct j as [|j]; [lia|]. simpl in Hpj.
      assert (Haw : away (Z.of_nat (S j)) s0).
      { unfold away. rewrite Hu', Hw'. split; [exact Hst1|].
        split; [intros Hx; apply Hsh' in Hx; contradiction|].
        intros _. destruct Hw as [H1|[Hn H2]];
          [left; lia|right; left; split; [exact Hn|lia]]. }
      apply (away_chain rest (S j) s0 inputs Hnr Hnm Hrm Hba
               Hinv' Hsh' Haw Hr j s2); [lia|exact Hpj].
    + simpl in Hpj.
      apply (IH s0 inputs Hnr Hnm Hrm Hba Hinv' Hsh' Hr
               p j s1 s2); auto.
      rewrite Hu', Hw'. exact Hw.
Qed.

Lemma loop_init_inv ctx ni mask0 master_mask0 :
  loop_inv (loop_init ctx ni mask0 master_mask0)
  /\ bid_shown (loop_init ctx ni mask0 master_mask0).
Proof.
  unfold loop_inv, bid_shown, loop_init. simpl.
  split; [split; [auto|split; [lia|]]|]; intros Hx; congruence.
Qed.

(** X16. The master wait holds over runs of [quorum_loop], however they
    end: after a write of the node's own block with a state other than
    MASTER and without a BID, none of the next [master_wait - 1] writes
    of that block carries state MASTER; when the state written was NONE,
    none of the next [master_wait + upgrade_wait - 1] does.  The writes
    are those of the trace, so the write of a cycle that is then cut
    short by a reboot counts.  (NONE lies below RUN and MASTER, RUN
    differs from MASTER, BID from ACK.) *)
Theorem no_master_before_master_wait ctx ni mask0 master_mask0 inputs
    p j st1 m1 st2 m2 :
  S_NONE < S_RUN -> S_NONE < S_MASTER -> S_RUN <> S_MASTER ->
  M_BID <> M_ACK ->
  let ws := own_writes
              (fst (fst (quorum_loop ctx ni mask0 master_mask0 inputs))) in
  nth_error ws p = Some (st1, m1) ->
  st1 <> S_MASTER ->
  m_msg m1 <> M_BID ->
  (1 <= j)%nat ->
  (Z.of_nat j < qc_master_wait ctx
   \/ (st1 = S_NONE
       /\ Z.of_nat j < qc_master_wait ctx + qc_upgrade_wait ctx)) ->
  nth_error ws (p + j) = Some (st2, m2) ->
  st2 <> S_MASTER.
Proof.
  intros Hnr Hnm Hrm Hba. unfold quorum_loop.
  destruct (quorum_cycles (loop_init ctx ni mask0 master_mask0) inputs)
    as [[evs outs] r] eqn:Hq.
  cbn [fst]. intros Hp Hst Hmsg Hj Hw Hpj.
  destruct (run_reached inputs _ evs outs r Hq) as (states & Hr & Hws).
  rewrite Hws, nth_error_map in Hp, Hpj.
  destruct (nth_error states p) as [s1|] eqn:H1; [|discriminate].
  destruct (nth_error states (p + j)) as [s2|] eqn:H2; [|discriminate].
  injection Hp as Hst1 Hm1. injection Hpj as Hst2 _. subst st1 m1 st2.
  destruct (loop_init_inv ctx ni mask0 master_mask0) as [Hinv Hsh].
  apply (no_master_after states _ inputs Hnr Hnm Hrm Hba Hinv Hsh Hr
           p j s1 s2); auto.
Qed.

(** ** Initialisation *)

Lemma init_rec_mono j j' n : j <= j' -> init_rec j n -> init_rec j' n.
Proof. unfold init_rec. intros Hle [Hm He]. split; [lia|exact He]. Qed.

Lemma read_block_init ctx rd n j :
  0 <= j -> init_rec j n ->
  Forall (fun e => e = ESigStop) (fst (read_block ctx rd n))
  /\ forall n', snd (read_block ctx rd n) = Ok n' -> init_rec (j + 1) n'.
Proof.
  intros Hj [Hm He]. unfold read_block, init_rec.
  destruct rd as [sb|]; simpl.
  - destruct (ps_nodeid sb =? qc_my_id ctx).
    + unfold check_self.
      destruct (_ || _); [|destruct (ps_state sb =? S_EVICT)]; simpl;
        (split; [repeat constructor|]); intros n' Hn';
        try discriminate; injection Hn' as <-; simpl; split; auto; lia.
    + destruct (negb _); [|destruct (_ =? _)]; simpl;
        (split; [constructor|]); intros n' Hn';
        injection Hn' as <-; simpl; split; auto; lia.
  - split; [constructor|]. intros n' Hn'. injection Hn' as <-.
    split; auto; lia.
Qed.

Lemma read_from_init ctx disk ni : forall x j,
  0 <= j -> Forall (init_rec j) ni ->
  Forall (fun e => e = ESigStop)
         (fst (read_node_blocks_from ctx disk x ni))
  /\ forall ni', snd (read_node_blocks_from ctx disk x ni) = Ok ni' ->
       length ni' = length ni /\ Forall (init_rec (j + 1)) ni'.
Proof.
  induction ni as [|n rest IH]; intros x j Hj Hall.
  - simpl. split; [constructor|]. intros ni' Hn. injection Hn as <-.
    split; [reflexivity|constructor].
  - inversion Hall as [|? ? Hn Hrest]; subst.
    destruct (read_block_init ctx (disk x) n j Hj Hn) as [Hev Hrec].
    destruct (IH (S x) j Hj Hrest) as [Hev' Hrec'].
    cbn [read_node_blocks_from]. rewrite fst_bind, snd_bind.
    destruct (read_block ctx (disk x) n) as [l [n1| |]]; simpl in *;
      try (split; [rewrite app_nil_r; exact Hev|discriminate]).
    rewrite fst_bind, snd_bind.
    destruct (read_node_blocks_from ctx disk (S x) rest)
      as [l' [rest1| |]]; simpl in *;
      try (split; [rewrite app_nil_r; apply Forall_app; auto
                  |discriminate]).
    split; [rewrite app_nil_r; apply Forall_app; auto|].
    intros ni' Hn'. injection Hn' as <-.
    destruct (Hrec' rest1 eq_refl) as [Hlen Hall'].
    split; [simpl; congruence|]. constructor; auto.
Qed.

Lemma transition_init ctx n mask j :
  0 <= j -> j <= qc_tko ctx -> init_rec j n ->
  fst (transition ctx n mask) = []
  /\ init_rec j (fst (snd (transition ctx n mask))).
Proof.
  intros Hj Htko [Hm He]. unfold transition, init_rec.
  destruct (case_down n).
  { simpl. split; [reflexivity|]. split; [exact Hj|].
    destruct (_ =? _); [exact He|reflexivity]. }
  assert (Hev : case_evict ctx n = false).
  { unfold case_evict.
    replace (ni_misses n >? qc_tko ctx) with false; [reflexivity|].
    symmetry. rewrite Z.gtb_ltb. apply Z.ltb_ge. lia. }
  assert (Hu : case_undead n = false).
  { unfold case_undead. rewrite He. reflexivity. }
  rewrite Hev, Hu.
  destruct (case_up ctx n); [simpl; auto|].
  destruct (case_master n); [simpl; auto|].
  destruct (truthy _); simpl; auto.
Qed.

Lemma check_transitions_from_init ctx ni j : forall mask,
  0 <= j -> j <= qc_tko ctx -> Forall (init_rec j) ni ->
  fst (check_transitions_from ctx ni mask) = []
  /\ length (fst (snd (check_transitions_from ctx ni mask))) = length ni
  /\ Forall (init_rec j) (fst (snd (check_transitions_from ctx ni mask))).
Proof.
  induction ni as [|n rest IH]; intros mask Hj Htko Hall; simpl.
  - split; [reflexivity|]. split; [reflexivity|constructor].
  - inversion Hall as [|? ? Hn Hrest]; subst.
    destruct (transition_init ctx n mask j Hj Htko Hn) as [Hev Hrec].
    destruct (transition ctx n mask) as [evs [n' mask1]].
    destruct (IH mask1 Hj Htko Hrest) as (Hev' & Hlen & Hrec').
    destruct (check_transitions_from ctx rest mask1)
      as [evs' [rest' mask2]].
    simpl in *. subst. split; [reflexivity|].
    split; [congruence|]. constructor; auto.
Qed.

Lemma init_rounds_spec ctx inputs : forall left x ni,
  ((0 < left)%nat -> Z.of_nat (x + left) <= qc_tko ctx) ->
  Forall (init_rec (Z.of_nat x)) ni ->
  Forall (init_event ctx) (fst (init_rounds ctx inputs left x ni))
  /\ forall rc ni',
       snd (init_rounds ctx inputs left x ni) = Ok (rc, ni') ->
       length ni' = length ni
       /\ Forall (init_rec (Z.of_nat (x + left))) ni'.
Proof.
  induction left as [|left IH]; intros x ni Hbound Hall.
  - simpl. split; [constructor|]. intros rc ni' Hr. injection Hr as _ <-.
    rewrite Nat.add_0_r. auto.
  - specialize (Hbound (Nat.lt_0_succ left)).
    cbn [init_rounds].
    destruct (negb (ii_running (inputs x))).
    { simpl. split; [constructor|]. intros rc ni' Hr.
      injection Hr as _ <-. split; [reflexivity|].
      eapply Forall_impl; [|exact Hall].
      intros n. apply init_rec_mono. lia. }
    destruct (read_from_init ctx (ii_disk (inputs x)) ni 0 (Z.of_nat x))
      as [Hev Hrec]; [lia|exact Hall|].
    unfold read_node_blocks. rewrite fst_bind, snd_bind.
    destruct (read_node_blocks_from ctx (ii_disk (inputs x)) 0 ni)
      as [l [ni1| |]]; simpl in Hev, Hrec |- *;
      try (split; [rewrite app_nil_r;
                   eapply Forall_impl; [|exact Hev];
                   intros e ->; unfold init_event; auto
                  |discriminate]).
    destruct (Hrec ni1 eq_refl) as [Hlen1 Hall1].
    destruct (check_transitions_from_init ctx ni1 (Z.of_nat x + 1) None)
      as (Hev2 & Hlen2 & Hall2); [lia|lia|exact Hall1|].
    unfold check_transitions. simpl option_map.
    destruct (check_transitions_from ctx ni1 None) as [evs [ni2 m2]].
    simpl in Hev2, Hlen2, Hall2. subst evs.
    assert (Hsig : Forall (init_event ctx) l).
    { eapply Forall_impl; [|exact Hev].
      intros e ->. unfold init_event. auto. }
    assert (Hwr : init_event ctx
                    (EWriteStatus (qc_my_id ctx) S_INIT None None None)).
    { unfold init_event. auto. }
    destruct (negb (ii_write (inputs x) =? 0)).
    + simpl. split.
      * apply Forall_app. split; [exact Hsig|].
        constructor; [exact Hwr|constructor].
      * intros rc ni' Hr. injection Hr as _ <-.
        split; [congruence|].
        eapply Forall_impl; [|exact Hall2].
        intros n. apply init_rec_mono. lia.
    + destruct (IH (S x) ni2) as [Hev3 Hrec3].
      { intros _. replace (S x + left)%nat with (x + S left)%nat by lia.
        exact Hbound. }
      { replace (Z.of_nat (S x)) with (Z.of_nat x + 1) by lia.
        exact Hall2. }
      cbn [bind emit fst snd app].
      destruct (init_rounds ctx inputs left (S x) ni2) as [l3 r3].
      cbn [fst snd app] in Hev3, Hrec3 |- *. split.
      * apply Forall_app. split; [exact Hsig|].
        constructor; [exact Hwr|].
        constructor;
          [unfold init_event; right; left; eexists _, _, _; reflexivity|].
        constructor; [unfold init_event; auto|exact Hev3].
      * intros rc ni' Hr. subst r3.
        destruct (Hrec3 rc ni' eq_refl) as [Hlen3 Hall3].
        split; [congruence|].
        replace (x + S left)%nat with (S x + left)%nat by lia.
        exact Hall3.
Qed.

(** X17. Initialisation evicts nobody: whatever the disk delivers and
    however it ends, [quorum_init] writes no block but the node's own,
    always with state INIT, and asks for no node to be killed.  Its loop
    runs for at most [tko] rounds, so no record can exceed [tko] misses
    before the main loop takes over. *)
Theorem quorum_init_evicts_nobody ctx validate opened first_write t max
    inputs ni0 :
  Forall (init_event ctx)
         (fst (quorum_init ctx validate opened first_write t max inputs
                           ni0)).
Proof.
  unfold quorum_init.
  destruct (validate <? 0); [constructor|].
  destruct (opened <? 0); [constructor|].
  set (ctx1 := set_qc_status S_INIT ctx).
  assert (Hwr : init_event ctx
                  (EWriteStatus (qc_my_id ctx1) S_INIT None None None)).
  { unfold init_event. auto. }
  destruct (negb (first_write =? 0)); [repeat constructor; exact Hwr|].
  destruct (init_rounds_spec ctx1 inputs (Z.to_nat (qc_tko ctx1)) 0
              (node_info_init t max)) as [Hev _].
  { intros Hpos. lia. }
  { unfold node_info_init. apply Forall_forall. intros n Hn.
    apply in_map_iff in Hn as (x & <- & _). unfold init_rec. simpl.
    split; [lia|reflexivity]. }
  cbn [bind emit fst snd app].
  rewrite (surjective_pairing
             (bind (init_rounds ctx1 inputs (Z.to_nat (qc_tko ctx1)) 0
                      (node_info_init t max)) _)).
  cbn [fst]. constructor; [exact Hwr|].
  rewrite fst_bind.
  apply Forall_app. split; [exact Hev|].
  destruct (snd _); simpl; constructor.
Qed.

(** X18. What a successful initialisation hands to the main loop: when
    [quorum_init] returns 0 the device was validated and opened and the
    first write went through, the node's own state is INIT, the array
    has [max] records, and no record holds an evil incarnation or more
    misses than [tko]. *)
Theorem quorum_init_result ctx validate opened first_write t max inputs
    ni0 evs ctx' ni' :
  quorum_init ctx validate opened first_write t max inputs ni0
  = (evs, Ok (0, ctx', ni')) ->
  0 <= validate /\ 0 <= opened /\ first_write = 0
  /\ ctx' = set_qc_status S_INIT ctx
  /\ length ni' = max
  /\ Forall (fun n => ni_evil_incarnation n = 0
                      /\ ni_misses n <= Z.max 0 (qc_tko ctx)) ni'.
Proof.
  unfold quorum_init. intros Hq.
  destruct (validate <? 0) eqn:Hv; [discriminate|].
  destruct (opened <? 0) eqn:Ho; [discriminate|].
  apply Z.ltb_ge in Hv, Ho.
  set (ctx1 := set_qc_status S_INIT ctx) in *.
  apply bind_ok_inv in Hq as (l & [] & l' & _ & Hq & _).
  destruct (negb (first_write =? 0)) eqn:Hw; [discriminate|].
  apply negb_false_iff, Z.eqb_eq in Hw.
  apply bind_ok_inv in Hq as (l1 & [rc ni1] & l2 & Hr & Hret & _).
  unfold ret in Hret. cbn [fst snd] in Hret.
  injection Hret as _ -> <- <-.
  destruct (init_rounds_spec ctx1 inputs (Z.to_nat (qc_tko ctx1)) 0
              (node_info_init t max)) as [_ Hrec].
  { intros Hpos. lia. }
  { unfold node_info_init. apply Forall_forall. intros n Hn.
    apply in_map_iff in Hn as (x & <- & _). unfold init_rec. simpl.
    split; [lia|reflexivity]. }
  rewrite Hr in Hrec. destruct (Hrec _ _ eq_refl) as [Hlen Hall].
  repeat (split; [assumption || reflexivity|]).
  split.
  { simpl in Hlen |- *. rewrite Hlen. unfold node_info_init.
    rewrite length_map, length_seq. reflexivity. }
  eapply Forall_impl; [|exact Hall].
  intros n [Hm He]. split; [exact He|].
  simpl in Hm. change (qc_tko ctx1) with (qc_tko ctx) in Hm. lia.
Qed.

(** ** Configuration *)

Context {FH : disk_h_flags}.

Lemma land_lor_other f b p :
  Z.land b p = 0 -> Z.land (Z.lor f b) p = Z.land f p.
Proof.
  intros H. rewrite Z.land_lor_distr_l, H. apply Z.lor_0_r.
Qed.

Lemma land_lor_same f p : Z.land (Z.lor f p) p = p.
Proof.
  apply Z.bits_inj'. intros i Hi. rewrite Z.land_spec, Z.lor_spec.
  destruct (Z.testbit f i), (Z.testbit p i); reflexivity.
Qed.

Lemma land_clear_other f b p :
  Z.land b p = 0 -> Z.land (Z.land f (Z.lnot b)) p = Z.land f p.
Proof.
  intros H. apply Z.bits_inj'. intros i Hi.
  assert (Hb : Z.testbit b i && Z.testbit p i = false).
  { rewrite <- Z.land_spec, H. apply Z.bits_0. }
  rewrite !Z.land_spec, Z.lnot_spec by exact Hi.
  destruct (Z.testbit f i), (Z.testbit b i), (Z.testbit p i);
    simpl in *; congruence.
Qed.

Lemma land_clear_same f p : Z.land (Z.land f (Z.lnot p)) p = 0.
Proof.
  rewrite <- Z.land_assoc, (Z.land_comm (Z.lnot p)), Z.land_lnot_diag.
  apply Z.land_0_r.
Qed.

Lemma switch_flag_other v b f p :
  Z.land b p = 0 -> Z.land (switch_flag v b f) p = Z.land f p.
Proof.
  intros H. unfold switch_flag. destruct v as [z|]; [|reflexivity].
  destruct (truthy z);
    [apply land_lor_other|apply land_clear_other]; exact H.
Qed.

Lemma switch_flag_same v p f :
  Z.land (switch_flag v p f) p =
  match v with
  | Some z => if truthy z then p else 0
  | None => Z.land f p
  end.
Proof.
  unfold switch_flag. destruct v as [z|]; [|reflexivity].
  destruct (truthy z); [apply land_lor_same|apply land_clear_same].
Qed.

Lemma int_wrap_small z : INT_MIN <= z <= INT_MAX -> int_wrap z = z.
Proof.
  unfold int_wrap, INT_MIN, INT_MAX. intros Hz.
  rewrite Z.mod_small by lia. lia.
Qed.

Lemma get_config_data_inv ctx debug cv rc ctx' :
  get_config_data ctx debug true cv = (rc, ctx') ->
  rc = 0
  /\ qc_my_id ctx' = qc_my_id ctx
  /\ qc_status ctx' = qc_status ctx
  /\ qc_master ctx' = qc_master ctx
  /\ 1 <= qc_interval ctx'
  /\ 3 <= qc_tko ctx'
  /\ 2 <= qc_tko_up ctx'
  /\ 1 <= qc_upgrade_wait ctx'
  /\ 0 <= qc_scoremin ctx'
  /\ (cv_ints cv ->
      (cv_tko_up cv <> Some INT_MAX ->
       qc_tko_up ctx' < qc_master_wait ctx')
      /\ (cv_tko_up cv = Some INT_MAX ->
          qc_tko_up ctx' = INT_MAX /\ qc_master_wait ctx' = INT_MIN)).
Proof.
  unfold get_config_data. simpl negb. cbv iota. intros Hc.
  injection Hc as <- <-.
  cbn [qc_my_id qc_status qc_master qc_interval qc_tko qc_tko_up
       qc_upgrade_wait qc_master_wait qc_scoremin].
  repeat (split; [reflexivity|]).
  repeat (split;
          [repeat match goal with
                  | |- context [match ?o with Some _ => _ | None => _ end]
                    => destruct o
                  | |- context [if ?b then _ else _] => destruct b eqn:?
                  end; zbool; lia|]).
  intros (_ & Htko & Hup & _ & Hmw & _).
  unfold key_int, int_range in *.
  set (tko := match cv_tko cv with
              | Some v => if v <? 3 then 3 else v
              | None => 10
              end) in *.
  assert (Htko' : 3 <= tko <= INT_MAX).
  { subst tko. unfold INT_MAX in *.
    destruct (cv_tko cv) as [v|]; [destruct (v <? 3) eqn:E; zbool|];
      lia. }
  assert (Hq3 : 0 <= Z.quot tko 3 <= tko)
    by (split; [apply Z.quot_pos; lia
               |apply Z.quot_le_upper_bound; lia]).
  assert (Hq2 : 0 <= Z.quot tko 2 <= tko)
    by (split; [apply Z.quot_pos; lia
               |apply Z.quot_le_upper_bound; lia]).
  set (up0 := match cv_tko_up cv with
              | Some v => v
              | None => Z.quot tko 3
              end) in *.
  set (up := if up0 <? 2 then 2 else up0) in *.
  set (mw0 := match cv_master_wait cv with
              | Some v => v
              | None => Z.quot tko 2
              end) in *.
  assert (Hmw0 : mw0 <= INT_MAX).
  { subst mw0. destruct (cv_master_wait cv); lia. }
  split.
  - intros Hne.
    assert (Hup' : 2 <= up < INT_MAX).
    { subst up up0. unfold INT_MAX in *.
      destruct (cv_tko_up cv) as [v|].
      - assert (v <> 2147483647) by congruence.
        destruct (v <? 2) eqn:E; zbool; lia.
      - assert (Hlt : Z.quot tko 3 < tko)
          by (apply Z.quot_lt; lia).
        destruct (Z.quot tko 3 <? 2) eqn:E; zbool; lia. }
    destruct (mw0 <=? up) eqn:E; zbool; [|lia].
    rewrite int_wrap_small; unfold INT_MIN, INT_MAX in *; lia.
  - intros Heq.
    assert (Hup' : up = INT_MAX).
    { subst up up0. rewrite Heq. reflexivity. }
    split; [exact Hup'|].
    rewrite Hup'.
    replace (mw0 <=? INT_MAX) with true
      by (symmetry; apply Z.leb_le; exact Hmw0).
    reflexivity.
Qed.

(** X19. The limits that [get_config_data] enforces: it fails with -1,
    leaving the context alone, when the logging configuration or the
    configuration service cannot be reached; otherwise it returns 0 and,
    whatever the keys hold, the interval is at least 1, [tko] at least 3,
    [tko_up] at least 2, the upgrade wait at least 1 and the minimum
    score not negative; the node id, state and master are left as they
    were.  With keys that hold [int]s, the master wait is above [tko_up]
    unless the key [tko_up] holds [INT_MAX]: then the sum [tko_up + 1]
    wraps around and the master wait is [INT_MIN]. *)
Theorem get_config_data_bounds ctx debug connected cv :
  (connected = false ->
   get_config_data ctx debug connected cv = (-1, ctx))
  /\ (connected = true ->
      let ctx' := snd (get_config_data ctx debug connected cv) in
      fst (get_config_data ctx debug connected cv) = 0
      /\ qc_my_id ctx' = qc_my_id ctx
      /\ qc_status ctx' = qc_status ctx
      /\ qc_master ctx' = qc_master ctx
      /\ 1 <= qc_interval ctx'
      /\ 3 <= qc_tko ctx'
      /\ 2 <= qc_tko_up ctx'
      /\ 1 <= qc_upgrade_wait ctx'
      /\ 0 <= qc_scoremin ctx'
      /\ (cv_ints cv ->
          (cv_tko_up cv <> Some INT_MAX ->
           qc_tko_up ctx' < qc_master_wait ctx')
          /\ (cv_tko_up cv = Some INT_MAX ->
              qc_tko_up ctx' = INT_MAX
              /\ qc_master_wait ctx' = INT_MIN))).
Proof.
  split; intros ->; [reflexivity|].
  cbv zeta. apply (get_config_data_inv ctx debug cv).
  apply surjective_pairing.
Qed.

Ltac flag_pairs H :=
  unfold flags_disjoint, run_flags in H;
  repeat match goal with
         | H' : ForallOrdPairs _ (_ :: _) |- _ =>
             inversion H'; clear H'; subst
         | H' : Forall _ (_ :: _) |- _ => inversion H'; clear H'; subst
         | H' : ForallOrdPairs _ [] |- _ => clear H'
         | H' : Forall _ [] |- _ => clear H'
         end.

Ltac flag_peel :=
  repeat first
    [ rewrite switch_flag_same
    | rewrite switch_flag_other
        by first [assumption | rewrite Z.land_comm; assumption]
    | rewrite land_lor_same
    | rewrite land_lor_other
        by first [assumption | rewrite Z.land_comm; assumption]
    | rewrite land_clear_same
    | rewrite land_clear_other
        by first [assumption | rewrite Z.land_comm; assumption] ].

Ltac flag_solve :=
  repeat first
    [ progress flag_peel
    | rewrite Z.land_diag
    | reflexivity
    | assumption
    | rewrite Z.land_comm; assumption
    | match goal with
      | |- context [match ?o with Some _ => _ | None => _ end] =>
          destruct o
      | |- context [if ?b then _ else _] => destruct b
      end ].

(** X20. The run flags that [get_config_data] leaves, flag by flag, when
    no two flags share a bit: [reboot], [allow_kill] and [use_uptime]
    are on unless their key is present and reads 0; [paranoid] and
    [stop_cman] are off unless their key is present and reads non-zero;
    [debug] follows the debug setting alone, and the label flag the
    presence of a non-empty label.  No key disturbs the flag of
    another. *)
Theorem get_config_data_flags ctx debug cv rc ctx' :
  flags_disjoint ->
  get_config_data ctx debug true cv = (rc, ctx') ->
  let flag bit := Z.land (qc_flags ctx') bit in
  flag RF_REBOOT = (if key_on true (cv_reboot cv) then RF_REBOOT else 0)
  /\ flag RF_DEBUG = (if truthy debug then RF_DEBUG else 0)
  /\ flag RF_PARANOID
     = (if key_on false (cv_paranoid cv) then RF_PARANOID else 0)
  /\ flag RF_ALLOW_KILL
     = (if key_on true (cv_allow_kill cv) then RF_ALLOW_KILL else 0)
  /\ flag RF_STOP_CMAN
     = (if key_on false (cv_stop_cman cv) then RF_STOP_CMAN else 0)
  /\ flag RF_UPTIME
     = (if key_on true (cv_use_uptime cv) then RF_UPTIME else 0)
  /\ flag RF_CMAN_LABEL
     = (match cv_cman_label cv with
        | Some true => RF_CMAN_LABEL
        | _ => 0
        end).
Proof.
  intros Hd Hc. flag_pairs Hd.
  unfold get_config_data in Hc. simpl negb in Hc. cbv iota in Hc.
  injection Hc as _ <-. cbv zeta. cbn [qc_flags]. unfold key_on.
  repeat split; flag_solve.
Qed.

(** ** From start-up into the loop *)

Lemma quorum_init_config ctx validate opened first_write t max inputs ni0
    evs rc ctx1 ni1 :
  quorum_init ctx validate opened first_write t max inputs ni0
  = (evs, Ok (rc, ctx1, ni1)) ->
  same_config ctx ctx1.
Proof.
  unfold quorum_init. intros Hq.
  assert (Hrefl : same_config ctx ctx) by (unfold same_config; tauto).
  destruct (validate <? 0); [injection Hq as _ _ <- _; exact Hrefl|].
  destruct (opened <? 0); [injection Hq as _ _ <- _; exact Hrefl|].
  apply bind_ok_inv in Hq as (l & [] & l' & _ & Hq & _).
  destruct (negb (first_write =? 0));
    [injection Hq as _ _ <- _; exact Hrefl|].
  apply bind_ok_inv in Hq as (l1 & r & l2 & _ & Hret & _).
  injection Hret as _ _ <- _. exact Hrefl.
Qed.

Lemma no_master_at_start ctx ni mask0 master_mask0 inputs j st m :
  S_NONE < S_RUN -> S_NONE < S_MASTER -> S_RUN <> S_MASTER ->
  M_BID <> M_ACK ->
  nth_error
    (own_writes (fst (fst (quorum_loop ctx ni mask0 master_mask0 inputs))))
    j = Some (st, m) ->
  Z.of_nat j + 1 < qc_master_wait ctx + qc_upgrade_wait ctx ->
  st <> S_MASTER.
Proof.
  intros Hnr Hnm Hrm Hba. unfold quorum_loop.
  destruct (quorum_cycles (loop_init ctx ni mask0 master_mask0) inputs)
    as [[evs outs] r] eqn:Hq.
  cbn [fst]. intros Ho Hj.
  destruct (run_reached inputs _ evs outs r Hq) as (states & Hr & Hws).
  rewrite Hws, nth_error_map in Ho.
  destruct (nth_error states j) as [s|] eqn:Hs; [|discriminate].
  injection Ho as <- _.
  destruct (loop_init_inv ctx ni mask0 master_mask0) as [Hinv Hsh].
  apply (away_chain states (S j) (loop_init ctx ni mask0 master_mask0)
           inputs Hnr Hnm Hrm Hba Hinv Hsh) with (j := j); auto.
  unfold away, loop_init.
  cbn [ls_ctx ls_bid_pending ls_upgrade set_qc_status qc_status
       qc_master_wait qc_upgrade_wait].
  split; [lia|]. split; [intros Hx; congruence|].
  intros _. right. left. split; [reflexivity|lia].
Qed.

(** X21. From configuration to election: a daemon that took its
    configuration from [get_config_data], came through [quorum_init] and
    entered [quorum_loop] writes its own block with state MASTER in none
    of its first [master_wait + upgrade_wait - 1] cycles, which are three
    at least, whatever it reads from the disk and however the run ends.
    The keys of the configuration are [int]s, and the key [tko_up] does
    not hold [INT_MAX] (where the master wait wraps around to
    [INT_MIN]). *)
Theorem configured_daemon_waits ctx0 debug cv ctx validate opened
    first_write t max init_inputs ni0 evs ctx1 ni1 mask0 master_mask0
    inputs j st m :
  S_NONE < S_RUN -> S_NONE < S_MASTER -> S_RUN <> S_MASTER ->
  M_BID <> M_ACK ->
  cv_ints cv -> cv_tko_up cv <> Some INT_MAX ->
  get_config_data ctx0 debug true cv = (0, ctx) ->
  quorum_init ctx validate opened first_write t max init_inputs ni0
  = (evs, Ok (0, ctx1, ni1)) ->
  nth_error
    (own_writes
       (fst (fst (quorum_loop ctx1 ni1 mask0 master_mask0 inputs))))
    j = Some (st, m) ->
  (j < 3)%nat
  \/ Z.of_nat j + 1 < qc_master_wait ctx + qc_upgrade_wait ctx ->
  st <> S_MASTER.
Proof.
  intros Hnr Hnm Hrm Hba Hints Hne Hcfg Hinit Ho Hj.
  apply get_config_data_inv in Hcfg
    as (_ & _ & _ & _ & _ & _ & Hup & Hwait & _ & Hmw).
  destruct (Hmw Hints) as [Hmw' _]. specialize (Hmw' Hne).
  apply quorum_init_config in Hinit as (_ & _ & _ & _ & Hu1 & Hw1 & _).
  apply (no_master_at_start ctx1 ni1 mask0 master_mask0 inputs j st m
           Hnr Hnm Hrm Hba Ho).
  rewrite Hu1, Hw1. destruct Hj as [Hj|Hj]; lia.
Qed.

End Properties.

(** * The theorems at work on sample runs *)

Section SampleRuns.
#[local] Existing Instance disk_h_low_evict.
#[local] Existing Instance disk_h_flags_bits.

Lemma self_eviction_reboots_witness :
  check_self (ex_ctx 1 S_RUN)
             (ex_block 1 2 100 9 S_EVICT) = ([], Rebooted)
  /\ snd (read_node_blocks (ex_ctx 1 S_RUN)
            ex_disk_evicted (node_info_init 100 2)) = Rebooted.
Proof.
  apply (@self_eviction_reboots disk_h_low_evict (ex_ctx 1 S_RUN)
           ex_disk_evicted (node_info_init 100 2) 0%nat
           (ex_block 1 2 100 9 S_EVICT)).
  - simpl. lia.
  - reflexivity.
  - reflexivity.
  - simpl. lia.
  - simpl. lia.
  - reflexivity.
Defined.

Lemma failed_read_keeps_record_witness :
  read_block (ex_ctx 1 S_RUN) (ex_disk_peer_fails 1) ex_peer2
    = ([], Ok ex_peer2)
  /\ nth_error ex_after_failed_read 1 = Some ex_peer2.
Proof.
  destruct (@failed_read_keeps_record disk_h_low_evict (ex_ctx 1 S_RUN)
              ex_disk_peer_fails (node_info_init 100 2) 1%nat ex_peer2
              eq_refl eq_refl) as [Hblock Harray].
  split; [exact Hblock|].
  apply (Harray [] ex_after_failed_read). reflexivity.
Defined.

Lemma failed_read_counts_no_miss_witness :
  exists n',
    nth_error ex_after_failed_read 1 = Some n'
    /\ ni_last_seen n' = ni_last_seen ex_peer2
    /\ ni_misses n' = ni_misses ex_peer2.
Proof.
  eapply (@failed_read_counts_no_miss disk_h_low_evict (ex_ctx 1 S_RUN)
            ex_disk_peer_fails (node_info_init 100 2) 1%nat ex_peer2).
  - reflexivity.
  - reflexivity.
  - reflexivity.
Defined.

(** C4 as stated fails: node 1 cannot read node 2's block; node 2's
    record had [misses = 0] before, and has [misses = 0], not 1, after
    [read_node_blocks]. *)
Lemma failed_read_miss_not_counted :
  exists n n' ni',
    read_node_blocks (ex_ctx 1 S_RUN)
      ex_disk_peer_fails (node_info_init 100 2) = ([], Ok ni')
    /\ ex_disk_peer_fails 1 = None
    /\ nth_error (node_info_init 100 2) 1 = Some n
    /\ nth_error ni' 1 = Some n'
    /\ ni_misses n' <> ni_misses n + 1.
Proof.
  eexists _, _, _.
  split; [vm_compute; reflexivity|].
  split; [reflexivity|].
  split; [reflexivity|].
  split; [reflexivity|].
  vm_compute. discriminate.
Qed.

Lemma insufficient_score_writes_none_witness :
  snd (quorum_loop ex_ctx_paranoid (node_info_init 100 2) 0 0 ex_trace_cut)
  = Rebooted
  /\ length (snd (fst (quorum_loop ex_ctx_paranoid (node_info_init 100 2)
                                   0 0 ex_trace_cut))) = 1%nat
  /\ exists pre st m post,
       fst (fst (quorum_loop ex_ctx_paranoid (node_info_init 100 2)
                             0 0 ex_trace_cut))
       = pre ++ EWriteStatus 1 st (Some (mk_msg M_NONE 0 2)) (Some m)
                             (Some 0) :: post
       /\ length pre = 4%nat
       /\ st = S_NONE /\ st <> S_RUN /\ st <> S_MASTER
       /\ is_bit_set m (1 - 1) = false.
Proof.
  split; [vm_compute; reflexivity|].
  split; [vm_compute; reflexivity|].
  exists [ EWriteStatus 1 S_RUN (Some (mk_msg M_NONE 0 1)) (Some 1)
                        (Some 0);
           ELocalStatus 1 1 1; ESleep (mk_tv 0 500000);
           EPollQuorumDevice 0 ],
         S_NONE, 0, [ELocalStatus 0 1 1].
  assert (Hrun : fst (fst (quorum_loop ex_ctx_paranoid
                             (node_info_init 100 2) 0 0 ex_trace_cut))
                 = [ EWriteStatus 1 S_RUN (Some (mk_msg M_NONE 0 1))
                                  (Some 1) (Some 0);
                     ELocalStatus 1 1 1; ESleep (mk_tv 0 500000);
                     EPollQuorumDevice 0 ]
                   ++ EWriteStatus 1 S_NONE (Some (mk_msg M_NONE 0 2))
                                   (Some 0) (Some 0)
                   :: [ELocalStatus 0 1 1])
    by (vm_compute; reflexivity).
  split; [exact Hrun|]. split; [reflexivity|].
  assert (Hnr : S_NONE < S_RUN) by (simpl; lia).
  assert (Hnm : S_NONE < S_MASTER) by (simpl; lia).
  destruct (@insufficient_score_writes_none disk_h_low_evict
              ex_ctx_paranoid (node_info_init 100 2) 0 0 ex_trace_cut
              Hnr Hnm _ _ _ _ _ _ _ Hrun)
    as (inp & m & post' & _ & _ & Hm & Hpost & Hlow).
  injection Hm as <-. injection Hpost as Hs Hr _ _.
  apply Hlow. rewrite <- Hs, <- Hr. lia.
Defined.

Lemma sleep_after_cycle_witness :
  exists evs ls' out t,
    cycle (ex_in 101 S_RUN)
          (loop_init (ex_ctx 1 S_NONE) (node_info_init 100 2) 0 0)
      = (evs, Ok (ls', out))
    /\ co_sleep out = Some t
    /\ In (ESleep t) evs
    /\ tv_usecs t = 500000.
Proof.
  destruct (cycle (ex_in 101 S_RUN)
              (loop_init (ex_ctx 1 S_NONE) (node_info_init 100 2) 0 0))
    as [evs [[ls' out]| |]] eqn:Hc;
    [|vm_compute in Hc; discriminate Hc
     |vm_compute in Hc; discriminate Hc].
  assert (Hold : tv_normal (in_oldtime (ex_in 101 S_RUN)))
    by (unfold tv_normal; simpl; lia).
  assert (Hnew : tv_normal (in_newtime (ex_in 101 S_RUN)))
    by (unfold tv_normal; simpl; lia).
  destruct (@sleep_after_cycle disk_h_low_evict (ex_in 101 S_RUN)
              (loop_init (ex_ctx 1 S_NONE) (node_info_init 100 2) 0 0)
              evs ls' out Hold Hnew eq_refl Hc)
    as (t & Hs & Hin & Hu).
  exists evs, ls', out, t. auto.
Defined.

(** C3 as stated fails: a cycle of node 1 that takes two seconds, with
    an interval of one second, is followed by a sleep of one second, not
    of [max(0, 1 - 2) = 0] seconds. *)
Lemma slow_cycle_sleeps_full_interval :
  exists evs ls' out,
    cycle ex_in_slow
          (loop_init (ex_ctx 1 S_NONE) (node_info_init 100 2) 0 0)
      = (evs, Ok (ls', out))
    /\ tv_usecs (in_newtime ex_in_slow) - tv_usecs (in_oldtime ex_in_slow)
       = 2000000
    /\ qc_interval (ex_ctx 1 S_NONE) = 1
    /\ co_sleep out = Some (mk_tv 1 0)
    /\ In (ESleep (mk_tv 1 0)) evs
    /\ tv_usecs (mk_tv 1 0) <> Z.max 0 (1 * 1000000 - 2000000).
Proof.
  eexists _, _, _.
  split; [vm_compute; reflexivity|].
  split; [reflexivity|]. split; [reflexivity|].
  split; [reflexivity|]. split; [simpl; auto|].
  vm_compute. discriminate.
Qed.

Lemma evict_notice_sources_witness :
  ni_state (fst (snd (transition (ex_ctx 1 S_MASTER) ex_peer_missed
                                 (Some 3)))) = S_EVICT
  /\ (In (evict_notice 2)
         (fst (transition (ex_ctx 1 S_MASTER) ex_peer_missed (Some 3)))
      <-> qc_status (ex_ctx 1 S_MASTER) = S_MASTER).
Proof.
  apply (proj1 (@evict_notice_sources disk_h_low_evict (ex_ctx 1 S_MASTER))
               ex_peer_missed (Some 3)).
  - reflexivity.
  - reflexivity.
Defined.

(** C5 as stated fails: node 1, whose local state is RUN and not MASTER,
    finds node 2 undead and writes an EVICT block into node 2's slot.
    This is so under either numbering of the states. *)
Lemma undead_evicted_by_non_master :
  (qc_status (ex_ctx 1 (@S_RUN disk_h_low_evict))
     <> @S_MASTER disk_h_low_evict
   /\ In (EWriteStatus 2 (@S_EVICT disk_h_low_evict) None None None)
         (fst (check_transitions (DH := disk_h_low_evict)
                 (ex_ctx 1 S_RUN)
                 [ex_peer2; ex_peer_undead] (Some 0))))
  /\ (qc_status (ex_ctx 1 (@S_RUN disk_h_listed))
        <> @S_MASTER disk_h_listed
      /\ In (EWriteStatus 2 (@S_EVICT disk_h_listed) None None None)
            (fst (check_transitions (DH := disk_h_listed)
                    (ex_ctx (DH := disk_h_listed) 1
                            (@S_RUN disk_h_listed))
                    [ex_peer2; ex_peer_undead (DH := disk_h_listed)]
                    (Some 0)))).
Proof.
  split; (split; [vm_compute; discriminate|vm_compute; auto]).
Qed.

Lemma evil_incarnation_updates_witness :
  ni_evil_incarnation
    (fst (snd (transition (ex_ctx 1 S_RUN) ex_peer_restarted (Some 3))))
  = 0.
Proof.
  apply (proj1 (@evil_incarnation_updates disk_h_low_evict
                  (ex_ctx 1 S_RUN) ex_peer_restarted (Some 3))).
  - reflexivity.
  - vm_compute. discriminate.
Defined.

(** C6 as stated fails: node 2, evicted under incarnation 5, restarts;
    its block shows incarnation 6 and state INIT, not NONE, and the
    stored [ni_evil_incarnation] 5 is reset to zero.  This is so under
    either numbering of the states. *)
Lemma evil_incarnation_cleared_on_restart :
  (ni_evil_incarnation ex_peer_restarted = 5
   /\ ps_state (ni_status ex_peer_restarted) <> S_NONE
   /\ ni_evil_incarnation
        (fst (snd (transition (ex_ctx 1 S_RUN) ex_peer_restarted
                              (Some 3)))) = 0)
  /\ (ni_evil_incarnation (ex_peer_restarted (DH := disk_h_listed)) = 5
      /\ ps_state (ni_status (ex_peer_restarted (DH := disk_h_listed)))
         <> @S_NONE disk_h_listed
      /\ ni_evil_incarnation
           (fst (snd (transition (DH := disk_h_listed)
                        (ex_ctx (DH := disk_h_listed) 1
                                (@S_RUN disk_h_listed))
                        (ex_peer_restarted (DH := disk_h_listed))
                        (Some 3)))) = 0).
Proof.
  split; (split; [reflexivity|split; [vm_compute; discriminate
                                      |reflexivity]]).
Qed.

Lemma undead_never_comes_up_witness :
  let n' := fst (snd (transition (ex_ctx 1 S_RUN) ex_peer_undead
                                 (Some 3))) in
  (ni_state n' = S_NONE \/ ni_state n' = S_EVICT
   \/ ni_state n' = ni_state ex_peer_undead)
  /\ (S_NONE <> S_RUN -> S_EVICT <> S_RUN ->
      ni_state ex_peer_undead <> S_RUN -> ni_state n' <> S_RUN).
Proof.
  apply (@undead_never_comes_up disk_h_low_evict (ex_ctx 1 S_RUN)
           ex_peer_undead (Some 3)).
  - vm_compute. discriminate.
  - reflexivity.
Defined.

(** C7 as stated fails across cycles: after the seventh cycle of
    [ex_trace] node 2's record holds [ni_evil_incarnation = 7]; the
    eighth cycle sees node 2's block in state NONE and clears it; after
    the tenth cycle the tracked state is still NONE, and the eleventh
    moves it to RUN, while every block observed carried incarnation 7.
    This is so under either numbering of the states. *)
Lemma evicted_peer_comes_up_after_shutdown :
  (option_map ni_evil_incarnation (ex_peer_after 7) = Some 7
   /\ option_map ni_state (ex_peer_after 10) = Some S_NONE
   /\ option_map ni_state (ex_peer_after 11) = Some S_RUN
   /\ S_NONE <> S_RUN
   /\ Forall (fun inp =>
                option_map ps_incarnation (in_disk inp 1%nat) = Some 7)
             ex_trace)
  /\ (option_map ni_evil_incarnation
        (ex_peer_after (DH := disk_h_listed) 7) = Some 7
      /\ option_map ni_state (ex_peer_after (DH := disk_h_listed) 10)
         = Some (@S_NONE disk_h_listed)
      /\ option_map ni_state (ex_peer_after (DH := disk_h_listed) 11)
         = Some (@S_RUN disk_h_listed)
      /\ @S_NONE disk_h_listed <> @S_RUN disk_h_listed
      /\ Forall (fun inp =>
                   option_map ps_incarnation (in_disk inp 1%nat) = Some 7)
                (ex_trace (DH := disk_h_listed))).
Proof.
  split;
    (split; [vm_compute; reflexivity|];
     split; [vm_compute; reflexivity|];
     split; [vm_compute; reflexivity|];
     split; [vm_compute; discriminate|];
     repeat constructor).
Qed.

Lemma master_only_on_all_acks_witness :
  exists l pre low,
    before_decide ex_in_acked ex_ls_bidding = (l, Ok (pre, low))
    /\ qc_master (ls_ctx pre) = 0
    /\ ls_bid_pending pre <> 0
    /\ all_acked (ls_ctx pre) (ls_ni pre)
    /\ qc_master_wait (ls_ctx pre) <= ls_bid_pending pre + 1.
Proof.
  destruct (cycle ex_in_acked ex_ls_bidding)
    as [evs [[ls' out]| |]] eqn:Hc;
    [|vm_compute in Hc; discriminate Hc
     |vm_compute in Hc; discriminate Hc].
  apply (proj2 (proj2 (@master_only_on_all_acks disk_h_low_evict))
               ex_in_acked ex_ls_bidding evs ls' out).
  - vm_compute. discriminate.
  - vm_compute. discriminate.
  - exact Hc.
  - vm_compute. discriminate.
  - vm_compute in Hc. injection Hc as _ <- _. reflexivity.
Defined.

Lemma master_conflict_abdicates_witness :
  exists pre,
    before_decide ex_in_conflict ex_ls_master
      = (fst (observe_and_gate ex_in_conflict ex_ls_master), Ok (pre, 2))
    /\ qc_status (ls_ctx pre) = S_RUN
    /\ ls_upgrade pre = qc_upgrade_wait (ls_ctx ex_ls_master)
    /\ ls_bid_pending pre = 0
    /\ m_msg (ls_msg pre) = M_NONE
    /\ snd (decide ex_in_conflict 2 pre) <> Rebooted
    /\ (snd (cycle ex_in_conflict ex_ls_master) = Rebooted ->
        overrun_reboot (ls_ctx ex_ls_master)
          (_diff_tv (in_oldtime ex_in_conflict)
                    (in_newtime ex_in_conflict)) = true)
    /\ (forall evs ls' out,
           cycle ex_in_conflict ex_ls_master = (evs, Ok (ls', out)) ->
           co_state out = S_RUN).
Proof.
  destruct (observe_and_gate ex_in_conflict ex_ls_master)
    as [l [ls2| |]] eqn:Hog;
    [|vm_compute in Hog; discriminate Hog
     |vm_compute in Hog; discriminate Hog].
  apply (@master_conflict_abdicates disk_h_low_evict ex_in_conflict
           ex_ls_master l ls2 1 2 2).
  - exact Hog.
  - vm_compute in Hog. injection Hog as _ <-. vm_compute. reflexivity.
  - vm_compute in Hog. injection Hog as _ <-. reflexivity.
  - lia.
  - vm_compute in Hog. injection Hog as _ <-. vm_compute. discriminate.
Defined.

(** ** The tracker on sample runs *)

Ltac run_ok Hc :=
  match goal with
  | |- context [quorum_loop ?c ?ni ?m ?mm ?inputs] =>
      destruct (quorum_loop c ni m mm inputs) as [[?evs ?outs] [?ls| |]]
        eqn:Hc;
      [|vm_compute in Hc; discriminate Hc
       |vm_compute in Hc; discriminate Hc]
  end.

Ltac run_length Hc Hlen inputs :=
  match type of Hc with
  | ?run = (?evs, ?outs, ?r) =>
      assert (Hlen : length outs = length inputs)
        by (change outs with (snd (fst (evs, outs, r)));
            rewrite <- Hc; vm_compute; reflexivity)
  end.

Lemma records_evolve_independently_witness :
  exists evs outs ls',
    quorum_loop (ex_ctx 1 S_NONE) (node_info_init 100 2) 0 0 ex_trace
    = (evs, outs, Ok ls')
    /\ length (ls_ni ls') = 2%nat
    /\ nth_error (ls_ni ls') 1
       = Some (track_many (ex_ctx 1 S_NONE)
                 (map (fun inp => in_disk inp 1%nat) ex_trace) ex_peer2).
Proof.
  run_ok Hc. run_length Hc Hlen ex_trace.
  destruct (@records_evolve_independently disk_h_low_evict
              (ex_ctx 1 S_NONE) (node_info_init 100 2) 0 0 ex_trace
              evs outs ls Hc Hlen) as [Hl Hk].
  exists evs, outs, ls. split; [reflexivity|]. split; [exact Hl|].
  apply Hk. reflexivity.
Defined.

Lemma stalled_peer_evicted_after_tko_witness :
  exists evs outs ls' n',
    quorum_loop (ex_ctx 1 S_NONE) ex_ni_up 0 0 ex_stall
    = (evs, outs, Ok ls')
    /\ nth_error (ls_ni ls') 1 = Some n'
    /\ ni_misses n' = 4
    /\ ni_state n' = S_EVICT
    /\ ni_evil_incarnation n' = 7.
Proof.
  run_ok Hc. run_length Hc Hlen ex_stall.
  destruct (@stalled_peer_evicted_after_tko disk_h_low_evict
              (ex_ctx 1 S_NONE) ex_ni_up 0 0 ex_stall evs outs ls
              1%nat ex_peer_up (ex_block 2 2 103 7 S_RUN) Hc Hlen)
    as (n' & Hn' & Hm & _ & Hlate).
  - reflexivity.
  - repeat constructor.
  - simpl. lia.
  - simpl. lia.
  - reflexivity.
  - reflexivity.
  - reflexivity.
  - right. reflexivity.
  - left. reflexivity.
  - simpl. lia.
  - exists evs, outs, ls, n'. split; [reflexivity|].
    split; [exact Hn'|]. split; [exact Hm|].
    apply Hlate. rewrite Hm. simpl. lia.
Defined.

Lemma fresh_peer_comes_up_after_tko_up_witness :
  exists evs outs ls' n',
    quorum_loop (ex_ctx 1 S_NONE) (node_info_init 100 2) 0 0
                (firstn 3 ex_trace)
    = (evs, outs, Ok ls')
    /\ nth_error (ls_ni ls') 1 = Some n'
    /\ ni_state n' = S_RUN
    /\ ni_incarnation n' = 7.
Proof.
  run_ok Hc. run_length Hc Hlen (firstn 3 ex_trace).
  destruct (@fresh_peer_comes_up_after_tko_up disk_h_low_evict
              (ex_ctx 1 S_NONE) (node_info_init 100 2) 0 0
              (firstn 3 ex_trace) evs outs ls 1%nat ex_peer2
              [ex_block 2 2 101 7 S_RUN; ex_block 2 2 102 7 S_RUN;
               ex_block 2 2 103 7 S_RUN] 7 Hc Hlen)
    as (n' & Hn' & _ & Hup).
  - reflexivity.
  - reflexivity.
  - simpl. lia.
  - simpl. lia.
  - simpl. lia.
  - simpl. lia.
  - repeat constructor; simpl; lia.
  - simpl. repeat split; lia.
  - unfold offline. simpl. repeat split; auto.
  - simpl. lia.
  - exists evs, outs, ls, n'. split; [reflexivity|].
    split; [exact Hn'|]. apply Hup. reflexivity.
Defined.

Lemma own_record_stays_blank_witness :
  exists evs outs ls' n',
    quorum_loop (ex_ctx 1 S_NONE) (node_info_init 100 2) 0 0 ex_trace
    = (evs, outs, Ok ls')
    /\ nth_error (ls_ni ls') 0 = Some n'
    /\ blank n'
    /\ tracked_alive n' = false.
Proof.
  run_ok Hc. run_length Hc Hlen ex_trace.
  destruct (@own_record_stays_blank disk_h_low_evict
              (ex_ctx 1 S_NONE) (node_info_init 100 2) 0 0 ex_trace
              evs outs ls 0%nat
              (mk_ni (mk_sb 1 0 100 0 0 0 0 0 0) 100 0 0 0 0 0
                     (mk_msg 0 0 0) (mk_msg 0 0 0)) Hc Hlen)
    as (n' & Hn' & Hb & Ha).
  - reflexivity.
  - simpl. lia.
  - simpl. lia.
  - simpl. lia.
  - simpl. lia.
  - simpl. lia.
  - repeat constructor.
  - unfold blank. simpl. auto.
  - exists evs, outs, ls, n'. auto.
Defined.

Lemma outgoing_mask_members_witness :
  exists m,
    snd (snd (check_transitions (ex_ctx 1 S_RUN) ex_ni_up (Some 0)))
    = Some m
    /\ forall b,
         Z.testbit m b = true
         <-> bit_in_range b = true
             /\ exists n, In n ex_ni_up /\ nodeid n - 1 = b
                           /\ joins (ex_ctx 1 S_RUN) n = true.
Proof.
  apply (@outgoing_mask_members disk_h_low_evict (ex_ctx 1 S_RUN)
           ex_ni_up 0).
  simpl. constructor; [intros [H|[]]; discriminate H|].
  constructor; [intros []|constructor].
Defined.

Lemma kill_requests_follow_notices_witness :
  (In (EKillNode 2)
      (fst (check_transitions (ex_ctx 1 S_MASTER) [ex_peer_missed] None))
   /\ truthy (Z.land (qc_flags (ex_ctx 1 S_MASTER)) RF_ALLOW_KILL) = true
   /\ In (evict_notice 2)
         (fst (check_transitions (ex_ctx 1 S_MASTER) [ex_peer_missed]
                                 None)))
  /\ fst (check_transitions (ex_ctx 1 S_RUN) [ex_peer_missed] None) = [].
Proof.
  assert (Hkill : In (EKillNode 2)
                     (fst (check_transitions (ex_ctx 1 S_MASTER)
                                             [ex_peer_missed] None)))
    by (vm_compute; right; left; reflexivity).
  split.
  - split; [exact Hkill|].
    apply (proj1 (@kill_requests_follow_notices disk_h_low_evict
                    (ex_ctx 1 S_MASTER) [ex_peer_missed] None) 2 Hkill).
  - apply (proj2 (proj2 (@kill_requests_follow_notices disk_h_low_evict
                           (ex_ctx 1 S_RUN) [ex_peer_missed] None))).
    + simpl. lia.
    + repeat constructor.
Defined.

Lemma master_exists_spec_witness :
  exists m low count,
    master_exists (ex_ctx 2 S_MASTER) (ls_ni ex_ls_master)
    = (m, low, count)
    /\ count = 1
    /\ m = 2
    /\ low <= 2.
Proof.
  destruct (master_exists (ex_ctx 2 S_MASTER) (ls_ni ex_ls_master))
    as [[m low] count] eqn:Hc.
  destruct (@master_exists_spec disk_h_low_evict (ex_ctx 2 S_MASTER)
              (ls_ni ex_ls_master) m low count Hc)
    as (Hcount & Hm & Hlow & _).
  exists m, low, count. split; [reflexivity|].
  split; [exact Hcount|]. split; [exact Hm|exact Hlow].
Defined.

Lemma do_vote_acks_lowest_bidder_witness :
  do_vote (ex_ctx 3 S_RUN) ex_ni_bidders (mk_msg 0 0 0) = mk_msg M_ACK 1 4
  /\ do_vote (ex_ctx 1 S_RUN) ex_ni_bidders (mk_msg 0 0 0) = mk_msg 0 0 0.
Proof.
  split.
  - destruct (proj2 (@do_vote_acks_lowest_bidder disk_h_low_evict
                       (ex_ctx 3 S_RUN) ex_ni_bidders (mk_msg 0 0 0))
                    (ex_bidder 2 6))
      as (w & Hw & Hbw & Hvote & _ & Hlow).
    + right. left. reflexivity.
    + reflexivity.
    + assert (Hle : nodeid w <= nodeid (ex_bidder 1 4)).
      { apply Hlow.
        - repeat constructor; unfold nodeid; simpl; lia.
        - left. reflexivity.
        - reflexivity. }
      rewrite Hvote.
      destruct Hw as [<-|[<-|[<-|[]]]].
      * reflexivity.
      * exfalso. unfold nodeid in Hle. simpl in Hle. lia.
      * discriminate Hbw.
  - apply (proj1 (@do_vote_acks_lowest_bidder disk_h_low_evict
                    (ex_ctx 1 S_RUN) ex_ni_bidders (mk_msg 0 0 0))).
    repeat constructor.
Defined.

Lemma check_votes_message_witness :
  snd (check_votes (ex_ctx 3 S_RUN) ex_ni_bidders_rev (mk_msg 0 0 0))
  = mk_msg M_ACK 1 4
  /\ snd (check_votes (ex_ctx 1 S_RUN) (ls_ni ex_ls_bidding)
                      (mk_msg M_BID 0 1))
     = mk_msg M_BID 0 1.
Proof.
  split.
  - assert (Hbid : existsb
                     (fun n => alive_bidder n
                               && (nodeid n <? qc_my_id (ex_ctx 3 S_RUN)))
                     ex_ni_bidders_rev = true) by reflexivity.
    destruct (proj1 (proj2 (@check_votes_message disk_h_low_evict
                              (ex_ctx 3 S_RUN) ex_ni_bidders_rev
                              (mk_msg 0 0 0))) Hbid)
      as (n & Hn & _ & _ & Hlow & Hmsg).
    assert (Hle : nodeid n <= nodeid (ex_bidder 1 4)).
    { apply Hlow; [right; left; reflexivity|reflexivity]. }
    rewrite Hmsg.
    destruct Hn as [<-|[<-|[]]].
    + exfalso. unfold nodeid in Hle. simpl in Hle. lia.
    + reflexivity.
  - apply (proj1 (@check_votes_message disk_h_low_evict (ex_ctx 1 S_RUN)
                    (ls_ni ex_ls_bidding) (mk_msg M_BID 0 1))).
    reflexivity.
Defined.


Lemma cmp_tv_order_witness :
  _cmp_tv (mk_tv 1 0) (mk_tv 2 0) = 1.
Proof.
  assert (Ha : tv_normal (mk_tv 1 0)) by (unfold tv_normal; simpl; lia).
  assert (Hb : tv_normal (mk_tv 2 0)) by (unfold tv_normal; simpl; lia).
  apply (proj1 (proj2 (cmp_tv_order (mk_tv 1 0) (mk_tv 2 0)) Ha Hb)).
  unfold tv_usecs. simpl. lia.
Defined.

Lemma cycle_reboot_sources_witness :
  (exists k sb,
      (k < 2)%nat /\ in_disk ex_in_evicted k = Some sb
      /\ evicts_self (ex_ctx 1 S_NONE) sb)
  \/ (truthy (Z.land (qc_flags (ex_ctx 1 S_NONE)) RF_REBOOT) = true
      /\ in_score ex_in_evicted
         < score_req_of (ex_ctx 1 S_NONE) (in_score_max ex_in_evicted)
      /\ S_NONE < S_NONE)
  \/ overrun_reboot (ex_ctx 1 S_NONE)
       (_diff_tv (in_oldtime ex_in_evicted) (in_newtime ex_in_evicted))
     = true.
Proof.
  apply (@cycle_reboot_sources disk_h_low_evict ex_in_evicted
           (loop_init (ex_ctx 1 S_NONE) (node_info_init 100 2) 0 0)).
  vm_compute. reflexivity.
Defined.

(** ** The election on a sample run *)

Lemma bid_written_only_in_run_witness :
  exists st,
    In (EWriteStatus 1 st (Some (mk_msg M_BID 0 2)) (Some 1) (Some 0))
       (fst (fst (quorum_loop (ex_ctx 1 S_NONE) (node_info_init 100 2)
                              0 0 ex_trace_bid)))
    /\ st = S_RUN.
Proof.
  exists 5.
  assert (Hin : In (EWriteStatus 1 5 (Some (mk_msg M_BID 0 2)) (Some 1)
                                 (Some 0))
                   (fst (fst (quorum_loop (ex_ctx 1 S_NONE)
                                (node_info_init 100 2) 0 0 ex_trace_bid))))
    by (vm_compute; do 9 right; left; reflexivity).
  split; [exact Hin|].
  assert (Hnr : S_NONE < S_RUN) by (simpl; lia).
  assert (Hnm : S_NONE < S_MASTER) by (simpl; lia).
  assert (Hb0 : M_BID <> 0) by (simpl; lia).
  assert (Hbn : M_BID <> M_NONE) by (simpl; lia).
  assert (Hba : M_BID <> M_ACK) by (simpl; lia).
  apply (@bid_written_only_in_run disk_h_low_evict (ex_ctx 1 S_NONE)
           (node_info_init 100 2) 0 0 ex_trace_bid Hnr Hnm Hb0 Hbn Hba
           1 5 (mk_msg M_BID 0 2) (Some 1) (Some 0) Hin).
  reflexivity.
Defined.

Lemma no_bid_during_upgrade_wait_witness :
  exists m1 st2 m2,
    nth_error (own_writes
                 (fst (fst (quorum_loop (ex_ctx 1 S_NONE)
                              (node_info_init 100 2) 0 0 ex_trace_bid)))) 0
    = Some (S_NONE, m1)
    /\ nth_error (own_writes
                    (fst (fst (quorum_loop (ex_ctx 1 S_NONE)
                                 (node_info_init 100 2) 0 0
                                 ex_trace_bid)))) (0 + 2)
       = Some (st2, m2)
    /\ m_msg m2 <> M_BID.
Proof.
  assert (H1 : nth_error
                 (own_writes
                    (fst (fst (quorum_loop (ex_ctx 1 S_NONE)
                                 (node_info_init 100 2) 0 0
                                 ex_trace_bid)))) 0
               = Some (S_NONE, mk_msg 0 0 0))
    by (vm_compute; reflexivity).
  assert (H2 : nth_error
                 (own_writes
                    (fst (fst (quorum_loop (ex_ctx 1 S_NONE)
                                 (node_info_init 100 2) 0 0
                                 ex_trace_bid)))) (0 + 2)
               = Some (S_RUN, mk_msg 0 0 1))
    by (vm_compute; reflexivity).
  exists (mk_msg 0 0 0), S_RUN, (mk_msg 0 0 1).
  split; [exact H1|]. split; [exact H2|].
  apply (@no_bid_during_upgrade_wait disk_h_low_evict (ex_ctx 1 S_NONE)
           (node_info_init 100 2) 0 0 ex_trace_bid 0%nat 2%nat
           S_NONE (mk_msg 0 0 0) S_RUN (mk_msg 0 0 1)).
  - simpl. lia.
  - simpl. lia.
  - simpl. lia.
  - simpl. lia.
  - simpl. lia.
  - exact H1.
  - reflexivity.
  - lia.
  - simpl. lia.
  - exact H2.
Defined.

Lemma no_master_before_master_wait_witness :
  exists m1 st2 m2,
    nth_error (own_writes
                 (fst (fst (quorum_loop (ex_ctx 1 S_NONE)
                              (node_info_init 100 2) 0 0 ex_trace_bid)))) 0
    = Some (S_NONE, m1)
    /\ nth_error (own_writes
                    (fst (fst (quorum_loop (ex_ctx 1 S_NONE)
                                 (node_info_init 100 2) 0 0
                                 ex_trace_bid)))) (0 + 4)
       = Some (st2, m2)
    /\ st2 <> S_MASTER.
Proof.
  assert (H1 : nth_error
                 (own_writes
                    (fst (fst (quorum_loop (ex_ctx 1 S_NONE)
                                 (node_info_init 100 2) 0 0
                                 ex_trace_bid)))) 0
               = Some (S_NONE, mk_msg 0 0 0))
    by (vm_compute; reflexivity).
  assert (H2 : nth_error
                 (own_writes
                    (fst (fst (quorum_loop (ex_ctx 1 S_NONE)
                                 (node_info_init 100 2) 0 0
                                 ex_trace_bid)))) (0 + 4)
               = Some (S_RUN, mk_msg M_BID 0 2))
    by (vm_compute; reflexivity).
  exists (mk_msg 0 0 0), S_RUN, (mk_msg M_BID 0 2).
  split; [exact H1|]. split; [exact H2|].
  apply (@no_master_before_master_wait disk_h_low_evict (ex_ctx 1 S_NONE)
           (node_info_init 100 2) 0 0 ex_trace_bid 0%nat 4%nat
           S_NONE (mk_msg 0 0 0) S_RUN (mk_msg M_BID 0 2)).
  - simpl. lia.
  - simpl. lia.
  - simpl. lia.
  - simpl. lia.
  - exact H1.
  - simpl. lia.
  - simpl. discriminate.
  - lia.
  - right. split; [reflexivity|simpl; lia].
  - exact H2.
Defined.

(** ** Start-up on a sample configuration *)

Lemma quorum_init_result_witness :
  ex_init_ctx = set_qc_status S_INIT ex_cfg
  /\ length ex_init_ni = 2%nat
  /\ Forall (fun n => ni_evil_incarnation n = 0
                      /\ ni_misses n <= Z.max 0 (qc_tko ex_cfg))
            ex_init_ni.
Proof.
  assert (Hc : quorum_init ex_cfg 0 0 0 100 2 (fun _ => ex_init_in) []
               = (fst ex_init, Ok (0, ex_init_ctx, ex_init_ni)))
    by (vm_compute; reflexivity).
  destruct (@quorum_init_result disk_h_low_evict ex_cfg 0 0 0 100 2%nat
              (fun _ => ex_init_in) [] (fst ex_init) ex_init_ctx
              ex_init_ni Hc)
    as (_ & _ & _ & Hctx & Hlen & Hall).
  auto.
Defined.

Lemma get_config_data_bounds_witness :
  fst (get_config_data (ex_ctx 1 S_NONE) 0 true ex_cv) = 0
  /\ qc_my_id ex_cfg = 1
  /\ 1 <= qc_interval ex_cfg
  /\ 3 <= qc_tko ex_cfg
  /\ 2 <= qc_tko_up ex_cfg
  /\ 1 <= qc_upgrade_wait ex_cfg
  /\ 0 <= qc_scoremin ex_cfg
  /\ qc_tko_up ex_cfg < qc_master_wait ex_cfg.
Proof.
  destruct (proj2 (@get_config_data_bounds disk_h_low_evict
                     disk_h_flags_bits (ex_ctx 1 S_NONE) 0 true ex_cv)
                  eq_refl)
    as (H0 & H1 & _ & _ & H2 & H3 & H4 & H5 & H6 & H7).
  assert (Hints : cv_ints ex_cv).
  { unfold cv_ints, ex_cv, key_int, int_range, INT_MIN, INT_MAX. simpl.
    repeat split; try exact I; lia. }
  assert (Hne : cv_tko_up ex_cv <> Some INT_MAX) by discriminate.
  pose proof (proj1 (H7 Hints) Hne) as H8.
  repeat split; assumption.
Defined.

Lemma get_config_data_flags_witness :
  Z.land (qc_flags ex_cfg) RF_REBOOT = 0
  /\ Z.land (qc_flags ex_cfg) RF_PARANOID = RF_PARANOID
  /\ Z.land (qc_flags ex_cfg) RF_ALLOW_KILL = RF_ALLOW_KILL
  /\ Z.land (qc_flags ex_cfg) RF_STOP_CMAN = 0.
Proof.
  assert (Hd : @flags_disjoint disk_h_low_evict disk_h_flags_bits)
    by (unfold flags_disjoint, run_flags; repeat constructor).
  destruct (@get_config_data_flags disk_h_low_evict disk_h_flags_bits
              (ex_ctx 1 S_NONE) 0 ex_cv
              (fst (get_config_data (ex_ctx 1 S_NONE) 0 true ex_cv))
              ex_cfg Hd (surjective_pairing _))
    as (Hr & _ & Hp & Hk & Hs & _).
  repeat split; assumption.
Defined.

Lemma configured_daemon_waits_witness :
  exists st m,
    nth_error (own_writes
                 (fst (fst (quorum_loop ex_init_ctx ex_init_ni 0 0
                                        ex_trace_bid)))) 3
    = Some (st, m)
    /\ st <> S_MASTER.
Proof.
  assert (Ho : nth_error
                 (own_writes
                    (fst (fst (quorum_loop ex_init_ctx ex_init_ni 0 0
                                           ex_trace_bid)))) 3
               = Some (S_RUN, mk_msg M_BID 0 2))
    by (vm_compute; reflexivity).
  exists S_RUN, (mk_msg M_BID 0 2). split; [exact Ho|].
  assert (Hcfg : get_config_data (ex_ctx 1 S_NONE) 0 true ex_cv
                 = (0, ex_cfg)) by (vm_compute; reflexivity).
  assert (Hinit : quorum_init ex_cfg 0 0 0 100 2 (fun _ => ex_init_in) []
                  = (fst ex_init, Ok (0, ex_init_ctx, ex_init_ni)))
    by (vm_compute; reflexivity).
  assert (Hints : cv_ints ex_cv).
  { unfold cv_ints, ex_cv, key_int, int_range, INT_MIN, INT_MAX. simpl.
    repeat split; try exact I; lia. }
  assert (Hne : cv_tko_up ex_cv <> Some INT_MAX) by discriminate.
  apply (@configured_daemon_waits disk_h_low_evict disk_h_flags_bits
           (ex_ctx 1 S_NONE) 0 ex_cv ex_cfg 0 0 0 100 2%nat
           (fun _ => ex_init_in) [] (fst ex_init) ex_init_ctx ex_init_ni
           0 0 ex_trace_bid 3%nat S_RUN (mk_msg M_BID 0 2)).
  - simpl. lia.
  - simpl. lia.
  - simpl. lia.
  - simpl. lia.
  - exact Hints.
  - exact Hne.
  - exact Hcfg.
  - exact Hinit.
  - exact Ho.
  - right. vm_compute. reflexivity.
Defined.

End SampleRuns.
